(** * git_cdn: pack cache, repo cache and upload-pack orchestration

    A shallow embedding of [git_cdn/pack_cache.py], [git_cdn/repo_cache.py],
    [git_cdn/upload_pack.py], [git_cdn/auth_cache.py] and of
    [choose_generator] of [git_cdn/metrics.py].  Python code that touches the file system,
    the structlog context, the client connection or a subprocess is written
    in a state-and-exception monad over [State]; what the outside decides
    (what a git process prints, what other workers do while we wait for a
    lock) enters as Section variables. *)

From Stdlib Require Import ZArith Lia Strings.Byte.
From stdpp Require Import base option list sorting gmap strings.

Local Open Scope Z_scope.

(** ** Bytes and text *)

(** A Python [bytes] object.  A Python [str] that carries data (a
    credential, an error message, a path) is represented by its UTF-8
    encoding, so [s.encode()] is the identity, [x + y] is [++] and
    [b.decode()] is a validity check ([bytes_decode] below). *)
Abbreviation bytes := (list byte).

Definition B (s : string) : bytes := String.list_byte_of_string s.

#[global] Instance byte_eq_dec : EqDecision byte := Byte.byte_eq_dec.

#[global] Program Instance byte_countable : Countable byte :=
  inj_countable Byte.to_N Byte.of_N _.
Next Obligation. intros x. apply Byte.of_to_N. Qed.

(** [needle in hay] for bytes objects. *)
Fixpoint contains (needle hay : bytes) : bool :=
  if bool_decide (needle `prefix_of` hay) then true
  else match hay with
       | [] => false
       | _ :: hay' => contains needle hay'
       end.

(** [needle] occurs in [hay]. *)
Definition occurs_in (needle hay : bytes) : Prop :=
  ∃ a c, hay = a ++ needle ++ c.

(** [bytes.replace(old, new)] for a non-empty [old]: occurrences are
    replaced from the left and do not overlap; [skip] counts the bytes of
    the occurrence just replaced that are still to be passed over. *)
Fixpoint replace_from (old new : bytes) (skip : nat) (s : bytes) : bytes :=
  match s with
  | [] => []
  | c :: s' =>
      match skip with
      | S k => replace_from old new k s'
      | O =>
          if bool_decide (old `prefix_of` s)
          then new ++ replace_from old new (pred (length old)) s'
          else c :: replace_from old new O s'
      end
  end.

(** With an empty [old], Python inserts [new] before every byte and at
    the end. *)
Definition replace (old new s : bytes) : bytes :=
  match old with
  | [] => new ++ concat (map (λ c, c :: new) s)
  | _ :: _ => replace_from old new O s
  end.

(** Strict UTF-8 validation, as [bytes.decode()] performs it: the lead
    byte fixes how many continuation bytes follow and the range of the
    first of them (no overlong forms, no surrogates, nothing above
    U+10FFFF). *)
Inductive utf8_state := U_start | U_need (k : nat) (lo hi : N).

Definition utf8_step (st : utf8_state) (c : byte) : option utf8_state :=
  let n := Byte.to_N c in
  match st with
  | U_start =>
      if (n <? 0x80)%N then Some U_start
      else if (n <? 0xC2)%N then None
      else if (n <? 0xE0)%N then Some (U_need 1 0x80 0xBF)
      else if (n =? 0xE0)%N then Some (U_need 2 0xA0 0xBF)
      else if (n =? 0xED)%N then Some (U_need 2 0x80 0x9F)
      else if (n <? 0xF0)%N then Some (U_need 2 0x80 0xBF)
      else if (n =? 0xF0)%N then Some (U_need 3 0x90 0xBF)
      else if (n <? 0xF4)%N then Some (U_need 3 0x80 0xBF)
      else if (n =? 0xF4)%N then Some (U_need 3 0x80 0x8F)
      else None
  | U_need k lo hi =>
      if ((lo <=? n) && (n <=? hi))%N
      then match k with
           | S (S k') => Some (U_need (S k') 0x80 0xBF)
           | _ => Some U_start
           end
      else None
  end.

Fixpoint utf8_run (st : utf8_state) (s : bytes) : bool :=
  match s with
  | [] => match st with U_start => true | _ => false end
  | c :: s' =>
      match utf8_step st c with
      | Some st' => utf8_run st' s'
      | None => false
      end
  end.

Definition utf8_valid (s : bytes) : bool := utf8_run U_start s.

(** ** Exceptions and results *)

Inductive exn :=
| OSError (errno : Z)
| FileNotFoundError
| IsADirectoryError
| NotADirectoryError
| IndexError
| ValueError
| KeyError (key : string)
| AttributeError (name : string)
| UnboundLocalError (name : string)
| UnicodeDecodeError
| RuntimeError (msg : string)
| BrokenPipeError
| ConnectionResetError
| CancelledError
| PacketLineError
| HTTPUnauthorized (reason : bytes)
| HTTPInternalServerError (reason : bytes).

(** [CancelledError] derives from [BaseException] only: an
    [except Exception] clause does not catch it. *)
Definition is_Exception (e : exn) : bool :=
  match e with
  | CancelledError => false
  | _ => true
  end.

Definition EINVAL : Z := 22.

Inductive res (A : Type) : Type :=
| Ok (a : A)
| Raise (e : exn).
Arguments Ok {A} a.
Arguments Raise {A} e.

(** [b.decode()] *)
Definition bytes_decode (s : bytes) : res bytes :=
  if utf8_valid s then Ok s else Raise UnicodeDecodeError.

(** ** The state a request runs in *)

Inductive node :=
| File (content : bytes) (mtime : Z)
| Dir (mtime : Z).

Definition node_mtime (n : node) : Z :=
  match n with
  | File _ t => t
  | Dir t => t
  end.

Definition touch (now : Z) (n : node) : node :=
  match n with
  | File c _ => File c now
  | Dir _ => Dir now
  end.

Inductive lock_mode := LOCK_SH | LOCK_EX.

(** Values bound in the structlog context or attached to a log record. *)
#[warnings="-register-all"]
Inductive pyval :=
| VStr (s : bytes)
| VBytes (s : bytes)
| VInt (z : Z)
| VBool (x : bool)
| VNone
| VList (l : list bytes)
| VDict (items : list (string * pyval)).

Inductive event :=
| EvLog (level : string) (msg : string) (fields : list (string * pyval))
| EvAcquire (path : bytes) (mode : lock_mode)
| EvRelease (path : bytes) (mode : lock_mode)
| EvSpawn (argv : list bytes)
| EvSleep (t : Z)
| EvMetric (name : string) (v : Z)
| EvDispatch (task : string)
| EvSemaAcquire
| EvSemaRelease.

Record PackCache := mkPackCache {
  pc_hash : bytes;
  pc_dirname : bytes;
  pc_filename : bytes;
}.

Record RepoCache := mkRepoCache {
  rc_directory : bytes;
  rc_auth : bytes;
  rc_lock : bytes;
  rc_url : bytes;
  rc_path : bytes;
}.

(** The attributes that the code assigns after construction:
    [PackCache.hit] and the handler's [rcache], [pcache], [pcache_hit]
    and [rcache_hit]. *)
Record Attrs := mkAttrs {
  hit : bool;
  rcache : option RepoCache;
  pcache : option PackCache;
  pcache_hit : bool;
  rcache_hit : bool;
}.

Record State := mkState {
  fs : gmap bytes node;          (* the work directory *)
  clock : Z;                     (* the current time, in milliseconds *)
  ctx : gmap string pyval;       (* structlog contextvars of the request *)
  sent : list bytes;             (* what the client writer accepted, in order *)
  client_gone : bool;            (* the connection has been reset *)
  attrs : Attrs;
  trace : list event;            (* log records, locks, spawns, sleeps *)
}.

Definition set_fs (f : gmap bytes node → gmap bytes node) (s : State) : State :=
  mkState (f (fs s)) (clock s) (ctx s) (sent s) (client_gone s) (attrs s) (trace s).
Definition set_clock (f : Z → Z) (s : State) : State :=
  mkState (fs s) (f (clock s)) (ctx s) (sent s) (client_gone s) (attrs s) (trace s).
Definition set_ctx (f : gmap string pyval → gmap string pyval) (s : State) : State :=
  mkState (fs s) (clock s) (f (ctx s)) (sent s) (client_gone s) (attrs s) (trace s).
Definition set_sent (f : list bytes → list bytes) (s : State) : State :=
  mkState (fs s) (clock s) (ctx s) (f (sent s)) (client_gone s) (attrs s) (trace s).
Definition set_attrs (f : Attrs → Attrs) (s : State) : State :=
  mkState (fs s) (clock s) (ctx s) (sent s) (client_gone s) (f (attrs s)) (trace s).
Definition set_trace (f : list event → list event) (s : State) : State :=
  mkState (fs s) (clock s) (ctx s) (sent s) (client_gone s) (attrs s) (f (trace s)).

Definition set_hit (x : bool) (a : Attrs) : Attrs :=
  mkAttrs x (rcache a) (pcache a) (pcache_hit a) (rcache_hit a).
Definition set_rcache (x : option RepoCache) (a : Attrs) : Attrs :=
  mkAttrs (hit a) x (pcache a) (pcache_hit a) (rcache_hit a).
Definition set_pcache (x : option PackCache) (a : Attrs) : Attrs :=
  mkAttrs (hit a) (rcache a) x (pcache_hit a) (rcache_hit a).
Definition set_pcache_hit (x : bool) (a : Attrs) : Attrs :=
  mkAttrs (hit a) (rcache a) (pcache a) x (rcache_hit a).
Definition set_rcache_hit (x : bool) (a : Attrs) : Attrs :=
  mkAttrs (hit a) (rcache a) (pcache a) (pcache_hit a) x.

(** ** What the outside decides *)

(** An entry of [os.scandir]: its name, its path, what [is_dir()]
    answers, and the size and mtime that [stat()] reports and keeps. *)
Record DirEntry := mkDirEntry {
  de_name : bytes;
  de_path : bytes;
  de_is_dir : bool;
  st_size : Z;
  st_mtime : Z;
}.

(** [entry.is_file()]: the work directory holds directories and regular
    files only. *)
Definition de_is_file (f : DirEntry) : bool := negb (de_is_dir f).

(** What starting [git cat-file --batch-check] in the mirror comes to:
    [create_subprocess_exec] raises (no such directory, no git), or the
    process starts and [communicate()] returns its stdout or raises. *)
Inductive CatFileRun :=
| NotStarted (e : exn)
| Communicated (r : res bytes).

(** What one git process does, as the outside decides it: its output and
    exit status, the file system it leaves, the time it takes, and the
    exception that interrupts the first [communicate()], if one does
    (after [CancelledError] or [ConnectionResetError] the code calls
    [communicate()] again and gets [g_stdout2] and [g_stderr2]). *)
Record GitRun := mkGitRun {
  g_stdout : bytes;
  g_stderr : bytes;
  g_returncode : Z;
  g_fs : gmap bytes node;
  g_elapsed : Z;
  g_interrupt : option exn;
  g_stdout2 : bytes;
  g_stderr2 : bytes;
}.

(** What one [git-upload-pack] process does: what it prints, how it
    exits, and the exception that writing to its stdin meets, if any. *)
Record UploadPackRun := mkUploadPackRun {
  p_stdout : bytes;
  p_stderr : bytes;
  p_returncode : Z;
  p_elapsed : Z;
  p_stdin_error : option exn;
}.

(** The configuration read from the environment, the helpers of
    [git_cdn/util.py] and [git_cdn/log.py] that are missing from the
    sources, and the processes and workers around the request. *)
Record Env := mkEnv {
  WORKDIR : bytes;
  PACK_CACHE_CHUNK_SIZE : Z;     (* default 1024 * 1024 *)
  PACK_CACHE_SIZE_GB : option Z; (* default 20 *)
  BACKOFF_START : Z;             (* default half a second *)
  BACKOFF_COUNT : Z;             (* default 5 *)
  PROGRESS_OPTION : bytes;       (* default --progress *)
  CHUNK_SIZE : Z;                (* default 32 * 1024 *)
  (* util.backoff, util.remove_git_credentials, util.generate_url,
     util.get_bundle_paths, log.bind_context_from_exp *)
  backoff : Z → Z → list Z;
  remove_git_credentials : list bytes → list bytes;
  generate_url : bytes → bytes → bytes → bytes;
  get_bundle_paths : bytes → bytes * bytes * bytes;
  exp_context : exn → list (string * pyval);
  (* the git binary run with some arguments in some state *)
  git : list bytes → State → GitRun;
  (* git cat-file --batch-check started in a directory and given some refs *)
  cat_file_proc : bytes → list bytes → State → CatFileRun;
  (* git-upload-pack run on a directory with a protocol version and an input *)
  upload_pack_proc : bytes → Z → bytes → State → UploadPackRun;
  (* what other workers do to the file system while this one waits for a lock *)
  others : gmap bytes node → gmap bytes node;
  (* the order in which os.scandir lists the entries of a directory:
     by rising rank of their paths *)
  scandir_rank : bytes → Z;
  (* the regular expression of parse_git_output and the sum it takes over
     the matching lines; None when no line matches *)
  receive_bytes : bytes → option Z;
}.

Inductive writer := ClientWriter.

(** ** The monad *)

Definition M (A : Type) : Type := State → res A * State.

#[global] Instance M_ret : MRet M := λ A a s, (Ok a, s).
#[global] Instance M_bind : MBind M := λ A B f m s,
  match m s with
  | (Ok a, s') => f a s'
  | (Raise e, s') => (Raise e, s')
  end.

Definition raise {A} (e : exn) : M A := λ s, (Raise e, s).
Definition gets {A} (f : State → A) : M A := λ s, (Ok (f s), s).
Definition modify (f : State → State) : M unit := λ s, (Ok tt, f s).
Definition lift_res {A} (r : res A) : M A := λ s, (r, s).

(** [try: body finally: fin].  An exception raised by [fin] replaces the
    outcome of [body]. *)
Definition try_finally {A} (body : M A) (fin : M unit) : M A := λ s,
  let '(r, s1) := body s in
  match fin s1 with
  | (Ok _, s2) => (r, s2)
  | (Raise e, s2) => (Raise e, s2)
  end.

(** [try: body except ...: handler]: [handler e] is [None] when no
    clause matches [e]. *)
Definition try_except {A} (body : M A) (handler : exn → option (M A)) : M A := λ s,
  match body s with
  | (Raise e, s1) =>
      match handler e with
      | Some h => h s1
      | None => (Raise e, s1)
      end
  | r => r
  end.

(** [for x in l: f(x)] *)
Fixpoint for_each {A} (f : A → M unit) (l : list A) : M unit :=
  match l with
  | [] => mret tt
  | x :: l' => f x;; for_each f l'
  end.

Definition emit (e : event) : M unit := modify (set_trace (λ t, t ++ [e])).
Definition log (level msg : string) (fields : list (string * pyval)) : M unit :=
  emit (EvLog level msg fields).

(** [bind_contextvars(k=v)] *)
Definition bind_contextvars (k : string) (v : pyval) : M unit :=
  modify (set_ctx (insert k v)).

(** [await writer.write(data)] *)
Definition writer_write (data : bytes) : M unit := λ s,
  if client_gone s then (Raise ConnectionResetError, s)
  else (Ok tt, set_sent (λ l, l ++ [data]) s).

(** [time()] *)
Definition time : M Z := gets clock.

(** [await asyncio.sleep(t)] *)
Definition sleep (t : Z) : M unit :=
  emit (EvSleep t);; modify (set_clock (λ c, c + Z.max 0 t)).

(** *** The file system calls the code makes *)

Definition os_path_exists (p : bytes) : M bool :=
  gets (λ s, bool_decide (is_Some (fs s !! p))).

Definition os_path_isdir (p : bytes) : M bool :=
  gets (λ s, match fs s !! p with Some (Dir _) => true | _ => false end).

(** [os.path.getmtime(p)] *)
Definition os_path_getmtime (p : bytes) : M Z := λ s,
  match fs s !! p with
  | Some n => (Ok (node_mtime n), s)
  | None => (Raise FileNotFoundError, s)
  end.

(** [os.utime(p, None)]: the times become the current time. *)
Definition os_utime (p : bytes) : M unit := λ s,
  match fs s !! p with
  | Some n => (Ok tt, set_fs (insert p (touch (clock s) n)) s)
  | None => (Raise FileNotFoundError, s)
  end.

Definition os_unlink (p : bytes) : M unit := λ s,
  match fs s !! p with
  | Some (File _ _) => (Ok tt, set_fs (delete p) s)
  | Some (Dir _) => (Raise IsADirectoryError, s)
  | None => (Raise FileNotFoundError, s)
  end.

(** [open(p, "rb")] followed by [f.read()] *)
Definition read_file (p : bytes) : M bytes := λ s,
  match fs s !! p with
  | Some (File c _) => (Ok c, s)
  | Some (Dir _) => (Raise IsADirectoryError, s)
  | None => (Raise FileNotFoundError, s)
  end.

(** [os.stat(p).st_size] of a regular file *)
Definition stat_size (p : bytes) : M Z := λ s,
  match fs s !! p with
  | Some (File c _) => (Ok (Z.of_nat (length c)), s)
  | Some (Dir _) => (Raise IsADirectoryError, s)
  | None => (Raise FileNotFoundError, s)
  end.

(** [f.seek(offset, os.SEEK_END)] on a file holding [content]: the
    operating system refuses a position before the start of the file. *)
Definition seek_end (content : bytes) (offset : Z) : res nat :=
  let pos := Z.of_nat (length content) + offset in
  if pos <? 0 then Raise (OSError EINVAL) else Ok (Z.to_nat pos).

(** [f.read(n)] at position [pos], for [n >= 0] *)
Definition read_at (content : bytes) (pos n : nat) : bytes :=
  take n (drop pos content).

(** [f.read(n)] on a file opened with "rb": [-1] asks for the rest of
    the file, and a size below that is refused. *)
Definition f_read (content : bytes) (pos : nat) (n : Z) : res bytes :=
  if n <? -1 then Raise ValueError
  else if n <? 0 then Ok (drop pos content)
  else Ok (take (Z.to_nat n) (drop pos content)).

(** [await reader.read(n)] on an [asyncio.StreamReader] that delivers
    [stream] before the end of the file: every negative [n] asks for the
    rest of the stream. *)
Definition stream_read (stream : bytes) (pos : nat) (n : Z) : bytes :=
  if n <? 0 then drop pos stream else take (Z.to_nat n) (drop pos stream).

(** Modelled from the spec: [git_cdn/lock/aio_lock.py] is missing from the
    sources.  "A named, cross-process, advisory lock bound to a filesystem
    path, supporting shared and exclusive modes, with scoped acquisition
    (released on every exit path including cancellation)."  This is
    [async with lock(path, mode): body]; while the caller waits for the
    lock other workers run, and [others] is what they do to the state. *)
Definition with_lock {A} (others : State → State)
    (path : bytes) (mode : lock_mode) (body : M A) : M A :=
  modify others;;
  emit (EvAcquire path mode);;
  try_finally body (emit (EvRelease path mode)).

(** [async with sema: body] for an [asyncio.Semaphore], which the
    requests of one process share: it is given back on every exit path,
    and [others] is what other workers do while this one waits for it. *)
Definition with_sema {A} (others : State → State) (body : M A) : M A :=
  modify others;;
  emit EvSemaAcquire;;
  try_finally body (emit EvSemaRelease).

(** [bind_context_from_exp(e)] of [git_cdn/log.py]: [exp_context] tells
    what it binds for an exception. *)
Definition bind_context_from_exp (env : Env) (e : exn) : M unit :=
  for_each (λ kv : string * pyval, bind_contextvars kv.1 kv.2) (exp_context env e).

(** ** git_cdn/packet_line.py (not part of the sources at hand) *)

Module packet_line.

Definition hex_digit (n : N) : byte :=
  match n with
  | 0 => "0" | 1 => "1" | 2 => "2" | 3 => "3" | 4 => "4"
  | 5 => "5" | 6 => "6" | 7 => "7" | 8 => "8" | 9 => "9"
  | 10 => "a" | 11 => "b" | 12 => "c" | 13 => "d" | 14 => "e"
  | _ => "f"
  end%N%byte.

Definition hex_value (c : byte) : option N :=
  let n := Byte.to_N c in
  if ((0x30 <=? n) && (n <=? 0x39))%N then Some (n - 0x30)%N
  else if ((0x61 <=? n) && (n <=? 0x66))%N then Some (n - 0x61 + 10)%N
  else if ((0x41 <=? n) && (n <=? 0x46))%N then Some (n - 0x41 + 10)%N
  else None.

Definition hex4 (n : N) : bytes :=
  [hex_digit (n / 4096 mod 16); hex_digit (n / 256 mod 16);
   hex_digit (n / 16 mod 16); hex_digit (n mod 16)]%N.

Definition unhex4 (p : bytes) : option N :=
  match p with
  | [a; b; c; d] =>
      a ← hex_value a; b ← hex_value b; c ← hex_value c; d ← hex_value d;
      Some (((a * 16 + b) * 16 + c) * 16 + d)%N
  | _ => None
  end.

(** Modelled from the spec: [to_packet] is missing from the sources.
    "each frame is a 4-hex length prefix followed by that many bytes
    including the prefix itself"; [to_packet(payload)] "emits a
    well-formed packet-line frame". *)
Definition to_packet (payload : bytes) : bytes :=
  hex4 (N.of_nat (length payload) + 4) ++ payload.

(** Modelled from the spec: [PacketLineChunkParser] is missing from the
    sources.  It "pulls bytes via read_func(n) and yields successive raw
    frame chunks (prefix + payload) until a flush 0000 is observed at a
    frame boundary, at which point the sequence terminates normally.
    Malformed frames (non-hex prefix, premature EOF before a flush) fail
    the sequence with a decode error".  [stream] is everything the
    reader delivers before end of file; the result is the chunks yielded
    and the exception that ended the iteration, if one did.  A delim
    [0001] is yielded as its prefix; the flush is yielded too ("on
    success, the file ends with the upstream's 0000 flush"). *)
Fixpoint parse_chunks (fuel : nat) (stream : bytes) : list bytes * option exn :=
  match fuel with
  | O => ([], Some PacketLineError)
  | S fuel' =>
      let prefix := take 4 stream in
      match unhex4 prefix with
      | None => ([], Some PacketLineError)
      | Some 0%N => ([prefix], None)
      | Some 1%N =>
          let '(cs, r) := parse_chunks fuel' (drop 4 stream) in (prefix :: cs, r)
      | Some n =>
          let n := N.to_nat n in
          if bool_decide (4 ≤ n ≤ length stream)%nat
          then let '(cs, r) := parse_chunks fuel' (drop n stream) in
               (take n stream :: cs, r)
          else ([], Some PacketLineError)
      end
  end.

(** Every frame takes at least four bytes of the stream, so its length
    is fuel enough; an exhausted stream is a premature end of file. *)
Definition PacketLineChunkParser (stream : bytes) : list bytes * option exn :=
  parse_chunks (length stream) stream.

End packet_line.

(** ** git_cdn/util.py (not part of the sources at hand) *)

Module util.

(** [os.path.join(a, b)] *)
Definition os_path_join (a b : bytes) : bytes :=
  if bool_decide (B "/" `prefix_of` b) then b
  else if bool_decide (a = [] ∨ B "/" `suffix_of` a) then a ++ b
  else a ++ B "/" ++ b.

(** Modelled from the spec: [get_subdir] is missing from the sources.
    The layout is "<workdir>/pack_cache/<hash[0:2]>/<hash>" and "the
    2-char shard MUST be created on construction": the directory under
    the work directory is created when absent and its path returned. *)
Definition get_subdir (WORKDIR sub : bytes) : M bytes := λ s,
  let d := os_path_join WORKDIR sub in
  match fs s !! d with
  | Some _ => (Ok d, s)
  | None => (Ok d, set_fs (insert d (Dir (clock s))) s)
  end.

End util.

(** ** git_cdn/lock/file_lock.py (not part of the sources at hand) *)

Module file_lock.

(** Modelled from the spec: [FileLock] is missing from the sources.  It
    "exposes: acquire(path, mode) returning a scoped handle;
    exists(path); mtime(path); delete(path) (unlink of the locked file,
    requires exclusive)".  This is [with FileLock(path) as flock: body]. *)
Definition with_FileLock {A} (path : bytes) (body : M A) : M A :=
  emit (EvAcquire path LOCK_EX);;
  try_finally body (emit (EvRelease path LOCK_EX)).

Definition delete (path : bytes) : M unit := modify (set_fs (base.delete path)).

Definition exists_ (path : bytes) : M bool := os_path_exists path.

Definition mtime (path : bytes) : M Z := os_path_getmtime path.

End file_lock.

(** ** git_cdn/pack_cache.py *)

Module pack_cache.

Record PackCacheCleaner := mkPackCacheCleaner {
  cache_dir : bytes;
  max_size : Z;
  cleaner_lock : bytes;
}.

Section pack_cache.

Variable env : Env.

Definition PackCache_init (input_hash : bytes) : M PackCache :=
  dirname ← util.get_subdir (WORKDIR env)
              (util.os_path_join (B "pack_cache") (take 2 input_hash));
  modify (set_attrs (set_hit true));;
  mret (mkPackCache input_hash dirname (util.os_path_join dirname input_hash)).

Definition PackCache_delete (self : PackCache) : M unit :=
  os_unlink (pc_filename self).

Definition exists_ (self : PackCache) : M bool := λ s,
  match fs s !! pc_filename self with
  | Some (File content _) =>
      if bool_decide (0 < Z.of_nat (length content)) then
        match seek_end content (-4) with
        | Ok pos =>
            let last_chunk := read_at content pos 4 in
            if bool_decide (last_chunk = B "0000") then (Ok true, s)
            else (log "warning" "File in cache is corrupted"
                    [("hash", VStr (pc_hash self))];;
                  mret false) s
        | Raise e => (Raise e, s)
        end
      else (Ok false, s)
  | Some (Dir _) => (Raise IsADirectoryError, s)
  | None => (Ok false, s)
  end.

Definition size (self : PackCache) : M Z := stat_size (pc_filename self).

(** The [while True] loop of [send_pack]: it returns [count] as it is
    when the loop is left, and the exception that leaves it, if one
    does.  Every round that goes on moves [pos] forward, so
    [S (length content)] rounds are enough. *)
Fixpoint send_loop (status : bytes) (rounds : nat) (content : bytes)
    (pos : nat) (count : Z) : M (Z * option exn) :=
  match rounds with
  | O => mret (count, None)
  | S rounds' =>
      match f_read content pos (PACK_CACHE_CHUNK_SIZE env) with
      | Raise e => mret (count, Some e)
      | Ok data =>
          let count := count + Z.of_nat (length data) in
          now ← time;
          bind_contextvars "upload_pack_progress"
            (VDict [("date", VInt now); ("sent", VInt count)]);;
          if bool_decide (data = []) then mret (count, None)
          else
            written ← try_except
                        (writer_write data;;
                         emit (EvMetric "pack_sent_bytes" (Z.of_nat (length data)));;
                         mret None)
                        (λ e, Some (mret (Some e)));
            match written with
            | None => send_loop status rounds' content (pos + length data)%nat count
            | Some ConnectionResetError =>
                log "warning" "connection reset while serving pack cache" [];;
                mret (count, None)
            | Some e => mret (count, Some e)
            end
      end
  end.

Definition send_pack (self : PackCache) (w : writer) : M unit :=
  h ← gets (λ s : State, hit (attrs s));
  let status := if (h : bool) then B "hit" else B "miss" in
  sz ← size self;
  bind_contextvars "upload_pack_status" (VStr status);;
  bind_contextvars "cache"
    (VDict [("size", VInt sz); ("filename", VStr (pc_filename self));
            ("hit", VBool h)]);;
  (* We always send the pack from the cache, even on cache Miss *)
  log "debug" "Serving from pack cache" [("hash", VStr (pc_hash self)); ("pack_hit", VBool h)];;
  content ← read_file (pc_filename self);
  '(count, raised) ← send_loop status (S (length content)) content 0 0;
  try_finally
    (match raised with
     | None => mret tt
     | Some CancelledError => log "info" "Operation cancelled." []
     | Some e =>
         log "error" "Unexpected exception while sending the pack" [];;
         sz ← size self;
         (if bool_decide (sz ≠ count)
          then log "error" "Exiting on unfinished pack cache read" []
          else mret tt);;
         raise e
     end)
    (sz' ← size self;
     bind_contextvars "complete_send_pack" (VBool (bool_decide (sz' = count))));;
  (* update mtime for LRU *)
  os_utime (pc_filename self).

(** [open(filename, "wb")] and one [f.write(data)] *)
Definition open_wb (p : bytes) : M unit := λ s,
  match fs s !! p with
  | Some (Dir _) => (Raise IsADirectoryError, s)
  | _ => (Ok tt, set_fs (insert p (File [] (clock s))) s)
  end.

Definition f_write (p : bytes) (data : bytes) : M unit := λ s,
  match fs s !! p with
  | Some (File c _) => (Ok tt, set_fs (insert p (File (c ++ data) (clock s))) s)
  | _ => (Ok tt, s)
  end.

(** Lines 132 to 135: [os.unlink] with [FileNotFoundError] passed over. *)
Definition unlink_ignoring_missing (p : bytes) : M unit :=
  try_except (os_unlink p)
    (λ e, match e with
          | FileNotFoundError => Some (mret tt)
          | _ => None
          end).

(** [read_func] is given by [stream], the bytes it delivers before
    the end of the file. *)
Definition cache_pack (self : PackCache) (stream : bytes)
    (stream_writer : option writer) : M unit :=
  log "debug" "Cache Miss, create new cache entry" [("hash", VStr (pc_hash self))];;
  modify (set_attrs (set_hit false));;
  let '(chunks, stop) := packet_line.PacketLineChunkParser stream in
  open_wb (pc_filename self);;
  for_each (f_write (pc_filename self)) chunks;;
  end_with_error ←
    match stop with
    | None => mret false
    | Some e =>
        if is_Exception e
        then log "error" "Aborting cache_pack"
               [("hash", VStr (pc_hash self)); ("filename", VStr (pc_filename self))];;
             mret true
        else raise e
    end;
  if end_with_error : bool then
    (* In case of error, we directly write the data to the stream writer
       This will allow the client to receive the initial error reponse. *)
    match stream_writer with
    | Some _ => data ← read_file (pc_filename self); writer_write data
    | None => mret tt
    end;;
    unlink_ignoring_missing (pc_filename self)
  else mret tt.

End pack_cache.

Section cleaner.

Variable env : Env.

Definition PackCacheCleaner_init : M PackCacheCleaner :=
  cache_dir ← util.get_subdir (WORKDIR env) (B "pack_cache");
  let max_size := default 20 (PACK_CACHE_SIZE_GB env) in
  (* Use cache size minus 512MB, to avoid exceeding the cache size too much. *)
  let max_size := (max_size * 1024 - 512) * 1024 * 1024 in
  mret (mkPackCacheCleaner cache_dir max_size
          (util.os_path_join cache_dir (B "clean.lock"))).

(** [all_files.sort(key=lambda f: f.stat().st_mtime, reverse=True)]: a
    stable sort, most recent first; entries of equal mtime keep their
    order. *)
Fixpoint insert_by_mtime (f : DirEntry) (l : list DirEntry) : list DirEntry :=
  match l with
  | [] => [f]
  | g :: l' =>
      if bool_decide (st_mtime f < st_mtime g) then g :: insert_by_mtime f l'
      else f :: l
  end.

Definition sort_mtime_reverse (l : list DirEntry) : list DirEntry :=
  foldr insert_by_mtime [] l.

(** [l.pop()] *)
Definition pop {A} (l : list A) : option (A * list A) :=
  f ← last l; Some (f, removelast l).

(** The [while] loop; [n] is [len(all_files)], so that at [n = 0] the
    list is empty and [pop] raises. *)
Fixpoint evict_loop (n : nat) (max_size total_size rm_size : Z)
    (all_files to_delete : list DirEntry) : res (Z * list DirEntry) :=
  if bool_decide (max_size ≤ total_size - rm_size) then
    match n, pop all_files with
    | S n', Some (f, all_files') =>
        evict_loop n' max_size total_size (rm_size + st_size f)
          all_files' (to_delete ++ [f])
    | _, _ => Raise IndexError
    end
  else Ok (rm_size, to_delete).

Definition sum_sizes (l : list DirEntry) : Z :=
  foldr (λ f acc, st_size f + acc) 0 l.

Definition delete_one (total_size rm_size : Z) (f : DirEntry) : M unit :=
  let f_size := st_size f in
  file_lock.with_FileLock (de_path f)
    (log "debug" "delete" [("hash", VStr (de_name f)); ("rm_size", VInt f_size)];;
     file_lock.delete (de_path f));;
  emit (EvMetric "pack_cache_evicted_bytes" f_size);;
  emit (EvMetric "pack_cache_used_bytes" (total_size - rm_size)).

(** The name of the entry of the directory [p] that the path [q] is:
    what follows [p] and a slash, when no further slash does. *)
Definition child_name (p q : bytes) : option bytes :=
  let pre := if bool_decide (p = [] ∨ B "/" `suffix_of` p) then p else p ++ B "/" in
  if bool_decide (pre `prefix_of` q) then
    let name := drop (length pre) q in
    if bool_decide (name ≠ [] ∧ "/"%byte ∉ name) then Some name else None
  else None.

Definition entry_of (p : bytes) (qn : bytes * node) : option DirEntry :=
  name ← child_name p qn.1;
  Some (mkDirEntry name (util.os_path_join p name)
          (match qn.2 with Dir _ => true | File _ _ => false end)
          (match qn.2 with File c _ => Z.of_nat (length c) | Dir _ => 0 end)
          (node_mtime qn.2)).

Definition listed_before (f g : DirEntry) : Prop :=
  scandir_rank env (de_path f) ≤ scandir_rank env (de_path g).

#[global] Instance listed_before_dec : RelDecision listed_before.
Proof. intros f g. unfold listed_before. apply _. Defined.

(** The entries of the directory [p] in the work directory [m], in the
    order the system lists them.  The size of a directory plays no part:
    only regular files are summed. *)
Definition listing (p : bytes) (m : gmap bytes node) : list DirEntry :=
  merge_sort listed_before (omap (entry_of p) (map_to_list m)).

(** [os.scandir(p)] *)
Definition os_scandir (p : bytes) : M (list DirEntry) := λ s,
  match fs s !! p with
  | Some (Dir _) => (Ok (listing p (fs s)), s)
  | Some (File _ _) => (Raise NotADirectoryError, s)
  | None => (Raise FileNotFoundError, s)
  end.

(** [[f for sub in subdirs for f in os.scandir(sub) if f.is_file()]] *)
Fixpoint scan_files (subdirs : list bytes) : M (list DirEntry) :=
  match subdirs with
  | [] => mret []
  | sub :: subdirs' =>
      entries ← os_scandir sub;
      rest ← scan_files subdirs';
      mret (filter (λ f, de_is_file f = true) entries ++ rest)
  end.

Definition _clean_task (self : PackCacheCleaner) : M Z :=
  (* When using os.scandir, DirEntry.stat() are cached (on Linux) and calling
     it doesn't go through syscall *)
  subdirs ← os_scandir (cache_dir self);
  let subdirs := filter (λ d, de_is_dir d = true) subdirs in
  let subdirs := (λ sub, util.os_path_join (cache_dir self) (de_path sub)) <$> subdirs in
  all_files ← scan_files subdirs;
  let total_size := sum_sizes all_files in
  log "debug" "Pack Cache size is"
    [("size", VInt total_size); ("max_size", VInt (max_size self));
     ("n_entry", VInt (Z.of_nat (length all_files)))];;
  emit (EvMetric "pack_cache_used_bytes" total_size);;
  if bool_decide (total_size < max_size self) then mret 0
  else
    let all_files := sort_mtime_reverse all_files in
    '(rm_size, to_delete) ←
      lift_res (evict_loop (length all_files) (max_size self) total_size 0
                  all_files []);
    newest_deleted ← lift_res (match last to_delete with
                            | Some f => Ok f
                            | None => Raise IndexError
                            end);
    now ← time;
    log "info" "Pack cache cleaning"
      [("size", VInt total_size); ("max_size", VInt (max_size self));
       ("rm_size", VInt rm_size);
       ("rm_files", VInt (Z.of_nat (length to_delete)));
       ("cache_duration", VInt (now - st_mtime newest_deleted))];;
    for_each (delete_one total_size rm_size) to_delete;;
    mret (Z.of_nat (length to_delete)).

Definition clean_task (self : PackCacheCleaner) : M Z :=
  file_lock.with_FileLock (cleaner_lock self) (_clean_task self).

(** [clean] hands [clean_task] to the executor and does not wait for
    it: what the task does later is not part of this request. *)
Definition clean (self : PackCacheCleaner) : M bool :=
  (* only clean once per minute *)
  there ← file_lock.exists_ (cleaner_lock self);
  recent ← (if there : bool
            then now ← time; t ← file_lock.mtime (cleaner_lock self);
                 mret (bool_decide (now - t < 60000))
            else mret false);
  if recent : bool
  then log "debug" "No need to cleanup" [];; mret false
  else emit (EvDispatch "clean_task");; mret true.

End cleaner.
End pack_cache.


(** ** git_cdn/repo_cache.py *)

Module repo_cache.

Section repo_cache.

Variable env : Env.

Definition parse_git_output (stderr : bytes) : M unit :=
  text ← lift_res (bytes_decode stderr);
  match receive_bytes env text with
  | None =>
      log "debug" "Git command did not receive any bytes from the upstream remote" []
  | Some n =>
      log "debug" "Git command fetched data from upstream" [("receive_bytes", VInt n)];;
      emit (EvMetric "repo_cache_received_bytes" n)
  end.

Definition RepoCache_init (path auth upstream : bytes) : M RepoCache :=
  git_cache_dir ← util.get_subdir (WORKDIR env) (B "git");
  let directory := util.os_path_join git_cache_dir path in
  mret (mkRepoCache directory auth (directory ++ B ".lock")
          (generate_url env upstream path auth) path).

Definition exists_ (self : RepoCache) : M bool :=
  os_path_isdir (rc_directory self).

Definition mtime (self : RepoCache) : M (option Z) :=
  there ← exists_ self;
  if there : bool then t ← os_path_getmtime (rc_directory self); mret (Some t)
  else mret None.

Definition utime (self : RepoCache) : M unit :=
  os_utime (rc_directory self).

Definition read_lock {A} (self : RepoCache) (body : M A) : M A :=
  with_lock (set_fs (others env)) (rc_lock self) LOCK_SH body.

Definition write_lock {A} (self : RepoCache) (body : M A) : M A :=
  with_lock (set_fs (others env)) (rc_lock self) LOCK_EX body.

(** [x.replace(self.auth.encode(), self.auth.encode()[:2] + b"<XX>")] *)
Definition redact (auth x : bytes) : bytes :=
  replace auth (take 2 auth ++ B "<XX>") x.

Definition is_cancel (e : exn) : bool :=
  match e with
  | CancelledError | ConnectionResetError => true
  | _ => false
  end.

(** Lines 98 to 111: the locals [stdout_data] and [stderr_data] when the
    [finally] block starts, and the exception on its way, if any.  The
    locals start empty and keep that value when [communicate()] raises
    something the [except] clause does not name. *)
Definition communicate (run : GitRun) : bytes * bytes * option exn :=
  match g_interrupt run with
  | None => (g_stdout run, g_stderr run, None)
  | Some e =>
      (* on client cancel, keep git command alive until the end to keep the
         write_lock if taken *)
      if is_cancel e then (g_stdout2 run, g_stderr2 run, Some e)
      else ([], [], Some e)
  end.

(** utility which runs a git command, and log outputs.
    What the process will do is settled by the state in which [run_git]
    is called.  Once [communicate()] has returned the process has exited and
    [ensure_proc_terminated] has nothing to do.  The fields [stdout_data]
    and [stderr_data] of the last record hold the bytes of which the
    record shows the first 128 characters
    ([.decode(errors="replace")[:128]]). *)
Definition run_git (self : RepoCache) (args : list bytes) : M (bytes * bytes * Z) :=
  run ← gets (git env args);
  t1 ← time;
  let args_without_pii := remove_git_credentials env args in
  log "debug" "git_cmd start" [("cmd", VList args_without_pii)];;
  emit (EvSpawn (B "git" :: args));;
  modify (set_fs (λ _, g_fs run));;
  modify (set_clock (λ c, c + Z.max 0 (g_elapsed run)));;
  let '(stdout_data, stderr_data, raised) := communicate run in
  (* prevent logging of the creds *)
  let stdout_data := redact (rc_auth self) stdout_data in
  let stderr_data := redact (rc_auth self) stderr_data in
  try_finally
    (match raised with
     | Some e => raise e
     | None => mret tt
     end)
    (if contains (B "HTTP Basic: Access denied") stderr_data
     then raise (HTTPUnauthorized stderr_data)
     else
       parse_git_output stderr_data;;
       t2 ← time;
       log "debug" "git_cmd done"
         [("cmd", VList args_without_pii);
          ("stdout_data", VBytes stdout_data);
          ("stderr_data", VBytes stderr_data);
          ("rc", VInt (g_returncode run));
          ("cmd_duration", VInt (t2 - t1))]);;
  mret (stdout_data, stderr_data, g_returncode run).

Definition bundle_args (self : RepoCache) (bundle_file : bytes) : list bytes :=
  [B "clone"; PROGRESS_OPTION env; B "--bare"; bundle_file; rc_directory self].

Definition clone_args (self : RepoCache) : list bytes :=
  [B "clone"; PROGRESS_OPTION env; B "--bare"; rc_url self; rc_directory self].

Definition fetch_args (self : RepoCache) : list bytes :=
  [B "--git-dir"; rc_directory self; B "fetch"; PROGRESS_OPTION env; B "--prune";
   B "--force"; B "--tags"; rc_url self; B "+refs/*:refs/remotes/origin/*";
   B "^refs/pull/*"].

(** The [for timeout in backoff(...)] loop of [fetch]. *)
Fixpoint fetch_loop (self : RepoCache) (timeouts : list Z) : M unit :=
  match timeouts with
  | [] => mret tt
  | timeout :: timeouts' =>
      (* fetch all refs (including MRs) and tags, and prune if needed *)
      '(_, _, returncode) ← run_git self (fetch_args self);
      if bool_decide (returncode = 0) then mret tt
      else
        log "warning" "fetch failed, trying again" [("timeout", VInt timeout)];;
        sleep timeout;;
        fetch_loop self timeouts'
  end.

Definition fetch (self : RepoCache) : M unit :=
  fetch_loop self (backoff env (BACKOFF_START env) (BACKOFF_COUNT env));;
  utime self.

(** [rm -rf self.directory], waited for up to an hour. *)
Definition rm_rf (directory : bytes) : M unit :=
  emit (EvSpawn [B "rm"; B "-rf"; directory]);;
  modify (set_fs (delete directory)).

(** The [for] loop of [clone].  [last] holds the locals [stderr] and
    [returncode], which are unbound until a git command has returned;
    the loop returns them as they are when it ends. *)
Fixpoint clone_loop (self : RepoCache) (bundle_lock bundle_file : bytes)
    (timeouts : list Z) (last : option (bytes * Z)) : M (option (bytes * Z)) :=
  match timeouts with
  | [] => mret last
  | timeout :: timeouts' =>
      has_bundle ← os_path_exists bundle_file;
      '(last, done) ←
        (if has_bundle : bool then
           with_lock (set_fs (others env)) bundle_lock LOCK_SH
             ((* try to clone the bundle file instead *)
              '(_, stderr, returncode) ←
                 run_git self (bundle_args self bundle_file);
              if bool_decide (returncode = 0)
              then mret (Some (stderr, returncode), true)
              else
                (* didn't work? erase that file and retry the clone *)
                os_unlink bundle_file;;
                mret (Some (stderr, returncode), false))
         else mret (last, false));
      if done : bool then mret last
      else
        there ← exists_ self;
        (if there : bool then rm_rf (rc_directory self) else mret tt);;
        '(_, stderr, returncode) ←
           run_git self (clone_args self);
        if bool_decide (returncode = 0) then mret (Some (stderr, returncode))
        else
          log "warning" "clone failed, trying again" [("timeout", VInt timeout)];;
          sleep timeout;;
          clone_loop self bundle_lock bundle_file timeouts' (Some (stderr, returncode))
  end.

Definition clone (self : RepoCache) : M unit :=
  let '(_, bundle_lock, bundle_file) := get_bundle_paths env (rc_path self) in
  last ← clone_loop self bundle_lock bundle_file
           (backoff env (BACKOFF_START env) (BACKOFF_COUNT env)) None;
  match last with
  | None => raise (UnboundLocalError "returncode")
  | Some (stderr, returncode) =>
      if bool_decide (returncode ≠ 0)
      then reason ← lift_res (bytes_decode stderr); raise (HTTPInternalServerError reason)
      else mret tt
  end.

(** The process is started before the [try]: what
    [create_subprocess_exec] raises is neither logged nor bound to the
    context. *)
Definition cat_file (self : RepoCache) (refs : list bytes) : M bytes :=
  run ← gets (cat_file_proc env (rc_directory self) refs);
  match run with
  | NotStarted e => raise e
  | Communicated r =>
      emit (EvSpawn [B "git"; B "cat-file"; B "--batch-check"; B "--no-buffer"]);;
      try_finally
        (try_except (lift_res r)
           (λ e, if is_Exception e
                 then Some (bind_context_from_exp env e;;
                            log "error" "cat-file failure" [];;
                            raise e)
                 else None))
        (log "debug" "cat-file done" [])
  end.

Definition update (self : RepoCache) : M unit :=
  prev_mtime ← mtime self;
  write_lock self
    (there ← exists_ self;
     if negb there then clone self;; fetch self
     else
       now_mtime ← mtime self;
       if bool_decide (prev_mtime = now_mtime)
       then
         (* in case of race condition, it means that we are the first to take
            the write_lock so we fetch to update the rcache (that will update
            the mtime too); else, someone took the write_lock before us and so
            the rcache has been updated already, we do not need to do it *)
         fetch self
       else mret tt).

(** Return True if at least one sha1 in 'wants' is missing in self.rcache *)
Definition _missing_want (self : RepoCache) (wants : list bytes) : M bool :=
  try_except
    (stdout ← cat_file self wants; mret (contains (B "missing") stdout))
    (λ e, match e with
          | FileNotFoundError => Some (mret true)
          | _ => None
          end).

(** Checks if all 'wants' and updates rcache if that is not the case *)
Definition ensure_input_wants (self : RepoCache) (wants : list bytes) : M unit :=
  there ← exists_ self;
  if negb there then
    log "debug" "rcache noexistent, cloning" [];;
    update self
  else
    not_our_refs ← read_lock self (_missing_want self wants);
    if not_our_refs : bool then
      log "debug" "not our refs, fetching" [];;
      update self
    else mret tt.

End repo_cache.
End repo_cache.


(** ** git_cdn/upload_pack.py *)

Module upload_pack.

(** The parsed negotiation, as the parser (missing from the sources)
    hands it over; [can_be_cached] is what the method of that name
    returns. *)
Record ParsedInput := mkParsedInput {
  input : bytes;
  wants : list bytes;
  hash : bytes;
  parse_error : bool;
  can_be_cached : bool;
  as_dict : list (string * pyval);
}.

Record UploadPackHandler := mkUploadPackHandler {
  upstream : bytes;
  auth : bytes;
  path : bytes;
  sema : bool;
  protocol_version : Z;
}.

(** [repr] of a bytes object, as an f-string renders it. *)
Definition repr_byte (quote c : byte) : bytes :=
  let n := Byte.to_N c in
  if bool_decide (c = quote ∨ c = "\"%byte) then ["\"%byte; c]
  else if (n =? 9)%N then B "\t"
  else if (n =? 10)%N then B "\n"
  else if (n =? 13)%N then B "\r"
  else if ((n <? 0x20) || (0x7f <=? n))%N
       then B "\x" ++ [packet_line.hex_digit (n / 16); packet_line.hex_digit (n mod 16)]
  else [c].

Definition repr_bytes (x : bytes) : bytes :=
  let double := Byte.x22 in
  let quote :=
    if bool_decide ("'"%byte ∈ x ∧ double ∉ x) then double else "'"%byte in
  B "b" ++ [quote] ++ concat (map (repr_byte quote) x) ++ [quote].

Section upload_pack.

Variable env : Env.
(** [cache_cleaner = PackCacheCleaner()], built when the module loads *)
Variable cache_cleaner : pack_cache.PackCacheCleaner.

Definition write_input (run : UploadPackRun) (input_data : bytes) : M unit :=
  match p_stdin_error run with
  | None => mret tt
  | Some (RuntimeError m) =>
      log "error" "exception while writing to upload-pack stdin" [];;
      raise (RuntimeError m)
  | Some BrokenPipeError =>
      (* This occur with large input, and upload pack return an early error
         like "not our ref" *)
      log "warning" "Ignoring BrokenPipeError, while writing to stdin" []
  | Some e => raise e
  end.

Definition input_to_ctx (dict_input : list (string * pyval)) : M unit :=
  let dict_input := filter (λ kv, kv.1 ≠ "wants") dict_input in
  let dict_input := filter (λ kv, kv.1 ≠ "haves") dict_input in
  let dict_input := filter (λ kv, kv.1 ≠ "caps") dict_input in
  bind_contextvars "input_details" (VDict dict_input).

(** [await asyncio.gather(a, b)].  The two coroutines run interleaved;
    here [a] runs first and [b] runs whatever became of [a], since
    [gather] cancels nothing when one of them fails, and the exception of
    [a] is the one raised when both fail. *)
Definition gather {A C} (a : M A) (b : M C) : M unit := λ s,
  let '(ra, s1) := a s in
  let '(rb, s2) := b s1 in
  match ra, rb with
  | Raise e, _ => (Raise e, s2)
  | _, Raise e => (Raise e, s2)
  | Ok _, Ok _ => (Ok tt, s2)
  end.

Definition _write_pack_error (self : UploadPackHandler) (error : bytes) : M unit :=
  log "error" "Upload pack, sending error to client" [("pack_error", VStr error)];;
  let pkt := packet_line.to_packet (B "ERR " ++ error) in
  writer_write pkt.

(** The loop of [_flush_to_writer]; [read_func(n)] delivers the next [n]
    bytes of [stream], fewer at its end. *)
Fixpoint flush_loop (rounds : nat) (stream : bytes) (pos : nat) : M unit :=
  match rounds with
  | O => mret tt
  | S rounds' =>
      let chunk := stream_read stream pos (CHUNK_SIZE env) in
      if bool_decide (chunk = []) then mret tt
      else writer_write chunk;; flush_loop rounds' stream (pos + length chunk)%nat
  end.

Definition _flush_to_writer (self : UploadPackHandler) (stream : bytes) : M unit :=
  flush_loop (S (length stream)) stream 0.

(** Lines 85 to 104: the [try] block and its [except] clauses. *)
Definition _do_upload_pack_try (self : UploadPackHandler) (run : UploadPackRun)
    (data : ParsedInput) : M unit :=
  pc ← gets (λ s : State, pcache (attrs s));
  try_except
    (match pc : option PackCache with
     | Some pc =>
         gather (write_input run (input data))
           (pack_cache.cache_pack pc (p_stdout run) (Some ClientWriter))
     | None =>
         gather (write_input run (input data))
           (_flush_to_writer self (p_stdout run))
     end)
    (λ e, if repo_cache.is_cancel e
          then Some (bind_context_from_exp env e;;
                     log "warning" "Client disconnected during upload-pack" [];;
                     raise e)
          else if is_Exception e
          then Some (log "error" "upload pack failure" [];; raise e)
          else None).

(** Lines 105 to 119: the [finally] block.  The process has been waited
    for, and [run] tells how it ended. *)
Definition _do_upload_pack_finally (self : UploadPackHandler) (run : UploadPackRun)
    : M unit :=
  modify (set_clock (λ c, c + Z.max 0 (p_elapsed run)));;
  (if bool_decide (p_returncode run ≠ 0) then
     let error_message := p_stderr run in
     bind_contextvars "upload_pack_status" (VStr (B "error"));;
     bind_contextvars "upload_pack_returncode" (VInt (p_returncode run));;
     bind_contextvars "reason" (VBytes error_message);;
     error ← lift_res (bytes_decode error_message);
     _write_pack_error self error
   else mret tt);;
  log "debug" "Upload pack done" [].

Definition _do_upload_pack (self : UploadPackHandler) (data : ParsedInput) : M unit :=
  rc ← gets (λ s : State, rcache (attrs s));
  match rc : option RepoCache with
  | None => raise (AttributeError "directory")
  | Some rc =>
      run ← gets (upload_pack_proc env (rc_directory rc) (protocol_version self)
                    (input data));
      emit (EvSpawn [B "git-upload-pack"; B "--stateless-rpc"; rc_directory rc]);;
      try_finally (_do_upload_pack_try self run data)
                  (_do_upload_pack_finally self run)
  end.

Definition _upload_pack (self : UploadPackHandler) (parsed_input : ParsedInput)
    : M unit :=
  rc ← gets (λ s : State, rcache (attrs s));
  match rc : option RepoCache with
  | None => raise (AttributeError "read_lock")
  | Some rc =>
      repo_cache.read_lock env rc
        (there ← repo_cache.exists_ rc;
         if there : bool then
           if negb (sema self) then _do_upload_pack self parsed_input
           else
             start_wait ← time;
             with_sema (set_fs (others env))
               (start_upload_pack ← time;
                bind_contextvars "sema_wait" (VInt (start_upload_pack - start_wait));;
                _do_upload_pack self parsed_input;;
                now ← time;
                bind_contextvars "upload_pack_duration" (VInt (now - start_upload_pack)))
         else mret tt)
  end.

(** Return True if at least one sha1 in 'wants' is missing in self.rcache *)
Definition _missing_want (self : UploadPackHandler) (rc : RepoCache)
    (wants : list bytes) : M bool :=
  try_except
    (stdout ← repo_cache.cat_file env rc wants; mret (contains (B "missing") stdout))
    (λ e, match e with
          | FileNotFoundError => Some (mret true)
          | _ => None
          end).

(** Checks if all 'wants' are in rcache and updates rcache if that is not
    the case *)
Definition _ensure_input_wants_in_rcache (self : UploadPackHandler)
    (wants : list bytes) : M unit :=
  rc ← gets (λ s : State, rcache (attrs s));
  match rc : option RepoCache with
  | None => raise (AttributeError "exists")
  | Some rc =>
      there ← repo_cache.exists_ rc;
      if negb there then
        log "debug" "rcache noexistent, cloning" [];;
        repo_cache.update env rc
      else
        not_our_refs ← repo_cache.read_lock env rc (_missing_want self rc wants);
        if not_our_refs : bool then
          log "debug" "not our refs, fetching" [];;
          repo_cache.update env rc
        else modify (set_attrs (set_rcache_hit true))
  end.

(** Runs git upload-pack after being insure that all 'wants' are in cache *)
Definition _execute (self : UploadPackHandler) (parsed_input : ParsedInput)
    : M unit :=
  rc ← repo_cache.RepoCache_init env (path self) (auth self) (upstream self);
  modify (set_attrs (set_rcache (Some rc)));;
  _ensure_input_wants_in_rcache self (wants parsed_input);;
  _upload_pack self parsed_input.

(** Lines 136 to 140. *)
Definition serve_if_cached (self : UploadPackHandler) (pc : PackCache) : M bool :=
  with_lock (set_fs (others env)) (pc_filename pc) LOCK_SH
    (there ← pack_cache.exists_ pc;
     if there : bool then
       modify (set_attrs (set_pcache_hit true));;
       pack_cache.send_pack env pc ClientWriter;;
       mret true
     else mret false).

(** Lines 142 to 145. *)
Definition fill_under_write_lock (self : UploadPackHandler) (pc : PackCache)
    (parsed_input : ParsedInput) : M unit :=
  with_lock (set_fs (others env)) (pc_filename pc) LOCK_EX
    ((* In case 2 threads race for write lock, check again if it has been
        added in the cache *)
     there ← pack_cache.exists_ pc;
     if negb there then _execute self parsed_input else mret tt).

(** Lines 147 to 152. *)
Definition serve_after_fill (self : UploadPackHandler) (pc : PackCache) : M bool :=
  with_lock (set_fs (others env)) (pc_filename pc) LOCK_SH
    (there ← pack_cache.exists_ pc;
     if there : bool then
       pack_cache.send_pack env pc ClientWriter;;
       (* ensure cache size doesn't grow in a background task *)
       pack_cache.clean cache_cleaner;;
       mret true
     else mret false).

(** Lines 153 to 160: [get_contextvars()["upload_pack_status"]]. *)
Definition fail_unless_error_recorded : M unit :=
  status ← (λ s, match ctx s !! "upload_pack_status" with
                  | Some v => (Ok v, s)
                  | None => (Raise (KeyError "upload_pack_status"), s)
                  end);
  match status with
  | VStr x =>
      if bool_decide (x = B "error") then mret tt
      else raise (RuntimeError "Run with cache failed")
  | _ => raise (RuntimeError "Run with cache failed")
  end.

Definition _run_with_cache (self : UploadPackHandler) (parsed_input : ParsedInput)
    : M unit :=
  pc ← pack_cache.PackCache_init env (hash parsed_input);
  modify (set_attrs (set_pcache (Some pc)));;
  served ← serve_if_cached self pc;
  if served : bool then mret tt
  else
    fill_under_write_lock self pc parsed_input;;
    served ← serve_after_fill self pc;
    if served : bool then mret tt
    else
      (* if we are here because of upload_pack failure, the client see the
         error via the git protocol (mainly "not our ref" error) *)
      fail_unless_error_recorded.

(** Run the whole process of upload pack, including sending the result to
    the writer *)
Definition run (self : UploadPackHandler) (parsed_input : ParsedInput) : M unit :=
  let dict_input := as_dict parsed_input in
  log "debug" "parsed input" [("input_details", VDict dict_input)];;
  input_to_ctx dict_input;;
  if parse_error parsed_input then
    _write_pack_error self
      (B "Wrong upload pack input: " ++ repr_bytes (take 128 (input parsed_input)))
  else if bool_decide (wants parsed_input = []) then
    log "warning" "Request without wants" []
  else if can_be_cached parsed_input then _run_with_cache self parsed_input
  else _execute self parsed_input.

End upload_pack.
End upload_pack.


(** ** git_cdn/auth_cache.py *)

Module auth_cache.

Record AuthCache := mkAuthCache {
  cache_ttl : Z;       (* seconds *)
  directory : bytes;
}.

Section auth_cache.

(** [hashlib.md5(data).hexdigest()] *)
Variable md5_hexdigest : bytes → bytes.

Definition cache_file (self : AuthCache) (auth_header path : bytes) : bytes :=
  util.os_path_join (directory self)
    (md5_hexdigest (auth_header ++ B " " ++ path)).

(** [auth_header] is [None] when the request carries no such header.
    The clock counts milliseconds and [cache_ttl] seconds. *)
Definition auth_ok (self : AuthCache) (auth_header : option bytes) (path : bytes)
    : M bool :=
  if bool_decide (cache_ttl self ≤ 0) then mret false
  else
    match auth_header with
    | None | Some [] => mret false
    | Some auth_header =>
        let filename := cache_file self auth_header path in
        try_except
          (st_mtime ← os_path_getmtime filename;
           now ← time;
           if bool_decide (cache_ttl self * 1000 < now - st_mtime) then
             log "info" "Auth cache expired" [("filename", VStr filename)];;
             os_unlink filename;;
             mret false
           else
             log "info" "Auth cache ok" [("filename", VStr filename)];;
             mret true)
          (λ e, match e with
                | FileNotFoundError => Some (mret false)
                | _ => None
                end)
    end.


End auth_cache.
End auth_cache.

(** ** git_cdn/metrics.py *)

Module metrics.

(** The [Accept] header is examined character by character: in this
    module a [str] is the list of its code points. *)
Abbreviation str := (list N).

(** The code points of a literal of ASCII characters. *)
Definition text (s : string) : str := Byte.to_N <$> String.list_byte_of_string s.

(** [c.isspace()], which is what [str.strip()] removes. *)
Definition isspace (c : N) : bool :=
  (((0x09 <=? c) && (c <=? 0x0D)) || ((0x1C <=? c) && (c <=? 0x20))
   || (c =? 0x85) || (c =? 0xA0) || (c =? 0x1680)
   || ((0x2000 <=? c) && (c <=? 0x200A))
   || (c =? 0x2028) || (c =? 0x2029) || (c =? 0x202F) || (c =? 0x205F)
   || (c =? 0x3000))%N.

Fixpoint lstrip (s : str) : str :=
  match s with
  | c :: s' => if isspace c then lstrip s' else s
  | [] => []
  end.

Definition strip (s : str) : str := reverse (lstrip (reverse (lstrip s))).

(** [s.split(sep)] for a separator of one character: the pieces between
    its occurrences, at least one piece. *)
Fixpoint split (sep : N) (s : str) : list str :=
  match s with
  | [] => [[]]
  | c :: s' =>
      if bool_decide (c = sep) then [] :: split sep s'
      else match split sep s' with
           | piece :: pieces => (c :: piece) :: pieces
           | [] => [[c]]
           end
  end.

(** The pairs [(openmetrics.generate_latest,
    openmetrics.CONTENT_TYPE_LATEST)] and [(generate_latest,
    CONTENT_TYPE_LATEST)] of [prometheus_client]. *)
Inductive generator := openmetrics_latest | latest.

Definition comma : N := 0x2C%N.
Definition semicolon : N := 0x3B%N.

(** The [for accepted in accept_header.split(",")] loop. *)
Fixpoint choose_loop (items : list str) : generator :=
  match items with
  | [] => latest
  | accepted :: items' =>
      if bool_decide (strip (hd [] (split semicolon accepted))
                      = text "application/openmetrics-text")
      then openmetrics_latest
      else choose_loop items'
  end.

(** Return the correct generate function according to [accept_header].
    Default to the old style. *)
Definition choose_generator (accept_header : option str) : generator :=
  (* accept_header or "" *)
  let accept_header := default [] accept_header in
  choose_loop (split comma accept_header).

End metrics.


(** ** What a run leaves to be observed *)

Module observe.

(** The paths on which an exclusive lock was taken, in order. *)
Definition locks_taken (t : list event) : list bytes :=
  omap (λ e, match e with EvAcquire p LOCK_EX => Some p | _ => None end) t.

(** The command lines of the processes started, in order. *)
Definition spawns (t : list event) : list (list bytes) :=
  omap (λ e, match e with EvSpawn argv => Some argv | _ => None end) t.

(** The durations slept, in order. *)
Definition sleeps (t : list event) : list Z :=
  omap (λ e, match e with EvSleep d => Some d | _ => None end) t.

Fixpoint field (k : string) (fields : list (string * pyval)) : option pyval :=
  match fields with
  | [] => None
  | (k', v) :: fields' => if bool_decide (k' = k) then Some v else field k fields'
  end.

(** The stderr and the exit status of the git commands that ran to their
    "git_cmd done" record, in order. *)
Definition git_done (t : list event) : list (bytes * Z) :=
  omap (λ e, match e with
             | EvLog _ msg fields =>
                 if bool_decide (msg = "git_cmd done") then
                   match field "stderr_data" fields, field "rc" fields with
                   | Some (VBytes err), Some (VInt rc) => Some (err, rc)
                   | _, _ => None
                   end
                 else None
             | _ => None
             end) t.



(** The bytes-valued and text-valued fields of the log records, the
    arguments of a logged command line included. *)
Definition shown (v : pyval) : list bytes :=
  match v with
  | VStr x | VBytes x => [x]
  | VList l => l
  | _ => []
  end.

Definition logged (t : list event) : list bytes :=
  t ≫= λ e, match e with
            | EvLog _ _ fields => fields ≫= λ kv, shown kv.2
            | _ => []
            end.

Definition older (a b : DirEntry) : Prop := st_mtime a < st_mtime b.
Definition newer (a b : DirEntry) : Prop := st_mtime b < st_mtime a.

(** The pack cache files under [cache_dir] in the work directory [m]:
    the regular files in its sub-directories, in the order in which
    [os.scandir] lists first the sub-directories and then their files. *)
Definition cache_files (env : Env) (cache_dir : bytes) (m : gmap bytes node)
    : list DirEntry :=
  (de_path <$> filter (λ d, de_is_dir d = true) (pack_cache.listing env cache_dir m))
  ≫= λ sub, filter (λ f, de_is_file f = true) (pack_cache.listing env sub m).

(** [f] is the entry of a regular file that lies in a sub-directory of
    [cache_dir], with its size and mtime. *)
Definition is_cache_file (cache_dir : bytes) (m : gmap bytes node) (f : DirEntry)
    : Prop :=
  ∃ sub shard td content t,
    m !! sub = Some (Dir td) ∧
    pack_cache.child_name cache_dir sub = Some shard ∧
    m !! de_path f = Some (File content t) ∧
    pack_cache.child_name sub (de_path f) = Some (de_name f) ∧
    de_is_dir f = false ∧
    st_size f = Z.of_nat (length content) ∧ st_mtime f = t.

Definition denied : bytes := B "HTTP Basic: Access denied".

(** A git run that comes back with an exit status: nothing interrupts
    it, it is not refused, and what it prints on stderr is text once the
    credential has been taken out. *)
Definition returns (self : RepoCache) (run : GitRun) : Prop :=
  g_interrupt run = None ∧
  contains denied (repo_cache.redact (rc_auth self) (g_stderr run)) = false ∧
  utf8_valid (repo_cache.redact (rc_auth self) (g_stderr run)) = true.

(** The time that [asyncio.sleep] takes over some timeouts. *)
Definition total_sleep (timeouts : list Z) : Z :=
  foldr (λ t acc, Z.max 0 t + acc) 0 timeouts.

(** What [RepoCache.mtime] reads in a file system. *)
Definition mtime_of (self : RepoCache) (files : gmap bytes node) : option Z :=
  match files !! rc_directory self with
  | Some (Dir t) => Some t
  | _ => None
  end.

(** The locals [stderr] and [returncode] of [clone] after some git
    commands have returned: those of the last one, if any. *)
Definition still (last : option (bytes * Z)) (new : list (bytes * Z))
    : option (bytes * Z) :=
  match list.last new with
  | Some x => Some x
  | None => last
  end.

Definition not_a_directory (p : bytes) (s : State) : Prop :=
  ∀ t, fs s !! p ≠ Some (Dir t).

(** What other workers have done to the files [m] by the time
    [_upload_pack] starts the process: they run while it waits for the
    shared lock and, when there is a semaphore, while it waits for
    that. *)
Definition meanwhile (env : Env) (self : upload_pack.UploadPackHandler)
    (m : gmap bytes node) : gmap bytes node :=
  if upload_pack.sema self then others env (others env m) else others env m.

(** A handler that has served nothing yet, in a work directory [files]. *)
Definition fresh_attrs : Attrs := mkAttrs true None None false false.
Definition state_of (files : gmap bytes node) : State :=
  mkState files 0 ∅ [] false fresh_attrs [].

End observe.

(** ** A small world to run the code in *)

Module example.

Definition cache : PackCache :=
  mkPackCache (B "ab12") (B "/w/pack_cache/ab") (B "/w/pack_cache/ab/ab12").

Definition mirror_of (auth : bytes) : RepoCache :=
  mkRepoCache (B "/w/git/g/p.git") auth (B "/w/git/g/p.git.lock")
    (B "https://" ++ auth ++ B "@host/g/p.git") (B "g/p.git").

Definition mirror : RepoCache := mirror_of (B "user:token").

Definition cleaner : pack_cache.PackCacheCleaner :=
  pack_cache.mkPackCacheCleaner (B "/w/pack_cache") 10 (B "/w/pack_cache/clean.lock").

Definition handler : upload_pack.UploadPackHandler :=
  upload_pack.mkUploadPackHandler (B "https://host/") (B "user:token") (B "g/p.git")
    false 2.

(** The same handler behind a semaphore. *)
Definition throttled : upload_pack.UploadPackHandler :=
  upload_pack.mkUploadPackHandler (B "https://host/") (B "user:token") (B "g/p.git")
    true 2.

Definition request : upload_pack.ParsedInput :=
  upload_pack.mkParsedInput (B "0032want 0123 side-band-64k 00000009done")
    [B "0123"] (B "ab12") false true [("wants", VList [B "0123"]); ("done", VBool true)].


(** A pack cache of three entries: 6, 5 and 4 bytes, touched at 30, 10
    and 20. *)
Definition cache_of_three : gmap bytes node :=
  list_to_map
    [(B "/w/pack_cache", Dir 0);
     (B "/w/pack_cache/aa", Dir 0); (B "/w/pack_cache/aa/aa01", File (B "0006aa") 30);
     (B "/w/pack_cache/bb", Dir 0); (B "/w/pack_cache/bb/bb02", File (B "0005b") 10);
     (B "/w/pack_cache/cc", Dir 0); (B "/w/pack_cache/cc/cc03", File (B "0004") 20);
     (B "/w/pack_cache/clean.lock", File [] 0)].

Definition with_cache : State := observe.state_of cache_of_three.

(** An upstream that cannot be reached: every git command fails with
    status 128 after a tenth of a second and leaves the mirror where it
    is; [git-upload-pack] prints nothing and fails with "not our ref". *)
Definition git_down (stderr : bytes) (args : list bytes) (s : State) : GitRun :=
  mkGitRun [] stderr 128 (<[rc_directory mirror := Dir 0]> (fs s)) 100 None [] [].

Definition world (auth stderr : bytes)
    (meanwhile : gmap bytes node → gmap bytes node) : Env := {|
  WORKDIR := B "/w";
  PACK_CACHE_CHUNK_SIZE := 1024 * 1024;
  PACK_CACHE_SIZE_GB := None;
  BACKOFF_START := 500;
  BACKOFF_COUNT := 5;
  PROGRESS_OPTION := B "--progress";
  CHUNK_SIZE := 32 * 1024;
  backoff := λ start count,
    (λ i, start * 2 ^ Z.of_nat i) <$> seq 0 (Z.to_nat count);
  remove_git_credentials := fmap (replace auth (B "*****"));
  generate_url := λ upstream path auth, B "https://" ++ auth ++ B "@host/" ++ path;
  get_bundle_paths := λ path,
    (B "p", B "/w/bundles/p.lock", B "/w/bundles/p_clone.bundle");
  exp_context := λ _, [];
  git := git_down stderr;
  cat_file_proc := λ _ _ _, Communicated (Ok (B "0123 commit 210"));
  upload_pack_proc := λ _ _ _ _,
    mkUploadPackRun [] (B "fatal: git upload-pack: not our ref 0123") 128 0 None;
  others := meanwhile;
  scandir_rank := λ _, 0;
  receive_bytes := λ _, None;
|}.

Definition env : Env :=
  world (B "user:token") (B "fatal: unable to access upstream") id.

(** [env] with another work directory and another [PACK_CACHE_SIZE_GB]. *)
Definition configured (workdir : bytes) (size_gb : option Z) : Env := {|
  WORKDIR := workdir;
  PACK_CACHE_CHUNK_SIZE := PACK_CACHE_CHUNK_SIZE env;
  PACK_CACHE_SIZE_GB := size_gb;
  BACKOFF_START := BACKOFF_START env;
  BACKOFF_COUNT := BACKOFF_COUNT env;
  PROGRESS_OPTION := PROGRESS_OPTION env;
  CHUNK_SIZE := CHUNK_SIZE env;
  backoff := backoff env;
  remove_git_credentials := remove_git_credentials env;
  generate_url := generate_url env;
  get_bundle_paths := get_bundle_paths env;
  exp_context := exp_context env;
  git := git env;
  cat_file_proc := cat_file_proc env;
  upload_pack_proc := upload_pack_proc env;
  others := others env;
  scandir_rank := scandir_rank env;
  receive_bytes := receive_bytes env;
|}.

(** An environment with another [git-upload-pack], and one with other
    workers. *)
Definition with_upload_pack (run : UploadPackRun) (e : Env) : Env := {|
  WORKDIR := WORKDIR e;
  PACK_CACHE_CHUNK_SIZE := PACK_CACHE_CHUNK_SIZE e;
  PACK_CACHE_SIZE_GB := PACK_CACHE_SIZE_GB e;
  BACKOFF_START := BACKOFF_START e;
  BACKOFF_COUNT := BACKOFF_COUNT e;
  PROGRESS_OPTION := PROGRESS_OPTION e;
  CHUNK_SIZE := CHUNK_SIZE e;
  backoff := backoff e;
  remove_git_credentials := remove_git_credentials e;
  generate_url := generate_url e;
  get_bundle_paths := get_bundle_paths e;
  exp_context := exp_context e;
  git := git e;
  cat_file_proc := cat_file_proc e;
  upload_pack_proc := λ _ _ _ _, run;
  others := others e;
  scandir_rank := scandir_rank e;
  receive_bytes := receive_bytes e;
|}.

Definition with_others (meanwhile : gmap bytes node → gmap bytes node) (e : Env)
    : Env := {|
  WORKDIR := WORKDIR e;
  PACK_CACHE_CHUNK_SIZE := PACK_CACHE_CHUNK_SIZE e;
  PACK_CACHE_SIZE_GB := PACK_CACHE_SIZE_GB e;
  BACKOFF_START := BACKOFF_START e;
  BACKOFF_COUNT := BACKOFF_COUNT e;
  PROGRESS_OPTION := PROGRESS_OPTION e;
  CHUNK_SIZE := CHUNK_SIZE e;
  backoff := backoff e;
  remove_git_credentials := remove_git_credentials e;
  generate_url := generate_url e;
  get_bundle_paths := get_bundle_paths e;
  exp_context := exp_context e;
  git := git e;
  cat_file_proc := cat_file_proc e;
  upload_pack_proc := upload_pack_proc e;
  others := meanwhile;
  scandir_rank := scandir_rank e;
  receive_bytes := receive_bytes e;
|}.

Definition with_chunk_size (n : Z) (e : Env) : Env := {|
  WORKDIR := WORKDIR e;
  PACK_CACHE_CHUNK_SIZE := n;
  PACK_CACHE_SIZE_GB := PACK_CACHE_SIZE_GB e;
  BACKOFF_START := BACKOFF_START e;
  BACKOFF_COUNT := BACKOFF_COUNT e;
  PROGRESS_OPTION := PROGRESS_OPTION e;
  CHUNK_SIZE := CHUNK_SIZE e;
  backoff := backoff e;
  remove_git_credentials := remove_git_credentials e;
  generate_url := generate_url e;
  get_bundle_paths := get_bundle_paths e;
  exp_context := exp_context e;
  git := git e;
  cat_file_proc := cat_file_proc e;
  upload_pack_proc := upload_pack_proc e;
  others := others e;
  scandir_rank := scandir_rank e;
  receive_bytes := receive_bytes e;
|}.

(** A [git-upload-pack] that fails with a stderr that is not UTF-8. *)
Definition garbled : UploadPackRun :=
  mkUploadPackRun [] (B "fatal: bad object " ++ [Byte.xff]) 128 0 None.

(** A pack cache of one entry under a relative work directory. *)
Definition relative_cache : State :=
  observe.state_of
    (list_to_map
       [(B "pack_cache", Dir 0); (B "pack_cache/aa", Dir 0);
        (B "pack_cache/aa/aa01", File (B "0006aa") 30)]).

(** The same, with a worker that refreshes the mirror at time 7 while
    this one waits for a lock. *)
Definition refreshed : Env :=
  world (B "user:token") (B "fatal: unable to access upstream")
    (insert (rc_directory mirror) (Dir 7)).

(** A work directory that holds the mirror, and one that also holds a
    three-byte cache file. *)
Definition with_mirror : State :=
  observe.state_of {[rc_directory mirror := Dir 0]}.

Definition with_short_file : State :=
  observe.state_of {[pc_filename cache := File (B "000") 0]}.

(** The work directory with the mirror once the client has gone, and one
    where the path of the cache entry is a directory. *)
Definition client_left : State :=
  mkState (fs with_mirror) 0 ∅ [] true observe.fresh_attrs [].


(** Whether a record that [run_git] emits holds the credential [auth],
    when git prints [stderr]. *)
Definition leak (auth stderr : bytes) : bool :=
  existsb (contains auth)
    (observe.logged
       (trace (repo_cache.run_git (world auth stderr id) (mirror_of auth)
                 [B "fetch"] with_mirror).2)).

(** The handler once [_execute] has built its [RepoCache]. *)
Definition serving : State :=
  set_attrs (set_rcache (Some mirror)) with_mirror.

End example.

(** ** More of the small world *)

Module scenario.
Import example.

(** A pack as [git-upload-pack] prints it: one data frame and a flush. *)
Definition pack : bytes := B "0008abcd0000".

(** An upstream that answers: every git command succeeds after a tenth
    of a second and leaves the mirror in place, and [git-upload-pack]
    prints [pack] and exits with status 0. *)
Definition git_up (args : list bytes) (s : State) : GitRun :=
  mkGitRun [] [] 0 (<[rc_directory mirror := Dir 0]> (fs s)) 100 None [] [].

Definition up : Env := {|
  WORKDIR := B "/w";
  PACK_CACHE_CHUNK_SIZE := 1024 * 1024;
  PACK_CACHE_SIZE_GB := None;
  BACKOFF_START := 500;
  BACKOFF_COUNT := 5;
  PROGRESS_OPTION := B "--progress";
  CHUNK_SIZE := 32 * 1024;
  backoff := λ start count,
    (λ i, start * 2 ^ Z.of_nat i) <$> seq 0 (Z.to_nat count);
  remove_git_credentials := fmap (replace (B "user:token") (B "*****"));
  generate_url := λ upstream path auth, B "https://" ++ auth ++ B "@host/" ++ path;
  get_bundle_paths := λ path,
    (B "p", B "/w/bundles/p.lock", B "/w/bundles/p_clone.bundle");
  exp_context := λ _, [];
  git := git_up;
  cat_file_proc := λ _ _ _, Communicated (Ok (B "0123 commit 210"));
  upload_pack_proc := λ _ _ _ _, mkUploadPackRun pack [] 0 0 None;
  others := id;
  scandir_rank := λ _, 0;
  receive_bytes := λ _, None;
|}.

(** The request of [example.request], marked as not cacheable. *)
Definition uncacheable : upload_pack.ParsedInput :=
  upload_pack.mkParsedInput (B "0032want 0123 side-band-64k 00000009done")
    [B "0123"] (B "ab12") false false [("wants", VList [B "0123"]); ("done", VBool true)].

(** A work directory with the mirror and the shard of the pack cache,
    and one that also holds the cache entry of the request. *)
Definition ready : State :=
  observe.state_of
    (<[B "/w/git" := Dir 0]>
       (<[rc_directory mirror := Dir 0]> {[pc_dirname cache := Dir 0]})).

Definition with_entry : State :=
  observe.state_of (<[pc_filename cache := File pack 0]> (fs ready)).

(** The same, once the client has gone. *)
Definition hung_up : State :=
  mkState (fs with_entry) 0 ∅ [] true observe.fresh_attrs [].

(** A work directory with the mirror and a bundle file. *)
Definition with_bundle : State :=
  observe.state_of
    (<[B "/w/bundles/p_clone.bundle" := File (B "bundle") 0]>
       {[rc_directory mirror := Dir 0]}).

(** An empty work directory, and the handler in it once [_execute] has
    built its [RepoCache]. *)
Definition bare : State := observe.state_of ∅.

Definition serving_bare : State := set_attrs (set_rcache (Some mirror)) bare.

(** An auth cache that keeps entries for a minute, with a stand-in for
    the digest. *)
Definition auth : auth_cache.AuthCache :=
  auth_cache.mkAuthCache 60 (B "/w/auth_cache").


End scenario.


(** * Proofs *)

(** ** Running the monad by hand *)

Ltac msimpl :=
  repeat (unfold mbind, M_bind, mret, M_ret, gets, modify, emit, log, lift_res,
            time, raise, sleep, try_finally, try_except, with_lock,
            file_lock.with_FileLock, file_lock.delete; simpl).

Lemma bind_run {A C} (m : M A) (f : A → M C) s :
  (m ≫= f) s = match m s with
               | (Ok a, s') => f a s'
               | (Raise e, s') => (Raise e, s')
               end.
Proof. reflexivity. Qed.

Section observers.
Import observe.

Lemma locks_taken_app a b : locks_taken (a ++ b) = locks_taken a ++ locks_taken b.
Proof. apply omap_app. Qed.
Lemma sleeps_app a b : sleeps (a ++ b) = sleeps a ++ sleeps b.
Proof. apply omap_app. Qed.
Lemma spawns_app a b : spawns (a ++ b) = spawns a ++ spawns b.
Proof. apply omap_app. Qed.
Lemma git_done_app a b : git_done (a ++ b) = git_done a ++ git_done b.
Proof. apply omap_app. Qed.
Lemma logged_app a b : logged (a ++ b) = logged a ++ logged b.
Proof. unfold logged. apply bind_app. Qed.

End observers.

(** ** Bytes: searching and replacing *)

Section bytes_facts.

Implicit Types old new s t pre : bytes.


Lemma contains_spec old t : contains old t = true ↔ occurs_in old t.
Proof.
  induction t as [|x t IH]; simpl.
  - case_bool_decide as Hp.
    + split; [|done]. intros _. destruct Hp as [k Hk]. exists [], k. done.
    + split; [done|]. intros (a & c & Heq). exfalso. apply Hp.
      symmetry in Heq. apply app_eq_nil in Heq as [-> Heq].
      apply app_eq_nil in Heq as [-> ->]. done.
  - case_bool_decide as Hp.
    + split; [|done]. intros _. destruct Hp as [k Hk]. exists [], k. done.
    + rewrite IH. split.
      * intros (a & c & ->). by exists (x :: a), c.
      * intros (a & c & Heq). destruct a as [|y a].
        -- exfalso. apply Hp. exists c. done.
        -- injection Heq as -> ->. by exists a, c.
Qed.

Lemma replace_from_skip old new k s :
  replace_from old new k s = replace_from old new O (drop k s).
Proof.
  revert k. induction s as [|c s IH]; intros [|k]; try done.
  simpl. apply IH.
Qed.

Lemma replace_from_match old new r :
  old ≠ [] → replace_from old new O (old ++ r) = new ++ replace_from old new O r.
Proof.
  intros Hold. destruct old as [|c old]; [done|]. simpl.
  rewrite bool_decide_true by (by apply prefix_cons, prefix_app_r).
  rewrite replace_from_skip, drop_app_length. done.
Qed.

Lemma replace_from_pass old new c s :
  ¬ old `prefix_of` (c :: s) →
  replace_from old new O (c :: s) = c :: replace_from old new O s.
Proof. intros Hp. simpl. by rewrite bool_decide_false. Qed.

(** An occurrence cannot run across a byte that [old] does not have. *)
Lemma occurs_in_split old u x v :
  x ∉ old → occurs_in old (u ++ x :: v) → occurs_in old u ∨ occurs_in old v.
Proof.
  intros Hx (a & c & Heq).
  apply app_eq_app in Heq as [l [[-> Heq]|[-> Heq]]].
  - apply app_eq_app in Heq as [m [[-> Heq]|[-> Heq]]].
    + destruct m as [|y m].
      * left. exists a, []. by rewrite !app_nil_r.
      * injection Heq as <- ->. exfalso. apply Hx. set_solver.
    + left. exists a, m. by rewrite ?app_assoc.
  - destruct l as [|y l].
    + destruct old as [|y old]; simpl in Heq.
      * left. exists u, []. by rewrite !app_nil_r.
      * injection Heq as <- ->. exfalso. apply Hx. set_solver.
    + injection Heq as <- ->. right. by exists l, c.
Qed.

Lemma redact_no_occurrence_aux old :
  (2 < length old)%nat → "<"%byte ∉ old → ">"%byte ∉ old →
  ∀ n s, (length s ≤ n)%nat →
  ∀ pre, (∀ a c, pre ++ s = a ++ old ++ c → (length pre ≤ length a)%nat) →
         ¬ occurs_in old (pre ++ replace_from old (take 2 old ++ B "<XX>") O s).
Proof.
  intros Hlen Hlt Hgt. induction n as [|n IH]; intros s Hn pre Hpre.
  { destruct s; [|simpl in Hn; lia]. simpl. intros (a & c & Heq).
    specialize (Hpre a c Heq). apply (f_equal length) in Heq.
    rewrite !length_app in Heq. simpl in Heq. lia. }
  destruct s as [|x s].
  { simpl. intros (a & c & Heq).
    specialize (Hpre a c Heq). apply (f_equal length) in Heq.
    rewrite !length_app in Heq. simpl in Heq. lia. }
  destruct (decide (old `prefix_of` (x :: s))) as [[r Hr]|Hnp].
  - rewrite Hr, replace_from_match by (intros ->; simpl in Hlen; lia).
    destruct old as [|c1 [|c2 [|c3 old]]]; try (simpl in Hlen; lia).
    change (take 2 (c1 :: c2 :: c3 :: old)) with [c1; c2].
    change ([c1; c2] ++ B "<XX>") with ([c1; c2] ++ "<"%byte :: B "XX" ++ ">"%byte :: []).
    rewrite <-!app_assoc. rewrite (app_assoc pre [c1; c2]).
    intros Hocc. destruct (occurs_in_split _ _ _ _ Hlt Hocc) as [Hocc'|Hocc'].
    + destruct Hocc' as (a & c & Heq).
      assert (length pre ≤ length a)%nat as Hle.
      { apply (Hpre a (c ++ c3 :: old ++ r)). rewrite Hr.
        change (c1 :: c2 :: c3 :: old) with ([c1; c2] ++ c3 :: old) at 1.
        rewrite <-!app_assoc. rewrite (app_assoc pre [c1; c2]), Heq.
        by rewrite <-!app_assoc. }
      apply (f_equal length) in Heq. rewrite !length_app in Heq. simpl in Heq. lia.
    + change (?b1 :: ?b2 :: ">"%byte :: ?t) with ([b1; b2] ++ ">"%byte :: t) in Hocc'.
      destruct (occurs_in_split _ _ _ _ Hgt Hocc') as [(a & c & Heq)|Hocc''].
      * apply (f_equal length) in Heq. rewrite !length_app in Heq. simpl in Heq. lia.
      * revert Hocc''. apply (IH r) with (pre := []); [|intros; simpl; lia].
        apply (f_equal length) in Hr. rewrite length_app in Hr. simpl in *. lia.
  - rewrite replace_from_pass by done.
    change (pre ++ x :: ?t) with (pre ++ [x] ++ t). rewrite app_assoc.
    apply IH; [simpl in Hn; lia|].
    intros a c Heq. rewrite <-app_assoc in Heq. simpl in Heq.
    pose proof (Hpre a c Heq) as Hle. rewrite length_app. simpl.
    destruct (decide (length a = length pre)) as [Hlen'|]; [|lia].
    exfalso. apply Hnp. apply app_inj_1 in Heq as [_ Heq]; [|done].
    rewrite Heq. by exists c.
Qed.

Lemma redact_no_occurrence auth x :
  (2 < length auth)%nat → "<"%byte ∉ auth → ">"%byte ∉ auth →
  contains auth (repo_cache.redact auth x) = false.
Proof.
  intros Hlen Hlt Hgt. apply not_true_is_false. rewrite contains_spec.
  unfold repo_cache.redact, replace.
  destruct auth as [|c rest] eqn:E; [simpl in Hlen; lia|]. rewrite <-E in *.
  apply (redact_no_occurrence_aux auth Hlen Hlt Hgt (length x) x (le_n _) []).
  intros; simpl; lia.
Qed.

(** A replacement that starts with [old] puts [old] back. *)
Lemma replace_from_keeps old k s :
  old ≠ [] → occurs_in old s → occurs_in old (replace_from old (old ++ k) O s).
Proof.
  intros Hold. induction s as [|c s IH]; intros (a & r & Heq).
  - symmetry in Heq. apply app_eq_nil in Heq as [_ Heq].
    apply app_eq_nil in Heq as [-> _]. done.
  - destruct (decide (old `prefix_of` (c :: s))) as [[r' Hr']|Hnp].
    + rewrite Hr', replace_from_match by done.
      exists [], (k ++ replace_from old (old ++ k) O r'). by rewrite <-app_assoc.
    + rewrite replace_from_pass by done. destruct a as [|y a].
      * exfalso. apply Hnp. by exists r.
      * injection Heq as -> ->.
        destruct IH as (a' & c' & ->); [by exists a, r|]. by exists (y :: a'), c'.
Qed.

Lemma redact_keeps_short auth x :
  (0 < length auth ≤ 2)%nat →
  contains auth x = true → contains auth (repo_cache.redact auth x) = true.
Proof.
  intros Hlen. rewrite !contains_spec. unfold repo_cache.redact, replace.
  destruct auth as [|c rest] eqn:E; [simpl in Hlen; lia|]. rewrite <-E in *.
  rewrite take_ge by lia. apply replace_from_keeps. by rewrite E.
Qed.
End bytes_facts.

(** ** The packet-line parser *)

Module packet_line_spec.
Import packet_line.

Lemma hex_value_zero c : hex_value c = Some 0%N → c = "0"%byte.
Proof. destruct c; vm_compute; intros H; try done; discriminate H. Qed.

Lemma unhex4_zero p : unhex4 p = Some 0%N → p = B "0000".
Proof.
  destruct p as [|a [|b [|c [|d [|]]]]]; try done. simpl.
  destruct (hex_value a) as [va|] eqn:Ha; [|done].
  destruct (hex_value b) as [vb|] eqn:Hb; [|done].
  destruct (hex_value c) as [vc|] eqn:Hc; [|done].
  destruct (hex_value d) as [vd|] eqn:Hd; [|done].
  simpl. intros [= H].
  assert (va = 0 ∧ vb = 0 ∧ vc = 0 ∧ vd = 0)%N as (-> & -> & -> & ->) by lia.
  by rewrite (hex_value_zero a), (hex_value_zero b), (hex_value_zero c),
    (hex_value_zero d).
Qed.

(** An iteration that ends without an exception has yielded the flush
    last. *)
Lemma parse_chunks_ends_with_flush fuel :
  ∀ stream chunks,
    parse_chunks fuel stream = (chunks, None) → ∃ before, chunks = before ++ [B "0000"].
Proof.
  induction fuel as [|fuel IH]; intros stream chunks; [done|]. simpl.
  destruct (unhex4 (take 4 stream)) as [[|p]|] eqn:Hp; [| |done].
  - intros [= <-]. exists []. by rewrite (unhex4_zero _ Hp).
  - assert (∀ n, (let '(cs, r) := parse_chunks fuel (drop n stream) in
                  (take n stream :: cs, r)) = (chunks, None) →
                 ∃ before, chunks = before ++ [B "0000"]) as Hrec.
    { intros n. destruct (parse_chunks fuel (drop n stream)) as [cs r] eqn:Hrun.
      intros [= <- ->]. destruct (IH _ _ Hrun) as [before ->].
      by exists (take n stream :: before). }
    destruct p; try (case_bool_decide; [apply Hrec|done]).
    apply (Hrec 4%nat).
Qed.

Lemma parser_ends_with_flush stream chunks :
  PacketLineChunkParser stream = (chunks, None) → B "0000" `suffix_of` concat chunks.
Proof.
  intros H. apply parse_chunks_ends_with_flush in H as [before ->].
  rewrite concat_app. apply suffix_app_r. simpl. by rewrite ?app_nil_r.
Qed.
End packet_line_spec.

(** ** The cache cleaner *)

Module cleaner_spec.
Import pack_cache observe.

Lemma sum_sizes_app a b : sum_sizes (a ++ b) = sum_sizes a + sum_sizes b.
Proof. unfold sum_sizes. induction a as [|x a IH]; simpl; [lia|]. rewrite IH. lia. Qed.

Lemma sum_sizes_perm a b : a ≡ₚ b → sum_sizes a = sum_sizes b.
Proof.
  unfold sum_sizes. induction 1; simpl; lia.
Qed.

Lemma insert_by_mtime_perm f l : insert_by_mtime f l ≡ₚ f :: l.
Proof.
  induction l as [|g l IH]; simpl; [done|].
  case_bool_decide; [|done]. rewrite IH. apply Permutation_swap.
Qed.

Lemma sort_mtime_reverse_perm l : sort_mtime_reverse l ≡ₚ l.
Proof.
  unfold sort_mtime_reverse. induction l as [|f l IH]; simpl; [done|].
  by rewrite insert_by_mtime_perm, IH.
Qed.

Lemma insert_by_mtime_sorted f l :
  Forall (λ g, st_mtime f ≠ st_mtime g) l →
  StronglySorted newer l → StronglySorted newer (insert_by_mtime f l).
Proof.
  intros Hne Hs. induction Hs as [|g l Hs IH Hg]; simpl.
  - repeat constructor.
  - apply Forall_cons in Hne as [Hfg Hne]. case_bool_decide as Hlt.
    + constructor; [by apply IH|].
      rewrite insert_by_mtime_perm. constructor; [done|done].
    + constructor; [by constructor|].
      constructor; [unfold newer; lia|].
      eapply Forall_impl; [exact Hg|]. unfold newer. intros h ?. lia.
Qed.

Lemma sort_mtime_reverse_sorted l :
  NoDup (map st_mtime l) → StronglySorted newer (sort_mtime_reverse l).
Proof.
  unfold sort_mtime_reverse. induction l as [|f l IH]; simpl; intros Hnd.
  - constructor.
  - apply NoDup_cons in Hnd as [Hf Hnd]. apply insert_by_mtime_sorted; [|by apply IH].
    fold (sort_mtime_reverse l). rewrite sort_mtime_reverse_perm.
    apply Forall_forall. intros g Hg Heq. apply Hf. rewrite Heq.
    apply list_elem_of_fmap. eauto.
Qed.

Lemma pop_snoc {A} (l : list A) x : pop (l ++ [x]) = Some (x, l).
Proof. unfold pop. rewrite last_snoc. simpl. by rewrite removelast_last. Qed.

(** The loop stops at the first prefix [kept] of the list (the most
    recent entries) whose sizes sum to less than the target. *)
Lemma evict_loop_spec max_size total_size :
  0 < max_size →
  ∀ all_files rm_size to_delete,
    total_size - rm_size = sum_sizes all_files →
    ∃ kept gone,
      all_files = kept ++ gone ∧
      evict_loop (length all_files) max_size total_size rm_size all_files to_delete
      = Ok (rm_size + sum_sizes gone, to_delete ++ reverse gone) ∧
      sum_sizes kept < max_size ∧
      (∀ p q, gone = p ++ q → p ≠ [] → max_size ≤ sum_sizes (kept ++ p)).
Proof.
  intros Hmax all_files. induction all_files as [|f l IH] using rev_ind;
    intros rm_size to_delete Hinv.
  - exists [], []. simpl. rewrite bool_decide_false by (cbn in Hinv; lia).
    rewrite Z.add_0_r, app_nil_r. split_and!; try done.
    intros [|??] ? ?; by simplify_eq/=.
  - rewrite length_app, Nat.add_comm. simpl.
    rewrite sum_sizes_app in Hinv. cbn in Hinv.
    case_bool_decide as Hgo.
    + rewrite pop_snoc.
      destruct (IH (rm_size + st_size f) (to_delete ++ [f]))
        as (kept & gone & -> & Hrun & Hlt & Hstop); [lia|].
      exists kept, (gone ++ [f]). rewrite Hrun.
      rewrite sum_sizes_app, reverse_app, <-!app_assoc. cbn.
      split_and!; try done.
      * do 2 f_equal. lia.
      * intros p q Heq Hp. destruct q as [|x q _] using rev_ind.
        -- rewrite app_nil_r in Heq. subst p. rewrite app_assoc, sum_sizes_app. cbn. lia.
        -- rewrite app_assoc in Heq. apply app_inj_tail in Heq as [-> ->].
           by eapply Hstop.
    + exists (l ++ [f]), []. rewrite app_nil_r. simpl. rewrite Z.add_0_r, app_nil_r.
      split_and!; try done.
      * rewrite sum_sizes_app. cbn. lia.
      * intros [|??] ? ?; by simplify_eq/=.
Qed.

Lemma delete_all_run total_size rm_size l :
  ∀ s, ∃ u s',
    for_each (delete_one total_size rm_size) l s = (Ok u, s') ∧
    fs s' = foldl (λ m f, delete (de_path f) m) (fs s) l ∧
    locks_taken (trace s') = locks_taken (trace s) ++ map de_path l.
Proof.
  induction l as [|f l IH]; intros s.
  - exists tt, s. simpl. by rewrite app_nil_r.
  - cbn [for_each]. set (rest := for_each _ l). unfold delete_one. msimpl.
    subst rest.
    match goal with |- context [for_each _ l ?s1] => destruct (IH s1) as (u & s' & -> & Hfs & Hlk) end.
    eexists _, s'. split; [done|]. split; [done|].
    rewrite Hlk. simpl. rewrite !locks_taken_app. simpl.
    rewrite !app_nil_r, <-app_assoc. done.
Qed.

(** *** What [os.scandir] lists *)

Lemma join_child p q name :
  child_name p q = Some name → util.os_path_join p name = q.
Proof.
  unfold child_name, util.os_path_join.
  set (pre := if bool_decide (p = [] ∨ B "/" `suffix_of` p) then p else p ++ B "/").
  case_bool_decide as Hpre; [|done]. case_bool_decide as Hname; [|done].
  intros [= <-]. destruct Hname as [Hne Hslash].
  rewrite bool_decide_false.
  - destruct Hpre as [k ->]. rewrite drop_app_length. subst pre.
    case_bool_decide; [done|]. by rewrite <-app_assoc.
  - intros [k Hk]. apply Hslash. rewrite Hk. simpl. left.
Qed.

Lemma join_absolute a b : B "/" `prefix_of` b → util.os_path_join a b = b.
Proof. intros H. unfold util.os_path_join. by rewrite bool_decide_true. Qed.

Lemma child_absolute p q name :
  B "/" `prefix_of` p → child_name p q = Some name → B "/" `prefix_of` q.
Proof.
  intros Habs. unfold child_name.
  set (pre := if bool_decide (p = [] ∨ B "/" `suffix_of` p) then p else p ++ B "/").
  case_bool_decide as Hpre; [|done]. intros _.
  assert (B "/" `prefix_of` pre) as Hp.
  { subst pre. case_bool_decide; [done|]. by apply prefix_app_r. }
  by etrans.
Qed.

Section listing.
Variable env : Env.

Lemma elem_of_listing p m f :
  f ∈ listing env p m ↔ ∃ q n, m !! q = Some n ∧ entry_of p (q, n) = Some f.
Proof.
  unfold listing. rewrite merge_sort_Permutation, list_elem_of_omap. split.
  - intros [[q n] [Hin Hf]]. apply elem_of_map_to_list in Hin. eauto.
  - intros (q & n & Hm & Hf). exists (q, n). by rewrite elem_of_map_to_list.
Qed.

(** An entry names a path of the work directory, and says what is
    there. *)
Lemma listing_entry p m f :
  f ∈ listing env p m →
  child_name p (de_path f) = Some (de_name f) ∧
  ∃ n, m !! de_path f = Some n ∧
       de_is_dir f = (match n with Dir _ => true | File _ _ => false end) ∧
       st_size f = (match n with File c _ => Z.of_nat (length c) | Dir _ => 0 end) ∧
       st_mtime f = node_mtime n.
Proof.
  rewrite elem_of_listing. intros (q & n & Hm & Hf). unfold entry_of in Hf. simpl in Hf.
  destruct (child_name p q) as [name|] eqn:Hname; [|done].
  simpl in Hf. injection Hf as <-. simpl.
  rewrite (join_child _ _ _ Hname). split; [done|]. by exists n.
Qed.

Lemma listing_complete p m q n name :
  m !! q = Some n → child_name p q = Some name →
  mkDirEntry name q (match n with Dir _ => true | File _ _ => false end)
    (match n with File c _ => Z.of_nat (length c) | Dir _ => 0 end) (node_mtime n)
  ∈ listing env p m.
Proof.
  intros Hm Hname. rewrite elem_of_listing. exists q, n. split; [done|].
  unfold entry_of. simpl. rewrite Hname. simpl. by rewrite (join_child _ _ _ Hname).
Qed.

Lemma scan_files_run subdirs s :
  Forall (λ p, ∃ t, fs s !! p = Some (Dir t)) subdirs →
  scan_files env subdirs s
  = (Ok (subdirs ≫= λ sub, filter (λ f, de_is_file f = true) (listing env sub (fs s))), s).
Proof.
  induction 1 as [|p subdirs [t Hp] _ IH]; [done|].
  cbn [scan_files]. unfold os_scandir. rewrite bind_run, Hp. cbn beta iota.
  rewrite bind_run, IH. done.
Qed.

(** Lines 149 to 151 with an absolute cache directory that is there. *)
Lemma scan_cache_run cache_dir s t :
  B "/" `prefix_of` cache_dir →
  fs s !! cache_dir = Some (Dir t) →
  scan_files env
    ((λ sub, util.os_path_join cache_dir (de_path sub)) <$>
       filter (λ d, de_is_dir d = true) (listing env cache_dir (fs s))) s
  = (Ok (cache_files env cache_dir (fs s)), s).
Proof.
  intros Habs Hdir.
  assert ((λ sub, util.os_path_join cache_dir (de_path sub)) <$>
            filter (λ d, de_is_dir d = true) (listing env cache_dir (fs s))
          = de_path <$> filter (λ d, de_is_dir d = true) (listing env cache_dir (fs s)))
    as ->.
  { apply list_fmap_ext. intros i d Hd. apply list_elem_of_lookup_2 in Hd.
    apply list_elem_of_filter in Hd as [_ Hd].
    apply listing_entry in Hd as [Hname _].
    apply join_absolute. by eapply child_absolute. }
  rewrite scan_files_run; [done|].
  apply Forall_forall. intros p Hp.
  apply list_elem_of_fmap in Hp as (d & -> & Hd).
  apply list_elem_of_filter in Hd as [Hisdir Hd].
  apply listing_entry in Hd as (_ & n & Hn & His & _).
  rewrite Hisdir in His. destruct n as [|td]; [done|]. by exists td.
Qed.

(** The files counted are the regular files in the sub-directories of
    the cache directory, each with its size and mtime. *)
Lemma cache_files_spec cache_dir m f :
  f ∈ cache_files env cache_dir m ↔ is_cache_file cache_dir m f.
Proof.
  unfold cache_files, is_cache_file. rewrite list_elem_of_bind. split.
  - intros (sub & Hf & Hsub).
    apply list_elem_of_fmap in Hsub as (d & -> & Hd).
    apply list_elem_of_filter in Hd as [Hisdir Hd].
    apply listing_entry in Hd as (Hdname & n & Hn & His & _).
    rewrite Hisdir in His. destruct n as [|td]; [done|].
    apply list_elem_of_filter in Hf as [Hisfile Hf].
    apply listing_entry in Hf as (Hfname & n & Hfn & Hfis & Hsize & Hmtime).
    unfold de_is_file in Hisfile. apply negb_true_iff in Hisfile.
    rewrite Hisfile in Hfis. destruct n as [content t|]; [|done].
    by exists (de_path d), (de_name d), td, content, t.
  - intros (sub & shard & td & content & t & Hsub & Hshard & Hfile & Hname & Hnd & Hsize & Hmtime).
    exists sub. split.
    + apply list_elem_of_filter. split; [unfold de_is_file; by rewrite Hnd|].
      pose proof (listing_complete sub m (de_path f) _ (de_name f) Hfile Hname) as Hin.
      simpl in Hin. rewrite <-Hsize, <-Hmtime, <-Hnd in Hin. by destruct f.
    + pose proof (listing_complete cache_dir m sub _ shard Hsub Hshard) as Hin.
      apply list_elem_of_fmap. eexists. split; [|apply list_elem_of_filter; split; [|exact Hin]];
        done.
Qed.

(** [_clean_task] goes on with these files. *)
Lemma clean_task_scans self s t (rest : list DirEntry → M Z) :
  B "/" `prefix_of` cache_dir self →
  fs s !! cache_dir self = Some (Dir t) →
  (subdirs ← os_scandir env (cache_dir self);
   let subdirs := filter (λ d, de_is_dir d = true) subdirs in
   let subdirs :=
     (λ sub, util.os_path_join (cache_dir self) (de_path sub)) <$> subdirs in
   scan_files env subdirs ≫= rest) s
  = rest (cache_files env (cache_dir self) (fs s)) s.
Proof.
  intros Habs Hdir. rewrite bind_run. unfold os_scandir. rewrite Hdir. cbn beta iota zeta.
  rewrite bind_run, (scan_cache_run _ s t Habs Hdir). done.
Qed.

Lemma cache_file_sizes cache_dir m :
  Forall (λ f, 0 ≤ st_size f) (cache_files env cache_dir m).
Proof.
  apply Forall_forall. intros f Hf. apply cache_files_spec in Hf.
  destruct Hf as (? & ? & ? & content & ? & _ & _ & _ & _ & _ & -> & _). lia.
Qed.

End listing.

(** C2, amended.  The cleaner that [PackCacheCleaner()] builds has the
    target [(PACK_CACHE_SIZE_GB * 1024 - 512)] MiB, which is positive
    exactly from [PACK_CACHE_SIZE_GB = 1] on.  With a positive target
    and an absolute cache directory that is there, the files counted are
    the regular files in the sub-directories of the cache directory, and
    when their mtimes are distinct: below the target [_clean_task]
    deletes nothing and returns 0; from the target on it deletes in
    ascending mtime order, oldest first, and stops as soon as what is
    left sums to less than the target.  The entries kept are more recent
    than every entry deleted, they fit under the target, and keeping any
    one more of the deleted entries would not. *)
Theorem clean_task_evicts_oldest_first env :
  (∀ s0, ∃ self,
     (PackCacheCleaner_init env s0).1 = Ok self ∧
     cache_dir self = util.os_path_join (WORKDIR env) (B "pack_cache") ∧
     max_size self
     = (default 20 (PACK_CACHE_SIZE_GB env) * 1024 - 512) * 1024 * 1024 ∧
     (0 < max_size self ↔ 1 ≤ default 20 (PACK_CACHE_SIZE_GB env)) ∧
     (B "/" `prefix_of` WORKDIR env → B "/" `prefix_of` cache_dir self)) ∧
  (∀ self s t,
     0 < max_size self →
     B "/" `prefix_of` cache_dir self →
     fs s !! cache_dir self = Some (Dir t) →
     let all_files := cache_files env (cache_dir self) (fs s) in
     let total_size := sum_sizes all_files in
     NoDup (map st_mtime all_files) →
     (∀ f, f ∈ all_files ↔ is_cache_file (cache_dir self) (fs s) f) ∧
     ∃ s',
       (total_size < max_size self →
          _clean_task env self s = (Ok 0, s') ∧ fs s' = fs s ∧
          locks_taken (trace s') = locks_taken (trace s)) ∧
       (max_size self ≤ total_size →
          ∃ to_delete kept,
            _clean_task env self s = (Ok (Z.of_nat (length to_delete)), s') ∧
            all_files ≡ₚ to_delete ++ kept ∧
            StronglySorted older to_delete ∧
            (∀ d k, d ∈ to_delete → k ∈ kept → older d k) ∧
            sum_sizes kept < max_size self ∧
            (∀ p q, to_delete = p ++ q → q ≠ [] →
                    max_size self ≤ sum_sizes (q ++ kept)) ∧
            fs s' = foldl (λ m f, delete (de_path f) m) (fs s) to_delete ∧
            locks_taken (trace s') = locks_taken (trace s) ++ map de_path to_delete)).
Proof.
  split.
  { intros s0. unfold PackCacheCleaner_init, util.get_subdir. msimpl.
    set (d := util.os_path_join (WORKDIR env) (B "pack_cache")).
    eexists (mkPackCacheCleaner d _ _).
    split; [by destruct (fs s0 !! d)|]. simpl. split_and!; [done|done|lia|].
    intros Habs. unfold d, util.os_path_join.
    rewrite bool_decide_false by (by intros [k Hk]).
    case_bool_decide; by apply prefix_app_r. }
  intros self s t Hmax Habs Hdir all_files total_size Hnd.
  split; [intros f; apply cache_files_spec|].
  pose proof (λ rest, clean_task_scans env self s t rest Habs Hdir) as Hscan.
  fold all_files in Hscan.
  destruct (decide (total_size < max_size self)) as [Hlt|Hge].
  - eexists. split; [|intros ?; lia]. intros _.
    unfold _clean_task. rewrite Hscan. msimpl. fold total_size.
    rewrite bool_decide_true by done. split; [done|]. simpl. split; [done|].
    rewrite !locks_taken_app. simpl. by rewrite !app_nil_r.
  - pose proof (sort_mtime_reverse_perm all_files) as Hperm.
    pose proof (sort_mtime_reverse_sorted all_files Hnd) as Hsorted.
    destruct (evict_loop_spec (max_size self) total_size Hmax
                (sort_mtime_reverse all_files) 0 [])
      as (kept & gone & Hsplit & Hrun & Hfit & Hstop).
    { unfold total_size. rewrite (sum_sizes_perm _ _ Hperm). lia. }
    assert (gone ≠ []) as Hgone.
    { intros ->. rewrite app_nil_r in Hsplit. subst kept.
      rewrite (sum_sizes_perm _ _ Hperm) in Hfit. fold total_size in Hfit. lia. }
    unfold _clean_task. rewrite Hscan. unfold mbind, M_bind, gets; simpl.
    fold total_size.
    rewrite bool_decide_false by done. rewrite Hrun. unfold lift_res, time, gets; simpl.
    destruct (last (reverse gone)) as [newest|] eqn:Hlast; last first.
    { apply last_None in Hlast. apply (f_equal reverse) in Hlast.
      rewrite reverse_involutive in Hlast. done. }
    simpl.
    match goal with |- context [for_each _ _ ?s1] =>
      destruct (delete_all_run total_size (0 + sum_sizes gone) (reverse gone) s1)
        as (u & s' & -> & Hfs & Hlk) end.
    exists s'. split; [intros ?; lia|]. intros _. exists (reverse gone), kept.
    rewrite Hsplit in Hperm, Hsorted.
    apply StronglySorted_app in Hsorted as (Hcross & Hk & Hg).
    split_and!.
    + done.
    + rewrite <-Hperm, reverse_Permutation. apply Permutation_app_comm.
    + clear -Hg. induction Hg as [|x l Hs IH Hx]; [constructor|].
      rewrite reverse_cons. apply StronglySorted_app_2; [|exact IH|repeat constructor].
      intros a b' Ha Hb. apply list_elem_of_singleton in Hb as ->.
      rewrite elem_of_reverse in Ha. rewrite Forall_forall in Hx. exact (Hx a Ha).
    + intros d k Hd Hk'. rewrite elem_of_reverse in Hd. exact (Hcross k d Hk' Hd).
    + done.
    + intros p q Heq Hq. rewrite (sum_sizes_perm (q ++ kept) (kept ++ reverse q))
        by (rewrite reverse_Permutation; apply Permutation_app_comm).
      apply (Hstop (reverse q) (reverse p)).
      * apply (f_equal reverse) in Heq. by rewrite reverse_involutive, reverse_app in Heq.
      * intros Hr. apply (f_equal reverse) in Hr. by rewrite reverse_involutive in Hr.
    + rewrite Hfs. done.
    + rewrite Hlk. simpl. rewrite !locks_taken_app. simpl. by rewrite !app_nil_r.
Qed.

Lemma clean_task_evicts_oldest_first_witness :
  ∃ s', _clean_task example.env example.cleaner example.with_cache = (Ok 2, s') ∧
        fs s' !! B "/w/pack_cache/aa/aa01" = Some (File (B "0006aa") 30) ∧
        fs s' !! B "/w/pack_cache/bb/bb02" = None ∧
        fs s' !! B "/w/pack_cache/cc/cc03" = None.
Proof.
  destruct (clean_task_evicts_oldest_first example.env) as [_ Hclean].
  destruct (Hclean example.cleaner example.with_cache 0) as (_ & s' & _ & Hevict).
  - reflexivity.
  - vm_compute. by eexists.
  - vm_compute. reflexivity.
  - apply (bool_decide_unpack _). vm_compute. exact I.
  - destruct Hevict as (to_delete & kept & Hrun & _).
    + vm_compute. intros H. discriminate H.
    + exists s'. vm_compute in Hrun. injection Hrun as _ Hs.
      rewrite <-Hs. vm_compute. by split_and!.
Defined.

(** C2, as stated, fails outside of this: with [PACK_CACHE_SIZE_GB=0]
    the target is negative and the loop pops from the emptied list; with
    a relative work directory the path of a sub-directory is joined to
    the cache directory a second time and [os.scandir] finds nothing
    there; and with no cache directory the first [os.scandir] fails. *)
Lemma clean_task_needs_target_and_directory :
  (∃ self,
     (PackCacheCleaner_init (example.configured (B "/w") (Some 0)) example.with_cache).1
     = Ok self ∧
     (_clean_task (example.configured (B "/w") (Some 0)) self example.with_cache).1
     = Raise IndexError) ∧
  (∃ self,
     (PackCacheCleaner_init (example.configured [] None) example.relative_cache).1
     = Ok self ∧
     (_clean_task (example.configured [] None) self example.relative_cache).1
     = Raise FileNotFoundError) ∧
  (_clean_task example.env example.cleaner example.with_mirror).1
  = Raise FileNotFoundError.
Proof.
  split_and!; [eexists; split; [vm_compute; reflexivity|vm_compute; reflexivity]..|].
  vm_compute. reflexivity.
Qed.

End cleaner_spec.

(** ** The pack cache *)

Module pack_cache_spec.
Import pack_cache observe.

Lemma exists_absent self s :
  fs s !! pc_filename self = None → exists_ self s = (Ok false, s).
Proof. intros H. unfold exists_. by rewrite H. Qed.

Lemma exists_empty self s t :
  fs s !! pc_filename self = Some (File [] t) → exists_ self s = (Ok false, s).
Proof. intros H. unfold exists_. by rewrite H. Qed.

Lemma read_at_tail (content : bytes) :
  (4 ≤ length content)%nat →
  read_at content (length content - 4) 4 = drop (length content - 4) content.
Proof.
  intros H. unfold read_at. apply take_ge. rewrite length_drop. lia.
Qed.

Lemma suffix_drop_iff (x content : bytes) :
  (length x ≤ length content)%nat →
  drop (length content - length x) content = x ↔ x `suffix_of` content.
Proof.
  intros Hlen. split.
  - intros <-. apply suffix_drop.
  - intros [k ->]. rewrite length_app.
    replace (length k + length x - length x)%nat with (length k) by lia.
    by rewrite drop_app_length.
Qed.

Lemma exists_long self s content t :
  fs s !! pc_filename self = Some (File content t) →
  (4 ≤ length content)%nat →
  exists_ self s
  = if bool_decide (B "0000" `suffix_of` content) then (Ok true, s)
    else (Ok false,
          set_trace (λ t, t ++ [EvLog "warning" "File in cache is corrupted"
                                  [("hash", VStr (pc_hash self))]]) s).
Proof.
  intros H Hlen. unfold exists_. rewrite H.
  rewrite bool_decide_true by lia.
  unfold seek_end.
  destruct (Z.ltb_spec (Z.of_nat (length content) + -4) 0) as [?|_]; [lia|].
  replace (Z.to_nat (Z.of_nat (length content) + -4)) with (length content - 4)%nat by lia.
  rewrite read_at_tail by done.
  pose proof (suffix_drop_iff (B "0000") content Hlen) as Hs. cbn [length B] in Hs.
  change (length (B "0000")) with 4%nat in Hs.
  case_bool_decide as Hd.
  - rewrite bool_decide_true; [done|]. by apply Hs.
  - rewrite bool_decide_false; [done|]. intros Hsuf. by apply Hd, Hs.
Qed.
(** C1.  The code does not return for a file of one to three bytes:
    [f.seek(-4, os.SEEK_END)] asks for a position before the start of the
    file and the call ends in [OSError], where the claim has [False]. *)
Theorem exists_short_file_raises self s content t :
  fs s !! pc_filename self = Some (File content t) →
  (0 < length content < 4)%nat →
  exists_ self s = (Raise (OSError EINVAL), s).
Proof.
  intros H [Hpos Hlt]. unfold exists_. rewrite H.
  rewrite bool_decide_true by lia.
  unfold seek_end.
  destruct (Z.ltb_spec (Z.of_nat (length content) + -4) 0) as [_|?]; [done|lia].
Qed.

Lemma exists_short_file_raises_witness :
  exists_ example.cache example.with_short_file
  = (Raise (OSError EINVAL), example.with_short_file).
Proof.
  apply (exists_short_file_raises example.cache example.with_short_file (B "000") 0).
  - vm_compute. reflexivity.
  - vm_compute. lia.
Defined.

Lemma write_chunks p chunks :
  ∀ s c,
    fs s !! p = Some (File c (clock s)) →
    ∃ s',
      for_each (f_write p) chunks s = (Ok tt, s') ∧
      fs s' = <[p := File (c ++ concat chunks) (clock s)]> (fs s) ∧
      clock s' = clock s ∧ sent s' = sent s ∧ client_gone s' = client_gone s.
Proof.
  induction chunks as [|x chunks IH]; intros s c Hc.
  - exists s. simpl. rewrite app_nil_r. split_and!; try done.
    by rewrite insert_id.
  - cbn [for_each]. unfold mbind, M_bind. unfold f_write at 1. rewrite Hc.
    match goal with |- context [for_each _ _ ?s1] =>
      destruct (IH s1 (c ++ x)) as (s' & -> & Hfs & Hclock & Hsent & Hgone) end.
    { simpl. apply lookup_insert_eq. }
    exists s'. simpl in *. split_and!; try done.
    by rewrite Hfs, insert_insert_eq, <-app_assoc.
Qed.

#[local] Arguments for_each : simpl never.
#[local] Arguments pack_cache.f_write : simpl never.
#[local] Arguments pack_cache.open_wb : simpl never.




End pack_cache_spec.

(** ** The repo cache *)

Arguments utf8_valid : simpl never.
Arguments contains : simpl never.
Arguments replace : simpl never.
Arguments repo_cache.redact : simpl never.
Arguments B : simpl never.
Arguments packet_line.to_packet : simpl never.
Arguments repo_cache.run_git : simpl never.
Arguments repo_cache.clone : simpl never.
Arguments repo_cache.fetch : simpl never.
Arguments repo_cache.fetch_loop : simpl never.
Arguments repo_cache.clone_loop : simpl never.

Module repo_cache_spec.
Import repo_cache observe.

Section facts.
Variable env : Env.
Variable self : RepoCache.

Lemma run_git_returns args s :
  let run := git env args s in
  returns self run →
  ∃ s', run_git env self args s
        = (Ok (redact (rc_auth self) (g_stdout run),
               redact (rc_auth self) (g_stderr run), g_returncode run), s') ∧
        fs s' = g_fs run ∧
        clock s' = clock s + Z.max 0 (g_elapsed run) ∧
        sleeps (trace s') = sleeps (trace s) ∧
        spawns (trace s') = spawns (trace s) ++ [B "git" :: args] ∧
        git_done (trace s')
        = git_done (trace s) ++ [(redact (rc_auth self) (g_stderr run), g_returncode run)].
Proof.
  intros run (Hint & Hden & Hutf). unfold run_git. msimpl. fold run.
  unfold communicate. rewrite Hint. fold denied. rewrite Hden.
  unfold parse_git_output, bytes_decode. rewrite Hutf. msimpl.
  destruct (receive_bytes env _); msimpl;
    (eexists; split; [reflexivity|]; simpl;
     rewrite ?sleeps_app, ?spawns_app, ?git_done_app; simpl;
     rewrite ?app_nil_r, <-?app_assoc; done).
Qed.
Hypothesis Hfail : ∀ args s,
  returns self (git env args s) ∧ g_returncode (git env args s) ≠ 0.

Lemma fetch_loop_all_fail timeouts :
  ∀ s, ∃ s' new,
    fetch_loop env self timeouts s = (Ok tt, s') ∧
    sleeps (trace s') = sleeps (trace s) ++ timeouts ∧
    git_done (trace s') = git_done (trace s) ++ new ∧
    length new = length timeouts ∧
    Forall (λ x, x.2 ≠ 0) new ∧
    clock s + total_sleep timeouts ≤ clock s' ∧
    (timeouts = [] → s' = s) ∧
    (timeouts ≠ [] → ∃ args s0, fs s' = g_fs (git env args s0)).
Proof.
  induction timeouts as [|t timeouts IH]; intros s.
  - exists s, []. simpl. rewrite !app_nil_r. repeat split; try done; try lia.
  - change (fetch_loop env self (t :: timeouts)) with
      ('(_, _, returncode) ← run_git env self (fetch_args env self);
       if bool_decide (returncode = 0) then mret tt
       else
         log "warning" "fetch failed, trying again" [("timeout", VInt t)];;
         sleep t;;
         fetch_loop env self timeouts).
    rewrite bind_run.
    destruct (Hfail (fetch_args env self) s) as [Hret Hrc].
    destruct (run_git_returns (fetch_args env self) s Hret)
      as (s1 & -> & Hfs & Hclock & Hsl & Hsp & Hgd).
    cbn beta iota. rewrite bool_decide_false by done. msimpl.
    match goal with |- context [fetch_loop _ _ _ ?s2] =>
      destruct (IH s2) as (s' & new & -> & Hsl' & Hgd' & Hlen & Hall & Hclock' & Hnil & Hcons) end.
    exists s', ((redact (rc_auth self) (g_stderr (git env (fetch_args env self) s)),
                 g_returncode (git env (fetch_args env self) s)) :: new).
    simpl in *. split_and!; try done.
    + rewrite Hsl', !sleeps_app, Hsl. unfold sleeps; simpl.
      by rewrite ?app_nil_r, <-?app_assoc.
    + rewrite Hgd', !git_done_app, Hgd. unfold git_done; simpl.
      by rewrite ?app_nil_r, <-?app_assoc.
    + by rewrite Hlen.
    + by constructor.
    + lia.
    + intros _. destruct timeouts as [|t' timeouts].
      * rewrite Hnil by done. simpl. eauto.
      * apply Hcons. done.
Qed.


(** Any return of [fetch] has touched the directory last. *)
Lemma fetch_returns_touched s s' :
  fetch env self s = (Ok tt, s') →
  ∃ n, fs s' !! rc_directory self = Some n ∧ node_mtime n = clock s'.
Proof.
  unfold fetch. rewrite bind_run.
  destruct (fetch_loop env self _ s) as [[[]|e] s1]; [|done].
  unfold utime, os_utime. destruct (fs s1 !! rc_directory self) as [n|] eqn:Hn; [|done].
  intros [= <-]. exists (touch (clock s1) n). simpl. rewrite lookup_insert_eq.
  split; [done|]. by destruct n.
Qed.

End facts.

(** C10.  Whenever [fetch] returns, the last thing it did was to set the
    mtime of the mirror directory to the current time; and it does return
    when every attempt ends with a nonzero status, after the whole
    back-off schedule, provided the directory is still there. *)
Theorem fetch_touches_on_every_return env self :
  (∀ s s', fetch env self s = (Ok tt, s') →
     ∃ n, fs s' !! rc_directory self = Some n ∧ node_mtime n = clock s') ∧
  ((∀ args s, returns self (git env args s) ∧ g_returncode (git env args s) ≠ 0) →
   (∀ args s, is_Some (g_fs (git env args s) !! rc_directory self)) →
   ∀ s, is_Some (fs s !! rc_directory self) →
     ∃ s' n,
       fetch env self s = (Ok tt, s') ∧
       fs s' !! rc_directory self = Some n ∧ node_mtime n = clock s' ∧
       sleeps (trace s')
       = sleeps (trace s) ++ backoff env (BACKOFF_START env) (BACKOFF_COUNT env) ∧
       clock s + total_sleep (backoff env (BACKOFF_START env) (BACKOFF_COUNT env))
       ≤ clock s').
Proof.
  split; [apply fetch_returns_touched|].
  intros Hfail Hdir s Hs.
  destruct (fetch_loop_all_fail env self Hfail
              (backoff env (BACKOFF_START env) (BACKOFF_COUNT env)) s)
    as (s1 & new & Hrun & Hsl & Hgd & Hlen & Hall & Hclock & Hnil & Hcons).
  assert (is_Some (fs s1 !! rc_directory self)) as [n Hn].
  { destruct (backoff env (BACKOFF_START env) (BACKOFF_COUNT env)) as [|t ts].
    - by rewrite Hnil.
    - destruct Hcons as (args & s0 & ->); [done|]. apply Hdir. }
  exists (set_fs (insert (rc_directory self) (touch (clock s1) n)) s1), (touch (clock s1) n).
  split_and!.
  - unfold fetch. rewrite bind_run, Hrun. unfold utime, os_utime. by rewrite Hn.
  - simpl. apply lookup_insert_eq.
  - by destruct n.
  - done.
  - done.
Qed.

(** Where the redaction does its work: for a credential of more than two
    bytes that holds neither [<] nor [>], and a command line that
    [remove_git_credentials] has cleared, what [run_git] returns and
    logs of stdout and stderr is the captured output with the credential
    replaced by its first two bytes and [<XX>], no record it emits
    holds the credential, and when the redacted stderr holds "HTTP
    Basic: Access denied" it raises [HTTPUnauthorized] with that
    stderr. *)
Lemma run_git_redacts env self args s :
  let auth := rc_auth self in
  (2 < length auth)%nat → "<"%byte ∉ auth → ">"%byte ∉ auth →
  Forall (λ a, contains auth a = false) (remove_git_credentials env args) →
  ∀ stdout_data stderr_data raised,
  communicate (git env args s) = (stdout_data, stderr_data, raised) →
  ∃ r s' new,
    run_git env self args s = (r, s') ∧
    trace s' = trace s ++ new ∧
    Forall (λ x, contains auth x = false) (logged new) ∧
    match r with
    | Ok (out, err, _) =>
        out = redact auth stdout_data ∧ err = redact auth stderr_data
    | Raise e =>
        e = HTTPUnauthorized (redact auth stderr_data) ∨ e = UnicodeDecodeError ∨
        g_interrupt (git env args s) = Some e
    end ∧
    contains auth (redact auth stdout_data) = false ∧
    contains auth (redact auth stderr_data) = false ∧
    (contains denied (redact auth stderr_data) = true →
     r = Raise (HTTPUnauthorized (redact auth stderr_data))).
Proof.
  intros auth Hlen Hlt Hgt Hargs stdout_data stderr_data raised Hcomm.
  pose proof (redact_no_occurrence auth stdout_data Hlen Hlt Hgt) as Hout.
  pose proof (redact_no_occurrence auth stderr_data Hlen Hlt Hgt) as Herr.
  assert (∀ e, raised = Some e → g_interrupt (git env args s) = Some e) as Hraised.
  { unfold communicate in Hcomm. intros e ->.
    destruct (g_interrupt (git env args s)) as [e'|]; [|done].
    by destruct (is_cancel e'); simplify_eq. }
  unfold run_git. msimpl. rewrite Hcomm. fold auth. fold denied.
  unfold parse_git_output, bytes_decode.
  destruct (contains denied (redact auth stderr_data)) eqn:Hden;
    destruct (utf8_valid (redact auth stderr_data)) eqn:Hutf;
    destruct raised as [e|]; msimpl;
    try destruct (receive_bytes env _); msimpl;
    (eexists _, _, _; split; [reflexivity|]; simpl;
     split; [rewrite <-?app_assoc; reflexivity|];
     split_and!; try done;
     try (by right; right; apply Hraised);
     try (by right; left); try (by left);
     unfold logged; simpl; rewrite ?app_nil_r;
     repeat (apply Forall_app; split); repeat constructor; try done).
Qed.
Lemma mtime_run self s : mtime self s = (Ok (mtime_of self (fs s)), s).
Proof.
  unfold mtime, mtime_of, exists_, os_path_isdir, os_path_getmtime. msimpl.
  destruct (fs s !! rc_directory self) as [[]|] eqn:E; simpl; rewrite ?E; done.
Qed.

(** C7.  [update] looks at the mtime, takes the exclusive lock and
    releases it when done; holding it, it clones and then fetches when
    the directory is absent, fetches when the directory is there with
    the mtime seen before, and otherwise returns at once, having started
    no process. *)
Theorem update_double_checks_mtime env self s :
  let held := set_trace (λ t, t ++ [EvAcquire (rc_lock self) LOCK_EX])
                (set_fs (others env) s) in
  let release := set_trace (λ t, t ++ [EvRelease (rc_lock self) LOCK_EX]) in
  let before := mtime_of self (fs s) in
  let now := mtime_of self (others env (fs s)) in
  (now = None →
     update env self s
     = let '(r, s') := (clone env self;; fetch env self) held in (r, release s')) ∧
  (now ≠ None → now = before →
     update env self s = let '(r, s') := fetch env self held in (r, release s')) ∧
  (now ≠ None → now ≠ before →
     update env self s = (Ok tt, release held) ∧
     spawns (trace (release held)) = spawns (trace s)).
Proof.
  intros held release before now. subst held release before now.
  unfold update, write_lock, mtime, mtime_of, exists_, os_path_isdir, os_path_getmtime.
  msimpl.
  destruct (fs s !! rc_directory self) as [[c0 t0|t0]|] eqn:E0;
    destruct (others env (fs s) !! rc_directory self) as [[c t|t]|] eqn:E;
    repeat (simpl; rewrite ?E, ?E0);
    (split_and!; [intros; try done; simplify_eq..|intros ? Hne]);
    rewrite ?bool_decide_true by done; rewrite ?bool_decide_false by congruence;
    try done;
    try (by repeat case_match);
    try (split; [done|]; simpl; rewrite !spawns_app; unfold spawns; simpl;
         by rewrite !app_nil_r).
Qed.

Lemma update_double_checks_mtime_witness :
  update example.refreshed example.mirror example.with_mirror
  = (Ok tt, set_trace (λ t, t ++ [EvRelease (rc_lock example.mirror) LOCK_EX])
       (set_trace (λ t, t ++ [EvAcquire (rc_lock example.mirror) LOCK_EX])
          (set_fs (others example.refreshed) example.with_mirror))).
Proof.
  destruct (update_double_checks_mtime example.refreshed example.mirror
              example.with_mirror) as (_ & _ & Hskip).
  destruct Hskip as [Hrun _].
  - vm_compute. intros H. discriminate H.
  - vm_compute. intros H. discriminate H.
  - exact Hrun.
Defined.

Lemma all_commands_fail args s :
  returns example.mirror (git example.env args s) ∧
  g_returncode (git example.env args s) ≠ 0.
Proof.
  split; [split_and!; vm_compute; reflexivity|].
  vm_compute. intros H. discriminate H.
Qed.

Lemma mirror_stays args s :
  is_Some (g_fs (git example.env args s) !! rc_directory example.mirror).
Proof. exists (Dir 0). apply lookup_insert_eq. Qed.

Lemma fetch_touches_on_every_return_witness :
  ∃ s' n,
    fetch example.env example.mirror example.with_mirror = (Ok tt, s') ∧
    fs s' !! rc_directory example.mirror = Some n ∧ node_mtime n = clock s'.
Proof.
  destruct (fetch_touches_on_every_return example.env example.mirror) as [_ Hall].
  destruct (Hall all_commands_fail mirror_stays example.with_mirror)
    as (s' & n & Hrun & Hn & Hm & _).
  - exists (Dir 0). vm_compute. reflexivity.
  - exists s', n. split; [exact Hrun|]. split; [exact Hn|exact Hm].
Defined.

Lemma run_git_redacts_witness :
  ∃ r s' new,
    run_git example.env example.mirror (fetch_args example.env example.mirror)
      example.with_mirror = (r, s') ∧
    trace s' = trace example.with_mirror ++ new ∧
    Forall (λ x, contains (rc_auth example.mirror) x = false) (logged new).
Proof.
  destruct (run_git_redacts example.env example.mirror
              (fetch_args example.env example.mirror) example.with_mirror)
    with (stdout_data := @nil byte) (stderr_data := B "fatal: unable to access upstream")
         (raised := @None exn)
    as (r & s' & new & Hrun & Htrace & Hlogged & _).
  - vm_compute. lia.
  - apply (bool_decide_unpack _). vm_compute. exact I.
  - apply (bool_decide_unpack _). vm_compute. exact I.
  - apply (bool_decide_unpack _). vm_compute. exact I.
  - reflexivity.
  - exists r, s', new. split; [exact Hrun|]. split; [exact Htrace|exact Hlogged].
Defined.

(** C9.  The redaction puts a credential of one or two bytes back:
    [auth[:2] + b"<XX>"] then starts with the credential itself.  So
    when git prints such a credential on stderr, the stderr that
    [run_git] returns and the [stderr_data] of its "git_cmd done" record
    still hold it, where the claim has no record with the full
    credential. *)
Theorem run_git_leaks_short_credential env self args s :
  let auth := rc_auth self in
  let run := git env args s in
  (0 < length auth ≤ 2)%nat →
  returns self run →
  contains auth (g_stderr run) = true →
  ∃ out err s',
    run_git env self args s = (Ok (out, err, g_returncode run), s') ∧
    git_done (trace s') = git_done (trace s) ++ [(err, g_returncode run)] ∧
    contains auth err = true.
Proof.
  intros auth run Hlen Hret Hocc.
  destruct (run_git_returns env self args s Hret) as (s' & Hrun & _ & _ & _ & _ & Hgd).
  eexists _, _, s'. split; [exact Hrun|]. split; [exact Hgd|].
  by apply redact_keeps_short.
Qed.

Lemma run_git_leaks_short_credential_witness :
  ∃ out err s',
    run_git (example.world (B "u:") (B "fatal: could not read Password for 'https://u:@host'") id)
      (example.mirror_of (B "u:")) [B "fetch"] example.with_mirror
    = (Ok (out, err, 128), s') ∧
    contains (B "u:") err = true.
Proof.
  destruct (run_git_leaks_short_credential
              (example.world (B "u:")
                 (B "fatal: could not read Password for 'https://u:@host'") id)
              (example.mirror_of (B "u:")) [B "fetch"] example.with_mirror)
    as (out & err & s' & Hrun & _ & Hleak).
  - vm_compute. lia.
  - split_and!; vm_compute; reflexivity.
  - vm_compute. reflexivity.
  - exists out, err, s'. split; [exact Hrun|exact Hleak].
Defined.

(** The same happens to some credentials that hold [<] or [>], where
    the replacement text forms the credential again: the record of the
    finished command holds the credential in each of these runs. *)
Lemma short_or_bracketed_credential_leaks :
  example.leak (B "u:") (B "fatal: could not read Password for 'https://u:@host'") = true ∧
  example.leak (B "u:<") (B "fatal: unable to access 'https://u:<@host/g/p.git/'") = true ∧
  example.leak (B ">:b") (B "remote: >:b:b") = true.
Proof. vm_compute. split_and!; reflexivity. Qed.

End repo_cache_spec.

(** ** The upload-pack handler *)

Module upload_pack_spec.
Import upload_pack observe.

#[local] Arguments _do_upload_pack_try : simpl never.
#[local] Arguments _run_with_cache : simpl never.
#[local] Arguments _execute : simpl never.
#[local] Arguments repr_bytes : simpl never.
#[local] Arguments pack_cache.exists_ : simpl never.
#[local] Arguments pack_cache.send_pack : simpl never.
#[local] Arguments pack_cache.clean : simpl never.
#[local] Arguments pack_cache.PackCache_init : simpl never.

(** C6, amended.  When [git-upload-pack] has ended with a nonzero
    status, [_do_upload_pack] leaves "error" as [upload_pack_status].
    When the stderr of the process is UTF-8 and the client is still
    there, it adds to what the client was sent exactly one packet-line
    frame, [ERR] followed by that stderr, and ends as the streaming
    before it ended: it raises nothing of its own.  When the stderr is
    not UTF-8, [decode()] raises [UnicodeDecodeError], and when the
    client has gone the write raises [ConnectionResetError]: then no
    frame is written and that exception is the outcome. *)
Theorem upload_pack_error_is_reported env self data s rc :
  rcache (attrs s) = Some rc →
  let run := upload_pack_proc env (rc_directory rc) (protocol_version self)
               (input data) s in
  let spawned :=
    set_trace (λ t, t ++ [EvSpawn [B "git-upload-pack"; B "--stateless-rpc";
                                   rc_directory rc]]) s in
  let streamed := _do_upload_pack_try env self run data spawned in
  p_returncode run ≠ 0 →
  ∃ r s',
    _do_upload_pack env self data s = (r, s') ∧
    ctx s' !! "upload_pack_status" = Some (VStr (B "error")) ∧
    (utf8_valid (p_stderr run) = true → client_gone streamed.2 = false →
       r = streamed.1 ∧
       sent s' = sent streamed.2 ++ [packet_line.to_packet (B "ERR " ++ p_stderr run)]) ∧
    (utf8_valid (p_stderr run) = false →
       r = Raise UnicodeDecodeError ∧ sent s' = sent streamed.2) ∧
    (utf8_valid (p_stderr run) = true → client_gone streamed.2 = true →
       r = Raise ConnectionResetError ∧ sent s' = sent streamed.2).
Proof.
  intros Hrc run spawned streamed Hcode.
  unfold _do_upload_pack. msimpl. rewrite Hrc. msimpl. fold run. fold spawned.
  fold streamed. destruct streamed as [r s1].
  unfold _do_upload_pack_finally, _write_pack_error, writer_write,
    bind_contextvars, bytes_decode.
  msimpl. rewrite bool_decide_true by done. msimpl.
  destruct (utf8_valid (p_stderr run)); msimpl;
    [destruct (client_gone s1) eqn:Hgone; msimpl|];
    (eexists _, _; split; [reflexivity|]; simpl; split_and!; try done;
     by rewrite !lookup_insert_ne, lookup_insert_eq by done).
Qed.


#[local] Arguments serve_if_cached : simpl never.
#[local] Arguments serve_after_fill : simpl never.
#[local] Arguments fill_under_write_lock : simpl never.

Lemma fail_unless_error_recorded_run s :
  ∃ r, fail_unless_error_recorded s = (r, s) ∧
    (r = Raise (RuntimeError "Run with cache failed") ↔
       ∃ v, ctx s !! "upload_pack_status" = Some v ∧ v ≠ VStr (B "error")) ∧
    (r = Ok tt ↔ ctx s !! "upload_pack_status" = Some (VStr (B "error"))) ∧
    (r = Raise (KeyError "upload_pack_status") ↔ ctx s !! "upload_pack_status" = None).
Proof.
  unfold fail_unless_error_recorded. msimpl.
  destruct (ctx s !! "upload_pack_status") as [v|] eqn:Hv; simpl;
    [destruct v; try case_bool_decide|];
    (eexists; split; [reflexivity|]);
    (split_and!; split; intros Hx; simplify_eq; try done;
     try (by eexists; split; [done|congruence]);
     try (destruct Hx as (v' & Hv' & Hne); by simplify_eq)).
Qed.

Lemma upload_pack_error_is_reported_witness :
  ∃ s',
    _do_upload_pack example.env example.handler example.request example.serving
    = (Ok tt, s') ∧
    sent s' = [packet_line.to_packet (B "ERR fatal: git upload-pack: not our ref 0123")] ∧
    ctx s' !! "upload_pack_status" = Some (VStr (B "error")).
Proof.
  destruct (upload_pack_error_is_reported example.env example.handler example.request
              example.serving example.mirror eq_refl)
    as (r & s' & Hrun & Hctx & Hsent & _).
  - vm_compute. intros H. discriminate H.
  - destruct Hsent as [Hr Hsent]; [vm_compute; reflexivity..|].
    exists s'. rewrite Hrun, Hr. split; [vm_compute; reflexivity|].
    split; [exact Hsent|exact Hctx].
Defined.

(** C6, as stated, fails for a stderr that is not UTF-8:
    [UnicodeDecodeError] reaches the caller and the client is sent no
    frame; and when the client has gone, the write of the frame raises
    [ConnectionResetError]. *)
Lemma upload_pack_error_is_not_always_reported :
  (_do_upload_pack (example.with_upload_pack example.garbled example.env)
     example.handler example.request example.serving).1
  = Raise UnicodeDecodeError ∧
  sent (_do_upload_pack (example.with_upload_pack example.garbled example.env)
          example.handler example.request example.serving).2 = [] ∧
  (_do_upload_pack example.env example.handler example.request
     (set_attrs (set_rcache (Some example.mirror)) example.client_left)).1
  = Raise ConnectionResetError.
Proof. vm_compute. split_and!; reflexivity. Qed.


End upload_pack_spec.


(** ** Serving from the pack cache *)

Module send_pack_spec.
Import pack_cache observe.

Section send.
Variable env : Env.

Lemma stream_read_length (content : bytes) pos n :
  n ≠ 0 → (pos < length content)%nat →
  stream_read content pos n ≠ [] ∧
  (length (stream_read content pos n) ≤ length content - pos)%nat ∧
  (0 < n → Z.of_nat (length (stream_read content pos n)) ≤ n).
Proof.
  intros Hn Hpos. unfold stream_read.
  assert (drop pos content ≠ []) as Hd.
  { intros H. apply (f_equal length) in H. rewrite length_drop in H. simpl in H. lia. }
  destruct (n <? 0) eqn:Hneg.
  - apply Z.ltb_lt in Hneg. rewrite length_drop. split_and!; [done|lia|lia].
  - apply Z.ltb_ge in Hneg. rewrite length_take, length_drop. split_and!; [|lia|lia].
    destruct (drop pos content) as [|c l]; [done|].
    destruct (Z.to_nat n) eqn:Hz; [lia|done].
Qed.

Lemma stream_read_prefix (content : bytes) pos n :
  drop pos content
  = stream_read content pos n ++ drop (pos + length (stream_read content pos n)) content
  ∨ n = 0.
Proof.
  unfold stream_read. destruct (n <? 0) eqn:Hneg.
  - left. rewrite length_drop.
    rewrite (drop_ge content (pos + _)) by lia. by rewrite app_nil_r.
  - left. rewrite <-drop_drop. rewrite length_take.
    set (d := drop pos content).
    destruct (decide (Z.to_nat n ≤ length d)%nat).
    + rewrite Nat.min_l by done. by rewrite take_drop.
    + rewrite Nat.min_r by lia. rewrite take_ge by lia.
      rewrite drop_all. by rewrite app_nil_r.
Qed.

Lemma stream_read_end (content : bytes) pos n :
  (length content ≤ pos)%nat → stream_read content pos n = [].
Proof.
  intros Hpos. unfold stream_read. rewrite drop_ge by lia.
  by destruct (_ <? _); [|rewrite take_nil].
Qed.

(** A file is read as a stream is, from the size [-1] on; a size below
    that is refused. *)
Lemma f_read_ok (content : bytes) pos n :
  -1 ≤ n → f_read content pos n = Ok (stream_read content pos n).
Proof.
  intros Hn. unfold f_read, stream_read.
  destruct (Z.ltb_spec n (-1)) as [?|_]; [lia|]. by destruct (n <? 0).
Qed.

Lemma f_read_refused (content : bytes) pos n :
  n < -1 → f_read content pos n = Raise ValueError.
Proof.
  intros Hn. unfold f_read. by destruct (Z.ltb_spec n (-1)) as [_|?]; [|lia].
Qed.

(** The loop of [send_pack] with the client there: it writes the rest of
    the file, chunk by chunk, and counts it. *)
Lemma send_loop_connected status (content : bytes) :
  PACK_CACHE_CHUNK_SIZE env ≠ 0 →
  -1 ≤ PACK_CACHE_CHUNK_SIZE env →
  ∀ rounds pos count s,
    (length content - pos < rounds)%nat →
    client_gone s = false →
    ∃ s' new,
      send_loop env status rounds content pos count s
      = (Ok (count + Z.of_nat (length content - pos), None), s') ∧
      sent s' = sent s ++ new ∧
      concat new = drop pos content ∧
      Forall (λ c, c ≠ [] ∧
                   (0 < PACK_CACHE_CHUNK_SIZE env →
                    Z.of_nat (length c) ≤ PACK_CACHE_CHUNK_SIZE env)) new ∧
      fs s' = fs s ∧ clock s' = clock s ∧ attrs s' = attrs s ∧
      (∀ k, k ≠ "upload_pack_progress" → ctx s' !! k = ctx s !! k) ∧
      spawns (trace s') = spawns (trace s) ∧
      locks_taken (trace s') = locks_taken (trace s).
Proof.
  intros Hn Hmin.
  induction rounds as [|rounds IH]; intros pos count s Hrounds Hgone; [exfalso; lia|].
  cbn [send_loop]. rewrite f_read_ok by done.
  destruct (decide (pos < length content)%nat) as [Hpos|Hpos].
  - destruct (stream_read_length content pos _ Hn Hpos) as (Hne & Hle & Hmax).
    destruct (stream_read_prefix content pos (PACK_CACHE_CHUNK_SIZE env)) as [Hsplit|?];
      [|done].
    set (data := stream_read content pos (PACK_CACHE_CHUNK_SIZE env)) in *.
    assert (0 < length data)%nat as Hlen by (destruct data; [done|simpl; lia]).
    unfold bind_contextvars, writer_write. msimpl.
    rewrite bool_decide_false by done. msimpl. rewrite Hgone.
    match goal with |- context [send_loop _ _ _ _ ?p ?c ?s1] =>
      destruct (IH p c s1)
        as (s' & new & -> & Hsent & Hcat & Hall & Hfs & Hclock & Hattrs & Hctx & Hsp & Hlk)
    end; [lia|done|].
    exists s', (data :: new). simpl in *. split_and!.
    + do 3 f_equal. lia.
    + by rewrite Hsent, <-app_assoc.
    + by rewrite Hcat.
    + by constructor.
    + done.
    + done.
    + done.
    + intros k Hk. rewrite Hctx by done. by rewrite lookup_insert_ne.
    + rewrite Hsp, spawns_app. simpl. by rewrite app_nil_r.
    + rewrite Hlk, locks_taken_app. simpl. by rewrite app_nil_r.
  - rewrite stream_read_end by lia.
    unfold bind_contextvars. msimpl.
    exists (set_ctx (insert "upload_pack_progress"
                       (VDict [("date", VInt (clock s)); ("sent", VInt (count + 0))])) s), [].
    simpl. split_and!; try done.
    + do 3 f_equal. lia.
    + by rewrite app_nil_r.
    + by rewrite drop_ge by lia.
    + intros k Hk. by rewrite lookup_insert_ne.
Qed.

(** The same loop when the connection has been reset: the first write
    fails, the loop ends, and the chunk it had read has been counted. *)
Lemma send_loop_reset status (content : bytes) rounds count s :
  -1 ≤ PACK_CACHE_CHUNK_SIZE env →
  client_gone s = true →
  ∃ s',
    send_loop env status (S rounds) content 0 count s
    = (Ok (count + Z.of_nat (length (stream_read content 0 (PACK_CACHE_CHUNK_SIZE env))),
           None), s') ∧
    sent s' = sent s ∧ fs s' = fs s ∧ clock s' = clock s ∧ attrs s' = attrs s ∧
    spawns (trace s') = spawns (trace s) ∧
    (∀ k, k ≠ "upload_pack_progress" → ctx s' !! k = ctx s !! k).
Proof.
  intros Hmin Hgone. cbn [send_loop]. rewrite f_read_ok by done.
  set (data := stream_read content 0 (PACK_CACHE_CHUNK_SIZE env)).
  unfold bind_contextvars, writer_write. msimpl.
  case_bool_decide as Hd.
  - eexists. split; [reflexivity|]. simpl. split_and!; try done.
    intros k Hk. by rewrite lookup_insert_ne.
  - msimpl. rewrite Hgone. msimpl.
    eexists. split; [reflexivity|]. simpl. split_and!; try done.
    + rewrite spawns_app. simpl. by rewrite app_nil_r.
    + intros k Hk. by rewrite lookup_insert_ne.
Qed.

(** The loop with a chunk size below [-1]: the first read is refused. *)
Lemma send_loop_refused status (content : bytes) rounds count s :
  PACK_CACHE_CHUNK_SIZE env < -1 →
  send_loop env status (S rounds) content 0 count s = (Ok (count, Some ValueError), s).
Proof. intros Hn. cbn [send_loop]. by rewrite f_read_refused. Qed.

End send.

#[local] Arguments send_loop : simpl never.

Lemma send_pack_connected env self w s content t :
  fs s !! pc_filename self = Some (File content t) →
  client_gone s = false →
  PACK_CACHE_CHUNK_SIZE env ≠ 0 →
  -1 ≤ PACK_CACHE_CHUNK_SIZE env →
  ∃ s' new,
    send_pack env self w s = (Ok tt, s') ∧
    sent s' = sent s ++ new ∧
    concat new = content ∧
    Forall (λ c, c ≠ [] ∧
                 (0 < PACK_CACHE_CHUNK_SIZE env →
                  Z.of_nat (length c) ≤ PACK_CACHE_CHUNK_SIZE env)) new ∧
    fs s' = <[pc_filename self := File content (clock s)]> (fs s) ∧
    ctx s' !! "complete_send_pack" = Some (VBool true) ∧
    ctx s' !! "upload_pack_status"
    = Some (VStr (if hit (attrs s) then B "hit" else B "miss")) ∧
    attrs s' = attrs s ∧
    spawns (trace s') = spawns (trace s) ∧
    locks_taken (trace s') = locks_taken (trace s).
Proof.
  intros Hfile Hgone Hn Hmin.
  unfold send_pack, size, stat_size, read_file, bind_contextvars, os_utime. msimpl.
  rewrite Hfile. msimpl. rewrite Hfile.
  match goal with |- context [send_loop _ ?st ?r _ ?p ?c ?s1] =>
    destruct (send_loop_connected env st content Hn Hmin r p c s1)
      as (s' & new & -> & Hsent & Hcat & Hall & Hfs & Hclock & Hattrs & Hctx & Hsp & Hlk)
  end; [lia|done|].
  simpl in *. rewrite Hfs, Hfile. rewrite bool_decide_true by lia.
  simpl. rewrite Hfs, Hfile.
  eexists _, new. split; [reflexivity|]. simpl. split_and!; try done.
  - by rewrite Hclock, Hfs.
  - apply lookup_insert_eq.
  - rewrite lookup_insert_ne by done. rewrite Hctx by done.
    rewrite lookup_insert_ne by done. apply lookup_insert_eq.
  - rewrite Hsp, spawns_app. simpl. by rewrite app_nil_r.
  - rewrite Hlk, locks_taken_app. simpl. by rewrite app_nil_r.
Qed.

(** X1.  When the cache file is there and the client stays connected,
    [send_pack], with a chunk size that is -1 or positive, returns after
    it has written the whole file to the client, in order, in chunks
    that are not empty and no longer than a positive chunk size; it
    records [complete_send_pack] as true and [upload_pack_status] as
    "hit" or "miss" after [self.hit], sets the mtime of the file to the
    current time and touches no other file. *)
Theorem send_pack_streams_whole_file env self w s content t :
  fs s !! pc_filename self = Some (File content t) →
  client_gone s = false →
  PACK_CACHE_CHUNK_SIZE env ≠ 0 →
  -1 ≤ PACK_CACHE_CHUNK_SIZE env →
  ∃ s' new,
    send_pack env self w s = (Ok tt, s') ∧
    sent s' = sent s ++ new ∧
    concat new = content ∧
    Forall (λ c, c ≠ [] ∧
                 (0 < PACK_CACHE_CHUNK_SIZE env →
                  Z.of_nat (length c) ≤ PACK_CACHE_CHUNK_SIZE env)) new ∧
    fs s' !! pc_filename self = Some (File content (clock s)) ∧
    (∀ p, p ≠ pc_filename self → fs s' !! p = fs s !! p) ∧
    ctx s' !! "complete_send_pack" = Some (VBool true) ∧
    ctx s' !! "upload_pack_status"
    = Some (VStr (if hit (attrs s) then B "hit" else B "miss")).
Proof.
  intros Hfile Hgone Hn Hmin.
  destruct (send_pack_connected env self w s content t Hfile Hgone Hn Hmin)
    as (s' & new & Hrun & Hsent & Hcat & Hall & Hfs & Hcomplete & Hstatus & _).
  exists s', new. split_and!; try done.
  - rewrite Hfs. apply lookup_insert_eq.
  - intros p Hp. rewrite Hfs. by apply lookup_insert_ne.
Qed.

Lemma stream_read_whole (content : bytes) n :
  length (stream_read content 0 n) = length content ↔ n < 0 ∨ Z.of_nat (length content) ≤ n.
Proof.
  unfold stream_read. rewrite drop_0. destruct (n <? 0) eqn:Hneg.
  - apply Z.ltb_lt in Hneg. split; [by left|done].
  - apply Z.ltb_ge in Hneg. rewrite length_take. split; intros H; [right|]; lia.
Qed.

(** X2.  When the cache file is there and the connection is already
    reset, [send_pack], with a chunk size of -1 or more, still returns
    normally: nothing is written to the client, the mtime of the file is
    set to the current time all the same, and since the chunk is counted
    before it is written, [complete_send_pack] is recorded as true
    exactly when the first read takes in the whole file: the chunk size
    is -1 or the file is no longer than the chunk size. *)
Theorem send_pack_connection_reset env self w s content t :
  fs s !! pc_filename self = Some (File content t) →
  client_gone s = true →
  -1 ≤ PACK_CACHE_CHUNK_SIZE env →
  ∃ s',
    send_pack env self w s = (Ok tt, s') ∧
    sent s' = sent s ∧
    fs s' = <[pc_filename self := File content (clock s)]> (fs s) ∧
    ctx s' !! "complete_send_pack"
    = Some (VBool (bool_decide (PACK_CACHE_CHUNK_SIZE env = -1 ∨
                                Z.of_nat (length content) ≤ PACK_CACHE_CHUNK_SIZE env))).
Proof.
  intros Hfile Hgone Hmin.
  unfold send_pack, size, stat_size, read_file, bind_contextvars, os_utime. msimpl.
  rewrite Hfile. msimpl. rewrite Hfile.
  match goal with |- context [send_loop _ ?st (S ?r) _ _ ?c ?s1] =>
    destruct (send_loop_reset env st content r c s1)
      as (s' & -> & Hsent & Hfs & Hclock & Hattrs & Hspawns & Hctx)
  end; [done|done|].
  simpl in *. rewrite Hfs, Hfile. simpl. rewrite Hfs, Hfile.
  eexists. split; [reflexivity|]. simpl. split_and!; try done.
  - by rewrite Hclock, Hfs.
  - rewrite lookup_insert_eq. do 2 f_equal. apply bool_decide_ext.
    pose proof (stream_read_whole content (PACK_CACHE_CHUNK_SIZE env)). lia.
Qed.

(** X28.  When the cache file is there and the chunk size is below
    -1, the first [f.read] is refused: [send_pack] raises [ValueError],
    the client is sent nothing, the files and the mtime of the entry
    stay as they were, and [complete_send_pack] is recorded as true
    exactly when the file is empty. *)
Theorem send_pack_refuses_chunk_size env self w s content t :
  fs s !! pc_filename self = Some (File content t) →
  PACK_CACHE_CHUNK_SIZE env < -1 →
  ∃ s',
    send_pack env self w s = (Raise ValueError, s') ∧
    sent s' = sent s ∧ fs s' = fs s ∧
    ctx s' !! "complete_send_pack" = Some (VBool (bool_decide (content = []))).
Proof.
  intros Hfile Hn.
  unfold send_pack, size, stat_size, read_file, bind_contextvars, os_utime. msimpl.
  rewrite Hfile. msimpl. rewrite Hfile.
  rewrite send_loop_refused by done. msimpl. rewrite Hfile. msimpl.
  assert (bool_decide (Z.of_nat (length content) = 0) = bool_decide (content = [])) as Hempty.
  { apply bool_decide_ext. destruct content; simpl; split; intros; try done; lia. }
  destruct (bool_decide (Z.of_nat (length content) ≠ 0)); msimpl; rewrite ?Hfile; msimpl;
    (eexists; split; [reflexivity|]; simpl; split_and!; try done;
     by rewrite lookup_insert_eq, Hempty).
Qed.

Lemma write_chunks_attrs p chunks :
  ∀ s, attrs (for_each (f_write p) chunks s).2 = attrs s ∧
       ctx (for_each (f_write p) chunks s).2 = ctx s ∧
       trace (for_each (f_write p) chunks s).2 = trace s.
Proof.
  induction chunks as [|x chunks IH]; intros s; [done|].
  cbn [for_each]. unfold mbind, M_bind. unfold f_write at 1 3 5.
  destruct (fs s !! p) as [[c t|t]|];
    destruct (IH (set_fs (insert p (File (c ++ x) (clock s))) s)) as (-> & -> & ->) ||
    destruct (IH s) as (-> & -> & ->); done.
Qed.

#[local] Arguments for_each : simpl never.
#[local] Arguments pack_cache.f_write : simpl never.
#[local] Arguments pack_cache.open_wb : simpl never.

(** What a [cache_pack] that meets no exception leaves. *)
Lemma cache_pack_kept self stream stream_writer s chunks :
  (∀ t, fs s !! pc_filename self ≠ Some (Dir t)) →
  packet_line.PacketLineChunkParser stream = (chunks, None) →
  ∃ s1,
    cache_pack self stream stream_writer s = (Ok tt, s1) ∧
    fs s1 = <[pc_filename self := File (concat chunks) (clock s)]> (fs s) ∧
    clock s1 = clock s ∧ sent s1 = sent s ∧ client_gone s1 = client_gone s ∧
    attrs s1 = set_hit false (attrs s) ∧ ctx s1 = ctx s ∧
    spawns (trace s1) = spawns (trace s) ∧
    locks_taken (trace s1) = locks_taken (trace s).
Proof.
  intros Hnd Hparse. set (p := pc_filename self) in *.
  unfold cache_pack. rewrite Hparse. fold p. msimpl.
  match goal with |- context [open_wb p ?s0] =>
    assert (open_wb p s0 = (Ok tt, set_fs (insert p (File [] (clock s0))) s0)) as ->;
    [unfold open_wb; simpl; destruct (fs s !! p) as [[|t]|] eqn:E;
       [done|by destruct (Hnd t)|done]|];
    pose proof (write_chunks_attrs p chunks
                  (set_fs (insert p (File [] (clock s0))) s0)) as (Hattrs & Hctx & Htrace);
    destruct (pack_cache_spec.write_chunks p chunks
                (set_fs (insert p (File [] (clock s0))) s0) [])
      as (s1 & Hrun & Hfs & Hclock & Hsent & Hgone); [simpl; apply lookup_insert_eq|]
  end.
  rewrite Hrun in Hattrs, Hctx, Htrace |- *. simpl in *. rewrite insert_insert_eq in Hfs.
  exists s1. split_and!; try done.
  - rewrite Htrace, spawns_app. simpl. by rewrite app_nil_r.
  - rewrite Htrace, locks_taken_app. simpl. by rewrite app_nil_r.
Qed.

(** What a [cache_pack] leaves when the parser ends with an exception
    and the client is there to take what had been written. *)
Lemma cache_pack_aborted self stream w s chunks e :
  (∀ t, fs s !! pc_filename self ≠ Some (Dir t)) →
  packet_line.PacketLineChunkParser stream = (chunks, Some e) →
  is_Exception e = true →
  client_gone s = false →
  ∃ s1,
    cache_pack self stream (Some w) s = (Ok tt, s1) ∧
    fs s1 = delete (pc_filename self) (fs s) ∧
    clock s1 = clock s ∧ sent s1 = sent s ++ [concat chunks] ∧
    client_gone s1 = false ∧
    attrs s1 = set_hit false (attrs s) ∧ ctx s1 = ctx s ∧
    spawns (trace s1) = spawns (trace s) ∧
    locks_taken (trace s1) = locks_taken (trace s).
Proof.
  intros Hnd Hparse He Hgone. set (p := pc_filename self) in *.
  unfold cache_pack. rewrite Hparse. fold p. rewrite He. msimpl.
  match goal with |- context [open_wb p ?s0] =>
    assert (open_wb p s0 = (Ok tt, set_fs (insert p (File [] (clock s0))) s0)) as ->;
    [unfold open_wb; simpl; destruct (fs s !! p) as [[|t]|] eqn:E;
       [done|by destruct (Hnd t)|done]|];
    pose proof (write_chunks_attrs p chunks
                  (set_fs (insert p (File [] (clock s0))) s0)) as (Hattrs & Hctx & Htrace);
    destruct (pack_cache_spec.write_chunks p chunks
                (set_fs (insert p (File [] (clock s0))) s0) [])
      as (s1 & Hrun & Hfs & Hclock & Hsent & Hgone1); [simpl; apply lookup_insert_eq|]
  end.
  rewrite Hrun in Hattrs, Hctx, Htrace |- *. simpl in *. rewrite insert_insert_eq in Hfs.
  unfold unlink_ignoring_missing, os_unlink, read_file, writer_write. msimpl.
  repeat (simpl; rewrite ?Hfs, ?lookup_insert_eq, ?Hgone1, ?Hgone).
  eexists. split; [reflexivity|]. simpl.
  split_and!; try done;
    try (by rewrite Hgone1); try (by rewrite Hsent);
    try (by rewrite Hfs, delete_insert_eq).
  - rewrite ?spawns_app, ?Htrace, ?spawns_app. simpl. by rewrite ?app_nil_r.
  - rewrite ?locks_taken_app, ?Htrace, ?locks_taken_app. simpl. by rewrite ?app_nil_r.
Qed.


End send_pack_spec.

(** ** The cleaner with a target that is not positive *)

Module cleaner_edge_spec.
Import pack_cache observe.

Lemma sum_sizes_nonneg l : Forall (λ f, 0 ≤ st_size f) l → 0 ≤ sum_sizes l.
Proof. induction 1 as [|f l Hf _ IH]; simpl; lia. Qed.

(** With a target of zero or less the loop never stops by itself: it
    pops until the list is empty and pops once more. *)
Lemma evict_loop_exhausts max_size total_size :
  max_size ≤ 0 →
  ∀ all_files rm_size to_delete,
    Forall (λ f, 0 ≤ st_size f) all_files →
    total_size - rm_size = sum_sizes all_files →
    evict_loop (length all_files) max_size total_size rm_size all_files to_delete
    = Raise IndexError.
Proof.
  intros Hmax. induction all_files as [|f l IH] using rev_ind;
    intros rm_size to_delete Hsizes Hsum.
  - simpl in *. rewrite bool_decide_true by lia. done.
  - apply Forall_app in Hsizes as [Hl Hf]. rewrite Forall_singleton in Hf.
    pose proof (sum_sizes_nonneg l Hl) as Hnonneg.
    rewrite cleaner_spec.sum_sizes_app in Hsum. simpl in Hsum.
    rewrite length_app, Nat.add_1_r. cbn [evict_loop].
    rewrite bool_decide_true by lia.
    rewrite cleaner_spec.pop_snoc. apply IH; [done|lia].
Qed.

#[local] Arguments sum_sizes : simpl never.
#[local] Arguments sort_mtime_reverse : simpl never.
#[local] Arguments evict_loop : simpl never.

(** X5.  With a target of zero or less (as [PACK_CACHE_SIZE_GB=0]
    gives) and an absolute cache directory that is there, [_clean_task]
    never evicts: its loop pops every entry and then pops from the empty
    list, so it raises [IndexError] before any file is locked or
    deleted. *)
Theorem clean_task_nonpositive_target env self s t :
  max_size self ≤ 0 →
  B "/" `prefix_of` cache_dir self →
  fs s !! cache_dir self = Some (Dir t) →
  ∃ s',
    _clean_task env self s = (Raise IndexError, s') ∧
    fs s' = fs s ∧
    locks_taken (trace s') = locks_taken (trace s).
Proof.
  intros Hmax Habs Hdir.
  pose proof (λ rest, cleaner_spec.clean_task_scans env self s t rest Habs Hdir) as Hscan.
  pose proof (cleaner_spec.cache_file_sizes env (cache_dir self) (fs s)) as Hsizes.
  set (all_files := cache_files env (cache_dir self) (fs s)) in *.
  pose proof (sum_sizes_nonneg all_files Hsizes) as Hnonneg.
  assert (evict_loop (length (sort_mtime_reverse all_files)) (max_size self)
            (sum_sizes all_files) 0 (sort_mtime_reverse all_files) []
          = Raise IndexError) as Hloop.
  { apply evict_loop_exhausts; [done| |].
    - by rewrite (cleaner_spec.sort_mtime_reverse_perm all_files).
    - rewrite (cleaner_spec.sum_sizes_perm _ _ (cleaner_spec.sort_mtime_reverse_perm all_files)).
      lia. }
  unfold _clean_task. rewrite Hscan. msimpl.
  rewrite bool_decide_false by lia. msimpl. rewrite Hloop.
  eexists. split; [reflexivity|]. simpl.
  rewrite !locks_taken_app. simpl. rewrite !app_nil_r. done.
Qed.

Lemma clean_task_nonpositive_target_witness :
  (_clean_task example.env
     (mkPackCacheCleaner (B "/w/pack_cache") 0 (B "/w/pack_cache/clean.lock"))
     example.with_cache).1 = Raise IndexError.
Proof.
  destruct (clean_task_nonpositive_target example.env
              (mkPackCacheCleaner (B "/w/pack_cache") 0 (B "/w/pack_cache/clean.lock"))
              example.with_cache 0) as (s' & Hrun & _).
  - simpl. lia.
  - vm_compute. by eexists.
  - vm_compute. reflexivity.
  - by rewrite Hrun.
Defined.

End cleaner_edge_spec.

(** ** Which files count as cache entries *)

Module exists_spec.
Import pack_cache observe.

(** X4.  For a cache path that is no directory and holds no file of
    one to three bytes, [exists()] raises nothing, changes neither the
    files nor what the client was sent nor the context, and returns true
    exactly when the file is there and ends with [0000]. *)
Theorem exists_iff_ends_with_flush self s :
  (∀ t, fs s !! pc_filename self ≠ Some (Dir t)) →
  (∀ content t, fs s !! pc_filename self = Some (File content t) →
                content = [] ∨ (4 ≤ length content)%nat) →
  ∃ b s',
    exists_ self s = (Ok b, s') ∧
    fs s' = fs s ∧ sent s' = sent s ∧ ctx s' = ctx s ∧
    (b = true ↔ ∃ content t, fs s !! pc_filename self = Some (File content t) ∧
                             B "0000" `suffix_of` content).
Proof.
  intros Hnd Hlen.
  destruct (fs s !! pc_filename self) as [[content t|t]|] eqn:Hfile.
  - destruct (Hlen content t eq_refl) as [->|Hlong].
    + rewrite (pack_cache_spec.exists_empty self s t Hfile).
      exists false, s. split_and!; try done. split; [done|].
      intros (content & t' & ? & [k Hk]); simplify_eq.
      by destruct k.
    + rewrite (pack_cache_spec.exists_long self s content t Hfile Hlong).
      case_bool_decide as Hflush.
      * exists true, s. split_and!; try done. split; [|done]. intros _. by exists content, t.
      * eexists false, _. split; [done|]. simpl. split_and!; try done.
        split; [done|]. intros (content' & t' & ? & ?). by simplify_eq.
  - by destruct (Hnd t).
  - rewrite (pack_cache_spec.exists_absent self s Hfile).
    exists false, s. split_and!; try done. split; [done|]. by intros (? & ? & ? & ?).
Qed.

End exists_spec.

(** ** The repo cache when the upstream answers *)

Module repo_cache_up_spec.
Import repo_cache observe.

Section up.
Variable env : Env.
Variable self : RepoCache.

Lemma fetch_loop_cons t timeouts :
  fetch_loop env self (t :: timeouts)
  = ('(_, _, returncode) ← run_git env self (fetch_args env self);
     if bool_decide (returncode = 0) then mret tt
     else
       log "warning" "fetch failed, trying again" [("timeout", VInt t)];;
       sleep t;;
       fetch_loop env self timeouts).
Proof. reflexivity. Qed.

Lemma clone_loop_cons bundle_lock bundle_file t timeouts last :
  clone_loop env self bundle_lock bundle_file (t :: timeouts) last
  = (has_bundle ← os_path_exists bundle_file;
     '(last, done) ←
       (if has_bundle : bool then
          with_lock (set_fs (others env)) bundle_lock LOCK_SH
            ('(_, stderr, returncode) ← run_git env self (bundle_args env self bundle_file);
             if bool_decide (returncode = 0)
             then mret (Some (stderr, returncode), true)
             else os_unlink bundle_file;; mret (Some (stderr, returncode), false))
        else mret (last, false));
     if done : bool then mret last
     else
       there ← exists_ self;
       (if there : bool then rm_rf (rc_directory self) else mret tt);;
       '(_, stderr, returncode) ← run_git env self (clone_args env self);
       if bool_decide (returncode = 0) then mret (Some (stderr, returncode))
       else
         log "warning" "clone failed, trying again" [("timeout", VInt t)];;
         sleep t;;
         clone_loop env self bundle_lock bundle_file timeouts (Some (stderr, returncode))).
Proof. reflexivity. Qed.

(** [run_git] leaves alone what the client was sent, the context and
    the attributes, and takes no lock. *)
Lemma run_git_frame args s :
  let s' := (run_git env self args s).2 in
  sent s' = sent s ∧ ctx s' = ctx s ∧ attrs s' = attrs s ∧
  client_gone s' = client_gone s ∧
  locks_taken (trace s') = locks_taken (trace s).
Proof.
  unfold run_git. msimpl.
  destruct (communicate (git env args s)) as [[stdout_data stderr_data] raised].
  unfold parse_git_output, bytes_decode.
  destruct (contains _ (redact (rc_auth self) stderr_data));
    destruct (utf8_valid (redact (rc_auth self) stderr_data));
    destruct raised as [e|]; msimpl;
    try destruct (receive_bytes env _); msimpl;
    rewrite ?locks_taken_app; simpl; rewrite ?app_nil_r; done.
Qed.

(** A [fetch] whose first command succeeds. *)
Lemma fetch_first_success s t timeouts n :
  let run := git env (fetch_args env self) s in
  backoff env (BACKOFF_START env) (BACKOFF_COUNT env) = t :: timeouts →
  returns self run →
  g_returncode run = 0 →
  g_fs run !! rc_directory self = Some n →
  ∃ s',
    fetch env self s = (Ok tt, s') ∧
    spawns (trace s') = spawns (trace s) ++ [B "git" :: fetch_args env self] ∧
    sleeps (trace s') = sleeps (trace s) ∧
    clock s' = clock s + Z.max 0 (g_elapsed run) ∧
    fs s' = <[rc_directory self := touch (clock s') n]> (g_fs run) ∧
    sent s' = sent s ∧
    locks_taken (trace s') = locks_taken (trace s).
Proof.
  intros run Hback Hret Hrc Hn.
  unfold fetch. rewrite Hback, fetch_loop_cons, !bind_run.
  destruct (repo_cache_spec.run_git_returns env self (fetch_args env self) s Hret)
    as (s1 & Hrun & Hfs & Hclock & Hsl & Hsp & Hgd).
  fold run in Hrun, Hfs, Hclock. rewrite Hrun. cbn beta iota.
  rewrite bool_decide_true by done. cbn.
  unfold utime, os_utime. rewrite Hfs, Hn.
  destruct (run_git_frame (fetch_args env self) s) as (Hsent & _ & _ & _ & Hlocks).
  rewrite Hrun in Hsent, Hlocks. simpl in Hsent, Hlocks.
  eexists. split; [reflexivity|]. simpl. rewrite Hfs. split_and!; done.
Qed.

(** A [clone] whose first command succeeds. *)
Lemma clone_up s :
  let bundle_file := (get_bundle_paths env (rc_path self)).2 in
  let stale := match fs s !! rc_directory self with Some (Dir _) => true | _ => false end in
  (∀ args s, returns self (git env args s) ∧ g_returncode (git env args s) = 0) →
  backoff env (BACKOFF_START env) (BACKOFF_COUNT env) ≠ [] →
  ∃ s',
    clone env self s = (Ok tt, s') ∧
    sleeps (trace s') = sleeps (trace s) ∧
    spawns (trace s')
    = spawns (trace s) ++
      (if bool_decide (is_Some (fs s !! bundle_file))
       then [B "git" :: bundle_args env self bundle_file]
       else (if stale then [[B "rm"; B "-rf"; rc_directory self]] else []) ++
            [B "git" :: clone_args env self]) ∧
    sent s' = sent s ∧
    locks_taken (trace s') = locks_taken (trace s).
Proof.
  intros bundle_file stale Hup Hback. unfold clone.
  destruct (get_bundle_paths env (rc_path self)) as [[x bundle_lock] bf] eqn:Hpaths.
  simpl in bundle_file. subst bundle_file.
  destruct (backoff env (BACKOFF_START env) (BACKOFF_COUNT env)) as [|t timeouts]; [done|].
  rewrite clone_loop_cons. unfold os_path_exists. msimpl.
  case_bool_decide as Hbundle.
  - match goal with |- context [run_git env self ?a ?s2] =>
      destruct (Hup a s2) as [Hret Hrc];
      destruct (run_git_frame a s2) as (Hsent & _ & _ & _ & Hlocks);
      destruct (repo_cache_spec.run_git_returns env self a s2 Hret)
        as (s3 & Hrun & Hfs & Hclock & Hsl & Hsp & Hgd)
    end.
    rewrite Hrun in Hsent, Hlocks |- *. rewrite Hrc. simpl in *.
    eexists. split; [reflexivity|]. simpl.
    rewrite !sleeps_app, !spawns_app, !locks_taken_app, Hsl, Hsp, Hsent, Hlocks. simpl.
    rewrite !sleeps_app, !spawns_app, !locks_taken_app. simpl. by rewrite !app_nil_r.
  - unfold exists_, os_path_isdir, rm_rf. msimpl. fold stale.
    destruct stale; msimpl;
      match goal with |- context [run_git env self ?a ?s2] =>
        destruct (Hup a s2) as [Hret Hrc];
        destruct (run_git_frame a s2) as (Hsent & _ & _ & _ & Hlocks);
        destruct (repo_cache_spec.run_git_returns env self a s2 Hret)
          as (s3 & Hrun & Hfs & Hclock & Hsl & Hsp & Hgd)
      end;
      rewrite Hrun in Hsent, Hlocks |- *; rewrite Hrc; simpl;
      (eexists; split; [reflexivity|]); simpl in *;
      rewrite ?sleeps_app, ?spawns_app, ?locks_taken_app in *; simpl in *;
      rewrite ?app_nil_r, <-?app_assoc in *; done.
Qed.

End up.

(** X6.  When the first [git fetch] ends with status 0, [fetch]
    starts no second command and does not sleep; it then sets the mtime
    of the mirror directory to the current time and leaves every other
    path as git left it, and raises [FileNotFoundError] from [utime] if
    git left no directory. *)
Theorem fetch_stops_at_first_success env self s t timeouts :
  let run := git env (fetch_args env self) s in
  backoff env (BACKOFF_START env) (BACKOFF_COUNT env) = t :: timeouts →
  returns self run →
  g_returncode run = 0 →
  (∀ n, g_fs run !! rc_directory self = Some n →
     ∃ s',
       fetch env self s = (Ok tt, s') ∧
       spawns (trace s') = spawns (trace s) ++ [B "git" :: fetch_args env self] ∧
       sleeps (trace s') = sleeps (trace s) ∧
       fs s' !! rc_directory self = Some (touch (clock s') n) ∧
       (∀ p, p ≠ rc_directory self → fs s' !! p = g_fs run !! p)) ∧
  (g_fs run !! rc_directory self = None →
     ∃ s', fetch env self s = (Raise FileNotFoundError, s') ∧
           spawns (trace s') = spawns (trace s) ++ [B "git" :: fetch_args env self]).
Proof.
  intros run Hback Hret Hrc. split.
  - intros n Hn.
    destruct (fetch_first_success env self s t timeouts n Hback Hret Hrc Hn)
      as (s' & Hrun & Hsp & Hsl & Hclock & Hfs & _).
    exists s'. split_and!; try done.
    + rewrite Hfs. apply lookup_insert_eq.
    + intros p Hp. rewrite Hfs. by apply lookup_insert_ne.
  - intros Hnone. unfold fetch. rewrite Hback, fetch_loop_cons, !bind_run.
    destruct (repo_cache_spec.run_git_returns env self (fetch_args env self) s Hret)
      as (s1 & Hrun & Hfs & Hclock & Hsl & Hsp & Hgd).
    fold run in Hrun, Hfs. rewrite Hrun. cbn beta iota.
    rewrite bool_decide_true by done. cbn.
    unfold utime, os_utime. rewrite Hfs, Hnone. by exists s1.
Qed.

(** X7.  When git succeeds, [clone] returns after one git command
    and without sleeping: the clone of the bundle file when there is one
    (the upstream URL is not used and nothing is removed), and otherwise
    the clone of the URL, preceded by [rm -rf] of the directory exactly
    when a directory is there. *)
Theorem clone_succeeds_with_one_command env self s :
  let bundle_file := (get_bundle_paths env (rc_path self)).2 in
  (∀ args s, returns self (git env args s) ∧ g_returncode (git env args s) = 0) →
  backoff env (BACKOFF_START env) (BACKOFF_COUNT env) ≠ [] →
  ∃ s',
    clone env self s = (Ok tt, s') ∧
    sleeps (trace s') = sleeps (trace s) ∧
    (is_Some (fs s !! bundle_file) →
       spawns (trace s')
       = spawns (trace s) ++ [B "git" :: bundle_args env self bundle_file]) ∧
    (fs s !! bundle_file = None →
       (∀ t, fs s !! rc_directory self = Some (Dir t) →
          spawns (trace s')
          = spawns (trace s) ++ [[B "rm"; B "-rf"; rc_directory self];
                                 B "git" :: clone_args env self]) ∧
       ((∀ t, fs s !! rc_directory self ≠ Some (Dir t)) →
          spawns (trace s') = spawns (trace s) ++ [B "git" :: clone_args env self])).
Proof.
  intros bundle_file Hup Hback.
  destruct (clone_up env self s Hup Hback) as (s' & Hrun & Hsl & Hsp & _).
  fold bundle_file in Hsp.
  exists s'. split_and!; try done.
  - intros Hsome. by rewrite bool_decide_true in Hsp.
  - intros Hnone. rewrite bool_decide_false in Hsp by (rewrite Hnone; by intros [??]).
    split.
    + intros t Ht. by rewrite Ht in Hsp.
    + intros Hnd. destruct (fs s !! rc_directory self) as [[c t|t]|]; try done.
      by destruct (Hnd t).
Qed.

(** X9.  [update] on a mirror that is absent once the exclusive lock
    is held, with no bundle file and an upstream that answers: it runs
    exactly [git clone] and then [git fetch], never sleeps, took the
    exclusive lock once, and leaves the mirror directory with the
    current time as its mtime. *)
Theorem update_populates_missing_mirror env self s :
  let bundle_file := (get_bundle_paths env (rc_path self)).2 in
  (∀ args s, returns self (git env args s) ∧ g_returncode (git env args s) = 0) →
  (∀ s0, is_Some (g_fs (git env (fetch_args env self) s0) !! rc_directory self)) →
  backoff env (BACKOFF_START env) (BACKOFF_COUNT env) ≠ [] →
  mtime_of self (others env (fs s)) = None →
  others env (fs s) !! bundle_file = None →
  ∃ s' n,
    update env self s = (Ok tt, s') ∧
    spawns (trace s')
    = spawns (trace s) ++ [B "git" :: clone_args env self; B "git" :: fetch_args env self] ∧
    sleeps (trace s') = sleeps (trace s) ∧
    locks_taken (trace s') = locks_taken (trace s) ++ [rc_lock self] ∧
    fs s' !! rc_directory self = Some n ∧ node_mtime n = clock s'.
Proof.
  intros bundle_file Hup Hdir Hback Hnow Hbundle.
  unfold update. rewrite bind_run, repo_cache_spec.mtime_run. cbn beta iota.
  unfold write_lock, exists_, os_path_isdir. msimpl.
  assert (match others env (fs s) !! rc_directory self with
          | Some (Dir _) => true | _ => false end = false) as Hstale.
  { unfold mtime_of in Hnow. by destruct (others env (fs s) !! rc_directory self) as [[]|]. }
  rewrite Hstale. simpl.
  set (held := set_trace (λ t, t ++ [EvAcquire (rc_lock self) LOCK_EX])
                 (set_fs (others env) s)).
  destruct (clone_up env self held Hup Hback) as (s1 & -> & Hsl1 & Hsp1 & Hsent1 & Hlocks1).
  fold bundle_file in Hsp1. simpl in Hsp1.
  rewrite Hbundle, Hstale in Hsp1.
  rewrite bool_decide_false in Hsp1 by (by intros [??]). simpl in Hsp1.
  destruct (backoff env (BACKOFF_START env) (BACKOFF_COUNT env)) as [|t timeouts] eqn:Hb;
    [done|].
  destruct (Hup (fetch_args env self) s1) as [Hret Hrc].
  destruct (Hdir s1) as [n Hn].
  destruct (fetch_first_success env self s1 t timeouts n Hb Hret Hrc Hn)
    as (s2 & -> & Hsp2 & Hsl2 & Hclock2 & Hfs2 & Hsent2 & Hlocks2).
  eexists _, (touch (clock s2) n). split; [reflexivity|]. simpl. split_and!.
  - rewrite spawns_app, Hsp2, Hsp1. unfold held. simpl. rewrite spawns_app. simpl.
    by rewrite !app_nil_r, <-app_assoc.
  - rewrite sleeps_app, Hsl2, Hsl1. unfold held. simpl. rewrite sleeps_app. simpl.
    by rewrite !app_nil_r.
  - rewrite locks_taken_app, Hlocks2, Hlocks1. unfold held. simpl.
    rewrite locks_taken_app. simpl. by rewrite !app_nil_r.
  - rewrite Hfs2. apply lookup_insert_eq.
  - by destruct n.
Qed.

Section bundle.
Variable env : Env.
Variable self : RepoCache.
Variables bundle_lock bundle_file : bytes.
Hypothesis Hfail : ∀ args s,
  returns self (git env args s) ∧ g_returncode (git env args s) ≠ 0.
Hypothesis Hgit_bundle : ∀ args s,
  g_fs (git env args s) !! bundle_file = fs s !! bundle_file.
Hypothesis Hdistinct : bundle_file ≠ rc_directory self.

(** The rounds of [clone] with no bundle file: one failed command
    each, and no bundle file afterwards. *)
Lemma clone_loop_without_bundle timeouts :
  ∀ s last, fs s !! bundle_file = None →
  ∃ s' new,
    clone_loop env self bundle_lock bundle_file timeouts last s
    = (Ok (still last new), s') ∧
    fs s' !! bundle_file = None ∧
    git_done (trace s') = git_done (trace s) ++ new ∧
    length new = length timeouts ∧
    Forall (λ x, x.2 ≠ 0 ∧ utf8_valid x.1 = true) new.
Proof.
  induction timeouts as [|t timeouts IH]; intros s last Hnone.
  { exists s, []. simpl. by rewrite app_nil_r. }
  rewrite clone_loop_cons. unfold os_path_exists. msimpl.
  rewrite bool_decide_false by (rewrite Hnone; by intros [??]).
  unfold exists_, os_path_isdir, rm_rf. msimpl.
  set (there := match fs s !! rc_directory self with Some (Dir _) => true | _ => false end).
  assert (∀ s2, fs s2 !! bundle_file = None → git_done (trace s2) = git_done (trace s) →
    ∃ s' new,
      (let (r0, s'1) := run_git env self (clone_args env self) s2 in
       match r0 with
       | Ok a0 =>
           (let '(_, stderr, returncode) := a0 in
            if bool_decide (returncode = 0)
            then λ s0 : State, (Ok (Some (stderr, returncode)), s0)
            else
              λ s0 : State,
                clone_loop env self bundle_lock bundle_file timeouts
                  (Some (stderr, returncode))
                  (set_clock (λ c : Z, c + 0 `max` t)
                     (set_trace (λ t0 : list event, t0 ++ [EvSleep t])
                        (set_trace
                           (λ t0 : list event,
                              t0 ++ [EvLog "warning" "clone failed, trying again"
                                       [("timeout", VInt t)]])
                           s0))))
             s'1
       | Raise e => (Raise e, s'1)
       end) = (Ok (still last new), s') ∧
      fs s' !! bundle_file = None ∧
      git_done (trace s') = git_done (trace s) ++ new ∧
      length new = S (length timeouts) ∧
      Forall (λ x, x.2 ≠ 0 ∧ utf8_valid x.1 = true) new) as Hround.
  { intros s2 Hnone2 Hgd2.
    destruct (Hfail (clone_args env self) s2) as [Hret Hrc].
    destruct (repo_cache_spec.run_git_returns env self (clone_args env self) s2 Hret)
      as (s3 & -> & Hfs & Hclock & Hsl & Hsp & Hgd).
    rewrite bool_decide_false by done.
    match goal with |- context [clone_loop _ _ _ _ _ ?l ?s4] =>
      destruct (IH s4 l) as (s' & new & -> & Hnone' & Hgd' & Hlen & Hall) end.
    { simpl. by rewrite Hfs, Hgit_bundle. }
    set (x := (redact (rc_auth self) (g_stderr (git env (clone_args env self) s2)),
               g_returncode (git env (clone_args env self) s2))) in *.
    exists s', (x :: new). split_and!.
    - f_equal. f_equal. unfold still. destruct new as [|y new]; [done|].
      rewrite last_cons_cons.
      destruct (list.last (y :: new)) eqn:E; [done|]. by apply last_None in E.
    - done.
    - rewrite Hgd'. simpl. rewrite !git_done_app, Hgd, Hgd2. simpl.
      by rewrite ?app_nil_r, <-?app_assoc.
    - simpl. by rewrite Hlen.
    - constructor; [|done]. destruct Hret as (_ & _ & Hutf). done. }
  destruct there; apply Hround; simpl; try done.
  - by rewrite lookup_delete_ne.
  - rewrite git_done_app. simpl. by rewrite app_nil_r.
Qed.

Hypothesis Hothers_bundle : ∀ m, others env m !! bundle_file = m !! bundle_file.

(** The first round when a bundle file is there and cannot be cloned:
    it is unlinked, and the rounds go on as without one. *)
Lemma clone_loop_drops_bundle t timeouts s last content t0 :
  fs s !! bundle_file = Some (File content t0) →
  ∃ s' new,
    clone_loop env self bundle_lock bundle_file (t :: timeouts) last s
    = (Ok (still last new), s') ∧
    fs s' !! bundle_file = None ∧
    git_done (trace s') = git_done (trace s) ++ new ∧
    length new = S (S (length timeouts)) ∧
    Forall (λ x, x.2 ≠ 0 ∧ utf8_valid x.1 = true) new.
Proof.
  intros Hfile.
  rewrite clone_loop_cons. unfold os_path_exists. msimpl.
  rewrite bool_decide_true by (by rewrite Hfile).
  match goal with |- context [run_git env self ?a ?s2] =>
    destruct (Hfail a s2) as [Hret Hrc];
    destruct (repo_cache_spec.run_git_returns env self a s2 Hret)
      as (s3 & -> & Hfs & Hclock & Hsl & Hsp & Hgd);
    set (b := (redact (rc_auth self) (g_stderr (git env a s2)),
               g_returncode (git env a s2))) in *
  end.
  rewrite bool_decide_false by done.
  unfold os_unlink. rewrite Hfs, Hgit_bundle. simpl.
  rewrite Hothers_bundle, Hfile. simpl.
  (* the rest of the round is a round without a bundle *)
  match goal with |- context [(if _ then rm_rf _ else _) ?s5] =>
    destruct (clone_loop_without_bundle (t :: timeouts) s5 (Some b))
      as (s' & new & Hloop & Hnone' & Hgd' & Hlen & Hall);
    [simpl; apply lookup_delete_eq|]
  end.
  rewrite clone_loop_cons in Hloop. unfold os_path_exists in Hloop.
  revert Hloop. msimpl. rewrite lookup_delete_eq.
  rewrite bool_decide_false by (by intros [??]).
  unfold exists_, os_path_isdir. msimpl. intros ->.
  exists s', (b :: new). split_and!.
  - f_equal. f_equal. unfold still. destruct new as [|y new]; [done|].
    rewrite last_cons_cons.
    destruct (list.last (y :: new)) eqn:E; [done|]. by apply last_None in E.
  - done.
  - rewrite Hgd'. simpl. rewrite !git_done_app, Hgd. simpl. rewrite !git_done_app. simpl.
    by rewrite ?app_nil_r, <-?app_assoc.
  - simpl. by rewrite Hlen.
  - constructor; [|done]. destruct Hret as (_ & _ & Hutf). done.
Qed.

End bundle.

(** X8.  When a bundle file is there and every git command fails,
    [clone] unlinks the bundle after the first failed attempt on it and
    does not try it again: git has run once more than there are
    timeouts, the bundle file is gone at the end, and [clone] raises
    [HTTPInternalServerError]. *)
Theorem unusable_bundle_is_removed env self s content t0 :
  let timeouts := backoff env (BACKOFF_START env) (BACKOFF_COUNT env) in
  let bundle_file := (get_bundle_paths env (rc_path self)).2 in
  (∀ args s, returns self (git env args s) ∧ g_returncode (git env args s) ≠ 0) →
  (∀ args s, g_fs (git env args s) !! bundle_file = fs s !! bundle_file) →
  (∀ m, others env m !! bundle_file = m !! bundle_file) →
  bundle_file ≠ rc_directory self →
  timeouts ≠ [] →
  fs s !! bundle_file = Some (File content t0) →
  ∃ s' err new,
    clone env self s = (Raise (HTTPInternalServerError err), s') ∧
    fs s' !! bundle_file = None ∧
    git_done (trace s') = git_done (trace s) ++ new ∧
    length new = S (length timeouts).
Proof.
  intros timeouts bundle_file Hfail Hgit Hothers Hdistinct Hne Hfile. unfold clone.
  destruct (get_bundle_paths env (rc_path self)) as [[x bundle_lock] bf] eqn:Hpaths.
  simpl in bundle_file. subst bundle_file. fold timeouts.
  destruct timeouts as [|t timeouts']; [done|].
  destruct (clone_loop_drops_bundle env self bundle_lock bf Hfail Hgit Hdistinct Hothers
              t timeouts' s None content t0 Hfile)
    as (s' & new & Hloop & Hnone & Hgd & Hlen & Hall).
  rewrite bind_run, Hloop. cbn beta iota. unfold still.
  destruct (list.last new) as [[err rc]|] eqn:Hlast.
  - apply last_Some in Hlast as [new' ->].
    apply Forall_app in Hall as [_ Hall]. rewrite Forall_singleton in Hall.
    destruct Hall as [Hrc Hutf]. simpl in Hrc, Hutf.
    rewrite bool_decide_true by done.
    rewrite bind_run. unfold lift_res, bytes_decode. rewrite Hutf. cbn beta iota.
    exists s', err, (new' ++ [(err, rc)]). split_and!; done.
  - apply last_None in Hlast. subst new. simpl in Hlen. lia.
Qed.

End repo_cache_up_spec.

(** ** The retry schedule of [clone] and [fetch] *)

Module retry_spec.
Import repo_cache observe.

Section retry.
Variable env : Env.
Variable self : RepoCache.
Hypothesis Hfail : ∀ args s,
  returns self (git env args s) ∧ g_returncode (git env args s) ≠ 0.




Variables bundle_lock bundle_file : bytes.
Hypothesis Hgit_bundle : ∀ args s,
  g_fs (git env args s) !! bundle_file = fs s !! bundle_file.


Hypothesis Hothers_bundle : ∀ m, others env m !! bundle_file = m !! bundle_file.


End retry.




End retry_spec.

(** ** The handler's smaller steps *)

Module handler_spec.
Import upload_pack observe.

Section flush.
Variable env : Env.

(** The loop of [_flush_to_writer] with the client there. *)
Lemma flush_loop_connected (stream : bytes) :
  CHUNK_SIZE env ≠ 0 →
  ∀ rounds pos s,
    (length stream - pos < rounds)%nat →
    client_gone s = false →
    ∃ new,
      flush_loop env rounds stream pos s = (Ok tt, set_sent (λ l, l ++ new) s) ∧
      concat new = drop pos stream ∧
      Forall (λ c, c ≠ [] ∧
                   (0 < CHUNK_SIZE env → Z.of_nat (length c) ≤ CHUNK_SIZE env)) new.
Proof.
  intros Hn. induction rounds as [|rounds IH]; intros pos s Hrounds Hgone; [exfalso; lia|].
  cbn [flush_loop].
  destruct (decide (pos < length stream)%nat) as [Hpos|Hpos].
  - destruct (send_pack_spec.stream_read_length stream pos _ Hn Hpos) as (Hne & Hle & Hmax).
    destruct (send_pack_spec.stream_read_prefix stream pos (CHUNK_SIZE env)) as [Hsplit|?]; [|done].
    set (chunk := stream_read stream pos (CHUNK_SIZE env)) in *.
    assert (0 < length chunk)%nat as Hlen by (destruct chunk; [done|simpl; lia]).
    rewrite bool_decide_false by done.
    unfold writer_write. msimpl. rewrite Hgone.
    match goal with |- context [flush_loop _ _ _ ?p ?s1] =>
      destruct (IH p s1) as (new & -> & Hcat & Hall) end; [lia|done|].
    exists (chunk :: new). split_and!.
    + f_equal. destruct s. unfold set_sent. simpl. by rewrite <-app_assoc.
    + simpl. by rewrite Hcat.
    + by constructor.
  - assert (stream_read stream pos (CHUNK_SIZE env) = []) as ->.
    { unfold stream_read. rewrite drop_ge by lia.
      by destruct (_ <? _); [|rewrite take_nil]. }
    rewrite bool_decide_true by done.
    exists []. split_and!.
    + msimpl. f_equal. destruct s. unfold set_sent. simpl. by rewrite app_nil_r.
    + by rewrite drop_ge by lia.
    + done.
Qed.

End flush.

(** X10.  With the client connected and a chunk size other than 0,
    [_flush_to_writer] writes the whole stream to the client, in order,
    in chunks that are not empty and no longer than a positive chunk
    size, and changes nothing else. *)
Theorem flush_to_writer_sends_everything env self stream s :
  client_gone s = false →
  CHUNK_SIZE env ≠ 0 →
  ∃ new,
    _flush_to_writer env self stream s = (Ok tt, set_sent (λ l, l ++ new) s) ∧
    concat new = stream ∧
    Forall (λ c, c ≠ [] ∧
                 (0 < CHUNK_SIZE env → Z.of_nat (length c) ≤ CHUNK_SIZE env)) new.
Proof.
  intros Hgone Hn. unfold _flush_to_writer.
  destruct (flush_loop_connected env stream Hn (S (length stream)) 0 s) as (new & Hrun & Hcat & Hall);
    [lia|done|].
  exists new. rewrite drop_0 in Hcat. done.
Qed.

(** X11.  [_flush_to_writer] writes nothing and returns when the
    stream is empty or [CHUNK_SIZE] is 0 (the first read is empty and
    ends the loop); on a stream that is not empty it raises
    [ConnectionResetError], with nothing written, when the connection is
    reset. *)
Theorem flush_to_writer_sends_nothing env self stream s :
  (CHUNK_SIZE env = 0 ∨ stream = [] →
     _flush_to_writer env self stream s = (Ok tt, s)) ∧
  (CHUNK_SIZE env ≠ 0 → stream ≠ [] → client_gone s = true →
     _flush_to_writer env self stream s = (Raise ConnectionResetError, s)).
Proof.
  unfold _flush_to_writer. cbn [flush_loop]. split.
  - intros Hzero.
    assert (stream_read stream 0 (CHUNK_SIZE env) = []) as ->; [|done].
    unfold stream_read. destruct Hzero as [->| ->]; [done|].
    destruct (_ <? _); simpl; [done|by rewrite take_nil].
  - intros Hn Hne Hgone.
    destruct (send_pack_spec.stream_read_length stream 0 _ Hn) as (Hchunk & _).
    { destruct stream; [done|simpl; lia]. }
    rewrite bool_decide_false by done.
    unfold writer_write. msimpl. by rewrite Hgone.
Qed.

(** X12.  [input_to_ctx] binds [input_details] to the dictionary
    without its keys [wants], [haves] and [caps]: these three are never
    in the context, every other key keeps its value, and the order of
    the entries is kept. *)
Theorem input_to_ctx_drops_negotiation dict_input s :
  ∃ kept,
    input_to_ctx dict_input s = (Ok tt, set_ctx (insert "input_details" (VDict kept)) s) ∧
    kept `sublist_of` dict_input ∧
    (∀ k, k ∈ ["wants"; "haves"; "caps"] → field k kept = None) ∧
    (∀ k, k ∉ ["wants"; "haves"; "caps"] → field k kept = field k dict_input).
Proof.
  assert (∀ (bad k : string) (l : list (string * pyval)),
            field k (filter (λ kv, kv.1 ≠ bad) l)
            = if bool_decide (k = bad) then None else field k l) as Hfilter.
  { intros bad k l. induction l as [|[k' v] l IH]; simpl.
    - by case_bool_decide.
    - rewrite filter_cons. simpl.
      destruct (decide (k' ≠ bad)) as [Hk|Hk]; simpl; rewrite IH;
        repeat case_bool_decide; simplify_eq; done. }
  eexists. split; [reflexivity|]. split_and!.
  - etrans; [apply sublist_filter|]. etrans; apply sublist_filter.
  - intros k Hk. rewrite !Hfilter.
    repeat case_bool_decide; try done. set_unfold. intuition congruence.
  - intros k Hk. rewrite !Hfilter.
    repeat case_bool_decide; try done; set_unfold; intuition congruence.
Qed.

Lemma repr_byte_printable quote c :
  quote = "'"%byte ∨ quote = Byte.x22 →
  Forall (λ b, (0x20 ≤ Byte.to_N b < 0x7f)%N) (repr_byte quote c) ∧
  (length (repr_byte quote c) ≤ 4)%nat.
Proof.
  intros Hquote. unfold repr_byte.
  case_bool_decide as Hc.
  - split; [|simpl; lia].
    destruct Hc as [->| ->]; [destruct Hquote as [->| ->]|];
      vm_compute; repeat constructor; done.
  - clear Hc Hquote. destruct c; vm_compute; (split; [repeat constructor; done|lia]).
Qed.

(** X13.  The [repr] of a bytes object, which [run] puts into the
    error message for a malformed input, consists of printable ASCII
    characters only and is at most four times as long as the input plus
    three; so the payload of the [ERR] frame for a malformed input is at
    most 544 bytes, however long the input is. *)
Theorem repr_bytes_printable x :
  Forall (λ b, (0x20 ≤ Byte.to_N b < 0x7f)%N) (repr_bytes x) ∧
  (length (repr_bytes x) ≤ 4 * length x + 3)%nat ∧
  (length (B "ERR Wrong upload pack input: " ++ repr_bytes (take 128 x)) ≤ 544)%nat.
Proof.
  assert (∀ y, Forall (λ b, (0x20 ≤ Byte.to_N b < 0x7f)%N) (repr_bytes y) ∧
               (length (repr_bytes y) ≤ 4 * length y + 3)%nat) as Hrepr.
  { intros y. unfold repr_bytes.
    set (quote := if bool_decide (_ ∧ _) then _ else _).
    assert (quote = "'"%byte ∨ quote = Byte.x22) as Hquote.
    { unfold quote. case_bool_decide; [by right|by left]. }
    assert ((0x20 ≤ Byte.to_N quote < 0x7f)%N) as Hq.
    { destruct Hquote as [->| ->]; vm_compute; split; done. }
    assert ((0x20 ≤ Byte.to_N "b"%byte < 0x7f)%N) as Hb by (vm_compute; split; done).
    generalize dependent quote. intros quote Hquote Hq.
    change (B "b") with ["b"%byte]. simpl.
    assert (Forall (λ b, (0x20 ≤ Byte.to_N b < 0x7f)%N)
              (concat (map (repr_byte quote) y)) ∧
            (length (concat (map (repr_byte quote) y)) ≤ 4 * length y)%nat) as [Hp Hl].
    { induction y as [|c y [IHp IHl]]; [split; [done|simpl; lia]|].
      destruct (repr_byte_printable quote c Hquote) as [Hp Hl]. simpl.
      split; [by apply Forall_app|]. rewrite length_app. simpl in *. lia. }
    split.
    - apply Forall_cons. split; [done|]. apply Forall_cons. split; [done|].
      apply Forall_app. split; [done|]. by apply Forall_singleton.
    - rewrite length_app. simpl. lia. }
  destruct (Hrepr x) as [Hp Hl]. split_and!; [done|done|].
  destruct (Hrepr (take 128 x)) as [_ Hl128].
  rewrite length_app. rewrite length_take in Hl128.
  change (length (B "ERR Wrong upload pack input: ")) with 29%nat. lia.
Qed.

Section do_upload_pack.
Variable env : Env.

#[local] Arguments flush_loop : simpl never.

(** [_do_upload_pack] without a pack cache, when the process ends
    well. *)
Lemma do_upload_pack_run self data s rc :
  let run := upload_pack_proc env (rc_directory rc) (protocol_version self)
               (input data) s in
  rcache (attrs s) = Some rc →
  pcache (attrs s) = None →
  p_returncode run = 0 →
  p_stdin_error run = None ∨ p_stdin_error run = Some BrokenPipeError →
  client_gone s = false →
  CHUNK_SIZE env ≠ 0 →
  ∃ s' new,
    _do_upload_pack env self data s = (Ok tt, s') ∧
    sent s' = sent s ++ new ∧
    concat new = p_stdout run ∧
    ctx s' = ctx s ∧ fs s' = fs s ∧
    spawns (trace s')
    = spawns (trace s) ++ [[B "git-upload-pack"; B "--stateless-rpc"; rc_directory rc]] ∧
    locks_taken (trace s') = locks_taken (trace s) ∧
    attrs s' = attrs s.
Proof.
  intros run Hrc Hpc Hcode Hstdin Hgone Hn.
  unfold _do_upload_pack. msimpl. rewrite Hrc. msimpl. fold run.
  unfold _do_upload_pack_try, _do_upload_pack_finally, gather, write_input,
    _flush_to_writer. msimpl.
  rewrite Hpc, Hcode. rewrite bool_decide_false by (intros H; by apply H).
  destruct Hstdin as [->| ->]; msimpl;
    match goal with |- context [flush_loop _ ?r ?st ?p ?s1] =>
      destruct (flush_loop_connected env st Hn r p s1) as (new & -> & Hcat & _);
      [lia|done|]
    end;
    rewrite drop_0 in Hcat;
    (eexists _, new; split; [reflexivity|]); simpl;
    rewrite !spawns_app, !locks_taken_app; simpl; rewrite ?app_nil_r; done.
Qed.

#[local] Arguments pack_cache.cache_pack : simpl never.

(** [_do_upload_pack] with a pack cache, when the process ends well and
    its output parses up to a flush. *)
Lemma do_upload_pack_caches self data s rc pc chunks :
  let run := upload_pack_proc env (rc_directory rc) (protocol_version self)
               (input data) s in
  rcache (attrs s) = Some rc →
  pcache (attrs s) = Some pc →
  p_returncode run = 0 →
  p_stdin_error run = None ∨ p_stdin_error run = Some BrokenPipeError →
  (∀ t, fs s !! pc_filename pc ≠ Some (Dir t)) →
  packet_line.PacketLineChunkParser (p_stdout run) = (chunks, None) →
  ∃ s',
    _do_upload_pack env self data s = (Ok tt, s') ∧
    fs s' = <[pc_filename pc := File (concat chunks) (clock s)]> (fs s) ∧
    sent s' = sent s ∧ client_gone s' = client_gone s ∧
    attrs s' = set_hit false (attrs s) ∧ ctx s' = ctx s ∧
    spawns (trace s')
    = spawns (trace s) ++ [[B "git-upload-pack"; B "--stateless-rpc"; rc_directory rc]] ∧
    locks_taken (trace s') = locks_taken (trace s).
Proof.
  intros run Hrc Hpc Hcode Hstdin Hnd Hparse.
  unfold _do_upload_pack. msimpl. rewrite Hrc. msimpl. fold run.
  unfold _do_upload_pack_try, _do_upload_pack_finally, gather, write_input. msimpl.
  rewrite Hpc, Hcode. rewrite bool_decide_false by (intros H; by apply H).
  destruct Hstdin as [->| ->]; msimpl;
    match goal with |- context [pack_cache.cache_pack pc ?st ?w ?s1] =>
      destruct (send_pack_spec.cache_pack_kept pc st w s1 chunks)
        as (s2 & -> & Hfs & Hclock & Hsent & Hgone & Hattrs & Hctx & Hsp & Hlk);
      [done|done|]
    end;
    (eexists; split; [reflexivity|]); simpl in *;
    rewrite ?spawns_app, ?locks_taken_app, ?Hsp, ?Hlk, ?spawns_app, ?locks_taken_app;
    simpl; rewrite ?app_nil_r; done.
Qed.

(** [_do_upload_pack] with a pack cache, when the process fails and its
    output does not parse up to a flush. *)
Lemma do_upload_pack_fails self data s rc pc chunks e :
  let run := upload_pack_proc env (rc_directory rc) (protocol_version self)
               (input data) s in
  rcache (attrs s) = Some rc →
  pcache (attrs s) = Some pc →
  p_returncode run ≠ 0 →
  utf8_valid (p_stderr run) = true →
  p_stdin_error run = None ∨ p_stdin_error run = Some BrokenPipeError →
  (∀ t, fs s !! pc_filename pc ≠ Some (Dir t)) →
  packet_line.PacketLineChunkParser (p_stdout run) = (chunks, Some e) →
  is_Exception e = true →
  client_gone s = false →
  ∃ s',
    _do_upload_pack env self data s = (Ok tt, s') ∧
    fs s' = delete (pc_filename pc) (fs s) ∧
    sent s' = sent s ++ [concat chunks; packet_line.to_packet (B "ERR " ++ p_stderr run)] ∧
    client_gone s' = false ∧
    attrs s' = set_hit false (attrs s) ∧
    ctx s' !! "upload_pack_status" = Some (VStr (B "error")) ∧
    spawns (trace s')
    = spawns (trace s) ++ [[B "git-upload-pack"; B "--stateless-rpc"; rc_directory rc]] ∧
    locks_taken (trace s') = locks_taken (trace s).
Proof.
  intros run Hrc Hpc Hcode Hutf Hstdin Hnd Hparse He Hgone.
  unfold _do_upload_pack. msimpl. rewrite Hrc. msimpl. fold run.
  unfold _do_upload_pack_try, _do_upload_pack_finally, gather, write_input,
    _write_pack_error, writer_write, bind_contextvars, bytes_decode. msimpl.
  rewrite Hpc. rewrite bool_decide_true by done. rewrite Hutf.
  destruct Hstdin as [->| ->]; msimpl;
    match goal with |- context [pack_cache.cache_pack pc ?st (Some ?w) ?s1] =>
      destruct (send_pack_spec.cache_pack_aborted pc st w s1 chunks e)
        as (s2 & -> & Hfs & Hclock & Hsent & Hgone2 & Hattrs & Hctx & Hsp & Hlk);
      [done|done|done|done|]
    end;
    simpl; rewrite Hgone2;
    (eexists; split; [reflexivity|]); simpl in *;
    rewrite ?spawns_app, ?locks_taken_app, ?Hsp, ?Hlk, ?spawns_app, ?locks_taken_app,
      ?Hsent;
    simpl; rewrite ?app_nil_r, <-?app_assoc;
    split_and!; try done;
    by rewrite !lookup_insert_ne, lookup_insert_eq by done.
Qed.

(** X14.  Without a pack cache, when [git-upload-pack] exits with
    status 0, the client is connected, [CHUNK_SIZE] is not 0 and writing
    to stdin met nothing worse than [BrokenPipeError], [_do_upload_pack]
    returns after it has streamed exactly the stdout of the process to
    the client; it writes no [ERR] frame, leaves [upload_pack_status]
    and the files as they were, and has started that one process. *)
Theorem upload_pack_streams_stdout self data s rc :
  let run := upload_pack_proc env (rc_directory rc) (protocol_version self)
               (input data) s in
  rcache (attrs s) = Some rc →
  pcache (attrs s) = None →
  p_returncode run = 0 →
  p_stdin_error run = None ∨ p_stdin_error run = Some BrokenPipeError →
  client_gone s = false →
  CHUNK_SIZE env ≠ 0 →
  ∃ s' new,
    _do_upload_pack env self data s = (Ok tt, s') ∧
    sent s' = sent s ++ new ∧
    concat new = p_stdout run ∧
    ctx s' !! "upload_pack_status" = ctx s !! "upload_pack_status" ∧
    fs s' = fs s ∧
    spawns (trace s')
    = spawns (trace s) ++ [[B "git-upload-pack"; B "--stateless-rpc"; rc_directory rc]].
Proof.
  intros run Hrc Hpc Hcode Hstdin Hgone Hn.
  destruct (do_upload_pack_run self data s rc Hrc Hpc Hcode Hstdin Hgone Hn)
    as (s' & new & Hrun & Hsent & Hcat & Hctx & Hfs & Hsp & _).
  exists s', new. split_and!; try done. by rewrite Hctx.
Qed.

(** X15.  When the mirror directory is not there once the shared
    lock is held, [_upload_pack] returns normally without starting
    [git-upload-pack]: the client is sent nothing and the context is
    unchanged. *)
Theorem upload_pack_without_mirror self parsed_input s rc :
  rcache (attrs s) = Some rc →
  mtime_of rc (others env (fs s)) = None →
  ∃ s',
    _upload_pack env self parsed_input s = (Ok tt, s') ∧
    spawns (trace s') = spawns (trace s) ∧
    sent s' = sent s ∧ ctx s' = ctx s ∧
    fs s' = others env (fs s).
Proof.
  intros Hrc Hnow.
  unfold _upload_pack, repo_cache.read_lock, repo_cache.exists_, os_path_isdir.
  msimpl. rewrite Hrc. msimpl.
  assert (match others env (fs s) !! rc_directory rc with
          | Some (Dir _) => true | _ => false end = false) as ->.
  { unfold mtime_of in Hnow. by destruct (others env (fs s) !! rc_directory rc) as [[]|]. }
  eexists. split; [reflexivity|]. simpl.
  rewrite !spawns_app. simpl. by rewrite !app_nil_r.
Qed.

#[local] Arguments repo_cache.update : simpl never.
#[local] Arguments repo_cache.read_lock : simpl never.

(** [_ensure_input_wants_in_rcache] when [cat-file] finds every want. *)
Lemma ensure_wants_present_run self rc wants stdout s t :
  rcache (attrs s) = Some rc →
  fs s !! rc_directory rc = Some (Dir t) →
  (∀ s0, cat_file_proc env (rc_directory rc) wants s0 = Communicated (Ok stdout)) →
  contains (B "missing") stdout = false →
  ∃ s',
    _ensure_input_wants_in_rcache env self wants s = (Ok tt, s') ∧
    attrs s' = set_rcache_hit true (attrs s) ∧
    fs s' = others env (fs s) ∧
    locks_taken (trace s') = locks_taken (trace s) ∧
    spawns (trace s')
    = spawns (trace s) ++ [[B "git"; B "cat-file"; B "--batch-check"; B "--no-buffer"]] ∧
    sent s' = sent s ∧ client_gone s' = client_gone s ∧ ctx s' = ctx s ∧
    clock s' = clock s.
Proof.
  intros Hrc Hdir Hcat Hmissing.
  unfold _ensure_input_wants_in_rcache, _missing_want, repo_cache.read_lock,
    repo_cache.cat_file, repo_cache.exists_, os_path_isdir.
  msimpl. rewrite Hrc. msimpl. rewrite Hdir. msimpl. rewrite Hcat. msimpl.
  rewrite Hmissing. msimpl.
  eexists. split; [reflexivity|]. simpl.
  rewrite ?locks_taken_app, ?spawns_app. simpl. rewrite ?app_nil_r. done.
Qed.

(** X16.  When the mirror directory is there and [git cat-file]
    answers: if its output does not hold "missing",
    [_ensure_input_wants_in_rcache] returns with [rcache_hit] set, has
    started only [git cat-file], has taken no exclusive lock and has
    written nothing to the client; if it does, the call goes on as
    [update], with [rcache_hit] untouched. *)
Theorem wants_in_mirror_need_no_update self rc wants stdout s t :
  rcache (attrs s) = Some rc →
  fs s !! rc_directory rc = Some (Dir t) →
  (∀ s0, cat_file_proc env (rc_directory rc) wants s0 = Communicated (Ok stdout)) →
  (contains (B "missing") stdout = false →
     ∃ s',
       _ensure_input_wants_in_rcache env self wants s = (Ok tt, s') ∧
       rcache_hit (attrs s') = true ∧
       fs s' = others env (fs s) ∧
       locks_taken (trace s') = locks_taken (trace s) ∧
       spawns (trace s')
       = spawns (trace s) ++ [[B "git"; B "cat-file"; B "--batch-check"; B "--no-buffer"]] ∧
       sent s' = sent s) ∧
  (contains (B "missing") stdout = true →
     ∃ s1,
       _ensure_input_wants_in_rcache env self wants s = repo_cache.update env rc s1 ∧
       fs s1 = others env (fs s) ∧
       attrs s1 = attrs s ∧
       locks_taken (trace s1) = locks_taken (trace s)).
Proof.
  intros Hrc Hdir Hcat. split; intros Hmissing.
  - destruct (ensure_wants_present_run self rc wants stdout s t Hrc Hdir Hcat Hmissing)
      as (s' & Hrun & Hattrs & Hfs & Hlocks & Hsp & Hsent & _).
    exists s'. split_and!; try done. by rewrite Hattrs.
  - unfold _ensure_input_wants_in_rcache, _missing_want, repo_cache.read_lock,
      repo_cache.cat_file, repo_cache.exists_, os_path_isdir.
    msimpl. rewrite Hrc. msimpl. rewrite Hdir. msimpl. rewrite Hcat. msimpl.
    rewrite Hmissing. msimpl.
    eexists. split; [reflexivity|]. simpl.
    rewrite ?locks_taken_app. simpl. rewrite ?app_nil_r. done.
Qed.

(** X17.  The handler's [_ensure_input_wants_in_rcache] and
    [RepoCache.ensure_input_wants] agree: same outcome, and the same
    final state but for [rcache_hit], which only the handler sets, and
    only when it returns normally. *)
Theorem handler_check_agrees_with_repo_cache self rc wants s :
  rcache (attrs s) = Some rc →
  let a := repo_cache.ensure_input_wants env rc wants s in
  let b := _ensure_input_wants_in_rcache env self wants s in
  b.1 = a.1 ∧
  (b.2 = a.2 ∨ b.2 = set_attrs (set_rcache_hit true) a.2 ∧ a.1 = Ok tt).
Proof.
  intros Hrc a b. subst a b.
  unfold _ensure_input_wants_in_rcache, repo_cache.ensure_input_wants,
    _missing_want, repo_cache._missing_want, repo_cache.exists_, os_path_isdir.
  msimpl. rewrite Hrc. msimpl.
  destruct (fs s !! rc_directory rc) as [[c t|t]|]; simpl; try (by split; [|left]).
  destruct (repo_cache.read_lock env rc _ s) as [[[]|e] s1]; simpl.
  - by split; [|left].
  - split; [done|]. by right.
  - by split; [|left].
Qed.

End do_upload_pack.

End handler_spec.

(** ** Whole requests *)

Module request_spec.
Import upload_pack observe.

Section request.
Variable env : Env.
Variable cache_cleaner : pack_cache.PackCacheCleaner.

#[local] Arguments pack_cache.send_pack : simpl never.
#[local] Arguments pack_cache.exists_ : simpl never.
#[local] Arguments util.os_path_join : simpl never.

(** X18.  A cache hit: when the shard directory and the cache entry of
    the request are there, the entry ends with [0000], other workers
    leave it alone, the client is connected and the chunk size is -1 or
    positive, [_run_with_cache] sends the client exactly the content of
    the file and returns; it starts no process, takes no exclusive lock,
    sets [pcache_hit], records the status "hit" and sets the mtime of
    the entry to the current time. *)
Theorem cache_hit_starts_no_process self parsed_input s content t td :
  let dirname := util.os_path_join (WORKDIR env)
                   (util.os_path_join (B "pack_cache") (take 2 (hash parsed_input))) in
  let filename := util.os_path_join dirname (hash parsed_input) in
  fs s !! dirname = Some (Dir td) →
  fs s !! filename = Some (File content t) →
  (∀ m, others env m !! filename = m !! filename) →
  B "0000" `suffix_of` content →
  client_gone s = false →
  PACK_CACHE_CHUNK_SIZE env ≠ 0 →
  -1 ≤ PACK_CACHE_CHUNK_SIZE env →
  ∃ s' new,
    _run_with_cache env cache_cleaner self parsed_input s = (Ok tt, s') ∧
    sent s' = sent s ++ new ∧
    concat new = content ∧
    spawns (trace s') = spawns (trace s) ∧
    locks_taken (trace s') = locks_taken (trace s) ∧
    pcache_hit (attrs s') = true ∧
    ctx s' !! "upload_pack_status" = Some (VStr (B "hit")) ∧
    fs s' !! filename = Some (File content (clock s)).
Proof.
  intros dirname filename Hdir Hfile Hothers Hflush Hgone Hn Hmin.
  unfold _run_with_cache, pack_cache.PackCache_init, util.get_subdir, serve_if_cached.
  msimpl. fold dirname. rewrite Hdir. msimpl. fold filename.
  set (pc := mkPackCache (hash parsed_input) dirname filename).
  match goal with |- context [pack_cache.exists_ pc ?s1] =>
    assert (fs s1 !! pc_filename pc = Some (File content t)) as Hfile1
      by (simpl; by rewrite Hothers);
    rewrite (pack_cache_spec.exists_long pc s1 content t Hfile1)
  end.
  2:{ destruct Hflush as [k ->]. rewrite length_app. simpl. lia. }
  rewrite bool_decide_true by done. simpl.
  match goal with |- context [pack_cache.send_pack env pc ClientWriter ?s2] =>
    destruct (send_pack_spec.send_pack_connected env pc ClientWriter s2 content t)
      as (s' & new & -> & Hsent & Hcat & Hall & Hfs & Hcomplete & Hstatus & Hattrs & Hsp & Hlk);
    [simpl; by rewrite Hothers|done|done|done|]
  end.
  simpl in *.
  eexists _, new. split; [reflexivity|]. simpl. split_and!; try done.
  - rewrite spawns_app, Hsp, spawns_app. simpl. by rewrite !app_nil_r.
  - rewrite locks_taken_app, Hlk, locks_taken_app. simpl. by rewrite !app_nil_r.
  - by rewrite Hattrs.
  - by rewrite Hfs, lookup_insert_eq.
Qed.

#[local] Arguments _do_upload_pack : simpl never.

(** [_upload_pack] when the mirror is there: it comes to
    [_do_upload_pack], run once the shared lock and the semaphore, if
    there is one, are held. *)
Lemma upload_pack_wraps self parsed_input s rc t :
  rcache (attrs s) = Some rc →
  others env (fs s) !! rc_directory rc = Some (Dir t) →
  ∃ s1,
    fs s1 = meanwhile env self (fs s) ∧
    sent s1 = sent s ∧ client_gone s1 = client_gone s ∧
    attrs s1 = attrs s ∧ clock s1 = clock s ∧
    (∀ k, k ≠ "sema_wait" → ctx s1 !! k = ctx s !! k) ∧
    spawns (trace s1) = spawns (trace s) ∧
    locks_taken (trace s1) = locks_taken (trace s) ∧
    ∀ r s2,
      _do_upload_pack env self parsed_input s1 = (r, s2) →
      ∃ s',
        _upload_pack env self parsed_input s = (r, s') ∧
        fs s' = fs s2 ∧ sent s' = sent s2 ∧ client_gone s' = client_gone s2 ∧
        attrs s' = attrs s2 ∧
        (∀ k, k ≠ "upload_pack_duration" → ctx s' !! k = ctx s2 !! k) ∧
        spawns (trace s') = spawns (trace s2) ∧
        locks_taken (trace s') = locks_taken (trace s2).
Proof.
  intros Hrc Hdir.
  unfold _upload_pack, repo_cache.read_lock, repo_cache.exists_, os_path_isdir,
    with_sema, bind_contextvars, meanwhile.
  msimpl. rewrite Hrc. msimpl. rewrite Hdir.
  destruct (sema self); msimpl;
    match goal with |- context [_do_upload_pack env self parsed_input ?s1] =>
      exists s1 end;
    simpl; rewrite ?spawns_app, ?locks_taken_app; simpl; rewrite ?app_nil_r;
    (split_and!; try done; try (intros k Hk; by rewrite lookup_insert_ne));
    intros r s2 ->; destruct r as [[]|e]; msimpl;
    (eexists; split; [reflexivity|]); simpl;
    rewrite ?spawns_app, ?locks_taken_app; simpl; rewrite ?app_nil_r;
    split_and!; try done; intros k Hk; by rewrite ?lookup_insert_ne.
Qed.

(** [_upload_pack] without a pack cache, when the process ends well. *)
Lemma upload_pack_run self parsed_input s rc t out :
  rcache (attrs s) = Some rc →
  others env (fs s) !! rc_directory rc = Some (Dir t) →
  pcache (attrs s) = None →
  (∀ s0, let run := upload_pack_proc env (rc_directory rc) (protocol_version self)
                      (input parsed_input) s0 in
         p_returncode run = 0 ∧ p_stdin_error run = None ∧ p_stdout run = out) →
  client_gone s = false →
  CHUNK_SIZE env ≠ 0 →
  ∃ s' new,
    _upload_pack env self parsed_input s = (Ok tt, s') ∧
    sent s' = sent s ++ new ∧
    concat new = out ∧
    spawns (trace s')
    = spawns (trace s) ++ [[B "git-upload-pack"; B "--stateless-rpc"; rc_directory rc]] ∧
    locks_taken (trace s') = locks_taken (trace s) ∧
    attrs s' = attrs s.
Proof.
  intros Hrc Hdir Hpc Hproc Hgone Hn.
  destruct (upload_pack_wraps self parsed_input s rc t Hrc Hdir)
    as (s1 & Hfs1 & Hsent1 & Hgone1 & Hattrs1 & Hclock1 & Hctx1 & Hsp1 & Hlk1 & Hwrap).
  destruct (Hproc s1) as (Hcode & Hstdin & Hout).
  destruct (handler_spec.do_upload_pack_run env self parsed_input s1 rc)
    as (s2 & new & Hrun & Hsent & Hcat & Hctx & Hfs & Hsp & Hlocks & Hattrs);
    try done; try congruence; [by left|].
  destruct (Hwrap _ _ Hrun) as (s' & Hrun' & Hfs' & Hsent' & Hgone' & Hattrs' & Hctx' & Hsp' & Hlk').
  exists s', new. split_and!; try done; congruence.
Qed.

#[local] Arguments _upload_pack : simpl never.
#[local] Arguments _ensure_input_wants_in_rcache : simpl never.

(** X19.  A request that parses, has wants and cannot be cached, made
    by a handler with no pack cache yet, with or without a semaphore, on
    a mirror that other workers leave in place and that holds every want
    ([git cat-file] answers and reports nothing missing), when
    [git-upload-pack] exits with status 0 and takes its input, the
    client is connected and [CHUNK_SIZE] is not 0: [run] sends the
    client exactly what [git-upload-pack] prints and returns; it has
    started [git cat-file] and [git-upload-pack] and nothing else (no
    fetch, no clone), has taken no exclusive lock and has set
    [rcache_hit]. *)
Theorem uncached_request_streams_upload_pack self parsed_input s stdout out t tg :
  let git_dir := util.os_path_join (WORKDIR env) (B "git") in
  let directory := util.os_path_join git_dir (path self) in
  parse_error parsed_input = false →
  wants parsed_input ≠ [] →
  can_be_cached parsed_input = false →
  pcache (attrs s) = None →
  fs s !! git_dir = Some (Dir tg) →
  fs s !! directory = Some (Dir t) →
  (∀ m, others env m !! directory = m !! directory) →
  (∀ s0, cat_file_proc env directory (wants parsed_input) s0 = Communicated (Ok stdout)) →
  contains (B "missing") stdout = false →
  (∀ s0, let run := upload_pack_proc env directory (protocol_version self)
                      (input parsed_input) s0 in
         p_returncode run = 0 ∧ p_stdin_error run = None ∧ p_stdout run = out) →
  client_gone s = false →
  CHUNK_SIZE env ≠ 0 →
  ∃ s' new,
    run env cache_cleaner self parsed_input s = (Ok tt, s') ∧
    sent s' = sent s ++ new ∧
    concat new = out ∧
    locks_taken (trace s') = locks_taken (trace s) ∧
    spawns (trace s')
    = spawns (trace s) ++
      [[B "git"; B "cat-file"; B "--batch-check"; B "--no-buffer"];
       [B "git-upload-pack"; B "--stateless-rpc"; directory]] ∧
    rcache_hit (attrs s') = true.
Proof.
  intros git_dir directory Hpe Hwants Hcache Hpc Hgit Hdir Hothers Hcat Hmissing
    Hproc Hgone Hn.
  unfold run, input_to_ctx, bind_contextvars. rewrite Hpe, Hcache.
  rewrite bool_decide_false by done.
  unfold _execute, repo_cache.RepoCache_init, util.get_subdir.
  msimpl. fold git_dir. rewrite Hgit. msimpl. fold directory.
  set (rc := mkRepoCache directory (auth self) (directory ++ B ".lock")
               (generate_url env (upstream self) (path self) (auth self)) (path self)).
  match goal with |- context [_ensure_input_wants_in_rcache env self _ ?s1] =>
    destruct (handler_spec.ensure_wants_present_run env self rc (wants parsed_input)
                stdout s1 t)
      as (s2 & -> & Hattrs2 & Hfs2 & Hlocks2 & Hsp2 & Hsent2 & Hgone2 & _); try done
  end.
  simpl in *.
  destruct (upload_pack_run self parsed_input s2 rc t out)
    as (s3 & new & -> & Hsent3 & Hcat3 & Hsp3 & Hlocks3 & Hattrs3); try done.
  - by rewrite Hattrs2.
  - by rewrite Hfs2, !Hothers.
  - by rewrite Hattrs2.
  - by rewrite Hgone2.
  - exists s3, new. split_and!.
    + done.
    + by rewrite Hsent3, Hsent2.
    + by rewrite Hcat3.
    + rewrite Hlocks3, Hlocks2, locks_taken_app. simpl. by rewrite app_nil_r.
    + rewrite Hsp3, Hsp2, spawns_app. simpl. by rewrite app_nil_r, <-app_assoc.
    + by rewrite Hattrs3, Hattrs2.
Qed.

(** [clean] raises nothing and leaves the files, the client and the
    context alone. *)
Lemma clean_run cleaner s :
  ∃ b s',
    pack_cache.clean cleaner s = (Ok b, s') ∧
    fs s' = fs s ∧ sent s' = sent s ∧ ctx s' = ctx s ∧ attrs s' = attrs s ∧
    spawns (trace s') = spawns (trace s) ∧
    locks_taken (trace s') = locks_taken (trace s).
Proof.
  unfold pack_cache.clean, file_lock.exists_, file_lock.mtime, os_path_exists,
    os_path_getmtime.
  msimpl. case_bool_decide as Hthere.
  - destruct Hthere as [n Hn]. rewrite Hn. msimpl.
    case_bool_decide; msimpl; (eexists _, _; split; [reflexivity|]); simpl;
      rewrite spawns_app, locks_taken_app; simpl; by rewrite !app_nil_r.
  - msimpl. eexists _, _. split; [reflexivity|]. simpl.
    rewrite spawns_app, locks_taken_app. simpl. by rewrite !app_nil_r.
Qed.

Lemma meanwhile_quiet self m : (∀ m, others env m = m) → meanwhile env self m = m.
Proof. intros Hquiet. unfold meanwhile. destruct (sema self); by rewrite !Hquiet. Qed.

(** [_upload_pack] with a pack cache, when the mirror is there, the
    process ends well and its output parses up to a flush. *)
Lemma upload_pack_caches_run self parsed_input s rc pc chunks t :
  rcache (attrs s) = Some rc →
  others env (fs s) !! rc_directory rc = Some (Dir t) →
  pcache (attrs s) = Some pc →
  (∀ t, meanwhile env self (fs s) !! pc_filename pc ≠ Some (Dir t)) →
  (∀ s0, let run := upload_pack_proc env (rc_directory rc) (protocol_version self)
                      (input parsed_input) s0 in
         p_returncode run = 0 ∧ p_stdin_error run = None ∧
         packet_line.PacketLineChunkParser (p_stdout run) = (chunks, None)) →
  ∃ s',
    _upload_pack env self parsed_input s = (Ok tt, s') ∧
    fs s' = <[pc_filename pc := File (concat chunks) (clock s)]>
              (meanwhile env self (fs s)) ∧
    sent s' = sent s ∧ client_gone s' = client_gone s ∧
    attrs s' = set_hit false (attrs s) ∧
    (∀ k, k ≠ "sema_wait" → k ≠ "upload_pack_duration" → ctx s' !! k = ctx s !! k) ∧
    spawns (trace s')
    = spawns (trace s) ++ [[B "git-upload-pack"; B "--stateless-rpc"; rc_directory rc]] ∧
    locks_taken (trace s') = locks_taken (trace s).
Proof.
  intros Hrc Hdir Hpc Hnd Hproc.
  destruct (upload_pack_wraps self parsed_input s rc t Hrc Hdir)
    as (s1 & Hfs1 & Hsent1 & Hgone1 & Hattrs1 & Hclock1 & Hctx1 & Hsp1 & Hlk1 & Hwrap).
  destruct (Hproc s1) as (Hcode & Hstdin & Hout).
  destruct (handler_spec.do_upload_pack_caches env self parsed_input s1 rc pc chunks)
    as (s2 & Hrun & Hfs & Hsent & Hgone & Hattrs & Hctx & Hsp & Hlocks);
    try done; try congruence; [by left|].
  destruct (Hwrap _ _ Hrun)
    as (s' & Hrun' & Hfs' & Hsent' & Hgone' & Hattrs' & Hctx' & Hsp' & Hlk').
  exists s'. split_and!; try done; try congruence.
  intros k Hk1 Hk2. by rewrite Hctx', Hctx, Hctx1.
Qed.

#[local] Arguments pack_cache.clean : simpl never.
#[local] Arguments _execute : simpl never.

(** [_execute] on an up-to-date mirror, with a pack cache to fill. *)
Lemma execute_fills self parsed_input s stdout chunks pc t tg :
  let git_dir := util.os_path_join (WORKDIR env) (B "git") in
  let directory := util.os_path_join git_dir (path self) in
  pcache (attrs s) = Some pc →
  fs s !! git_dir = Some (Dir tg) →
  fs s !! directory = Some (Dir t) →
  (∀ m, others env m !! directory = m !! directory) →
  (∀ t, meanwhile env self (others env (fs s)) !! pc_filename pc ≠ Some (Dir t)) →
  (∀ s0, cat_file_proc env directory (wants parsed_input) s0 = Communicated (Ok stdout)) →
  contains (B "missing") stdout = false →
  (∀ s0, let run := upload_pack_proc env directory (protocol_version self)
                      (input parsed_input) s0 in
         p_returncode run = 0 ∧ p_stdin_error run = None ∧
         packet_line.PacketLineChunkParser (p_stdout run) = (chunks, None)) →
  ∃ s',
    _execute env self parsed_input s = (Ok tt, s') ∧
    fs s' = <[pc_filename pc := File (concat chunks) (clock s)]>
              (meanwhile env self (others env (fs s))) ∧
    sent s' = sent s ∧ client_gone s' = client_gone s ∧
    hit (attrs s') = false ∧ pcache_hit (attrs s') = pcache_hit (attrs s) ∧
    (∀ k, k ≠ "sema_wait" → k ≠ "upload_pack_duration" → ctx s' !! k = ctx s !! k) ∧
    spawns (trace s')
    = spawns (trace s) ++
      [[B "git"; B "cat-file"; B "--batch-check"; B "--no-buffer"];
       [B "git-upload-pack"; B "--stateless-rpc"; directory]] ∧
    locks_taken (trace s') = locks_taken (trace s).
Proof.
  intros git_dir directory Hpc Hgit Hdir Hkeep Hnd Hcat Hmissing Hproc.
  unfold _execute, repo_cache.RepoCache_init, util.get_subdir.
  msimpl. fold git_dir. rewrite Hgit. msimpl. fold directory.
  set (rc := mkRepoCache directory (auth self) (directory ++ B ".lock")
               (generate_url env (upstream self) (path self) (auth self)) (path self)).
  match goal with |- context [_ensure_input_wants_in_rcache env self _ ?s1] =>
    destruct (handler_spec.ensure_wants_present_run env self rc (wants parsed_input)
                stdout s1 t)
      as (s2 & -> & Hattrs2 & Hfs2 & Hlocks2 & Hsp2 & Hsent2 & Hgone2 & Hctx2 & Hclock2);
      try done
  end.
  simpl in *.
  destruct (upload_pack_caches_run self parsed_input s2 rc pc chunks t)
    as (s3 & -> & Hfs3 & Hsent3 & Hgone3 & Hattrs3 & Hctx3 & Hsp3 & Hlocks3); try done.
  - by rewrite Hattrs2.
  - by rewrite Hfs2, !Hkeep.
  - by rewrite Hattrs2.
  - by rewrite Hfs2.
  - exists s3. split_and!.
    + done.
    + by rewrite Hfs3, Hfs2, Hclock2.
    + by rewrite Hsent3, Hsent2.
    + by rewrite Hgone3, Hgone2.
    + by rewrite Hattrs3.
    + by rewrite Hattrs3, Hattrs2.
    + intros k Hk1 Hk2. by rewrite Hctx3, Hctx2.
    + rewrite Hsp3, Hsp2, <-app_assoc. done.
    + by rewrite Hlocks3, Hlocks2.
Qed.

#[local] Arguments pack_cache.PackCache_init : simpl never.

(** X20.  A cache miss, with or without a semaphore, when the shard
    directory is there and the entry is not, no other worker touches the
    files, the mirror holds every want ([git cat-file] answers and
    reports nothing missing), [git-upload-pack] exits with status 0,
    takes its input and prints frames up to a flush, the client is
    connected and the chunk size is -1 or positive: [_run_with_cache]
    fills the cache entry with the frames that [git-upload-pack] prints
    up to the flush, sends the client exactly the content of that entry,
    records the status "miss", leaves [pcache_hit] as it was, has taken
    the exclusive lock on the entry once, and has started [git cat-file]
    and [git-upload-pack] and nothing else. *)
Theorem cache_miss_fills_and_serves self parsed_input s stdout chunks t tg td :
  let git_dir := util.os_path_join (WORKDIR env) (B "git") in
  let directory := util.os_path_join git_dir (path self) in
  let dirname := util.os_path_join (WORKDIR env)
                   (util.os_path_join (B "pack_cache") (take 2 (hash parsed_input))) in
  let filename := util.os_path_join dirname (hash parsed_input) in
  fs s !! dirname = Some (Dir td) →
  fs s !! filename = None →
  fs s !! git_dir = Some (Dir tg) →
  fs s !! directory = Some (Dir t) →
  (∀ m, others env m = m) →
  (∀ s0, cat_file_proc env directory (wants parsed_input) s0 = Communicated (Ok stdout)) →
  contains (B "missing") stdout = false →
  (∀ s0, let run := upload_pack_proc env directory (protocol_version self)
                      (input parsed_input) s0 in
         p_returncode run = 0 ∧ p_stdin_error run = None ∧
         packet_line.PacketLineChunkParser (p_stdout run) = (chunks, None)) →
  client_gone s = false →
  PACK_CACHE_CHUNK_SIZE env ≠ 0 →
  -1 ≤ PACK_CACHE_CHUNK_SIZE env →
  ∃ s' new,
    _run_with_cache env cache_cleaner self parsed_input s = (Ok tt, s') ∧
    sent s' = sent s ++ new ∧
    concat new = concat chunks ∧
    (∃ mtime, fs s' !! filename = Some (File (concat chunks) mtime)) ∧
    ctx s' !! "upload_pack_status" = Some (VStr (B "miss")) ∧
    pcache_hit (attrs s') = pcache_hit (attrs s) ∧
    spawns (trace s')
    = spawns (trace s) ++
      [[B "git"; B "cat-file"; B "--batch-check"; B "--no-buffer"];
       [B "git-upload-pack"; B "--stateless-rpc"; directory]] ∧
    locks_taken (trace s') = locks_taken (trace s) ++ [filename].
Proof.
  intros git_dir directory dirname filename Hshard Hfile Hgit Hdir Hquiet Hcat
    Hmissing Hproc Hgone Hn Hmin.
  set (pc := mkPackCache (hash parsed_input) dirname filename).
  assert (pack_cache.PackCache_init env (hash parsed_input) s
          = (Ok pc, set_attrs (set_hit true) s)) as Hinit.
  { unfold pack_cache.PackCache_init, util.get_subdir. msimpl. fold dirname.
    by rewrite Hshard. }
  assert (∀ s0, set_fs (others env) s0 = s0) as Hquiet'.
  { intros []. unfold set_fs. simpl. by rewrite Hquiet. }
  unfold _run_with_cache, serve_if_cached, fill_under_write_lock, serve_after_fill.
  msimpl. rewrite Hinit. msimpl. rewrite ?Hquiet'.
  (* the probe under the shared lock misses *)
  match goal with |- context [pack_cache.exists_ pc ?s1] =>
    rewrite (pack_cache_spec.exists_absent pc s1) by done
  end.
  msimpl. rewrite ?Hquiet'.
  (* so does the one under the exclusive lock, and [_execute] fills the entry *)
  match goal with |- context [pack_cache.exists_ pc ?s1] =>
    rewrite (pack_cache_spec.exists_absent pc s1) by done
  end.
  msimpl.
  match goal with |- context [_execute env self parsed_input ?s1] =>
    destruct (execute_fills self parsed_input s1 stdout chunks pc t tg)
      as (s2 & -> & Hfs2 & Hsent2 & Hgone2 & Hhit2 & Hph2 & Hctx2 & Hsp2 & Hlocks2);
      try done
  end.
  { intros m. by rewrite Hquiet. }
  { intros t0. simpl. by rewrite meanwhile_quiet, Hquiet, Hfile. }
  simpl in *. rewrite meanwhile_quiet, Hquiet in Hfs2 by done. rewrite ?Hquiet'.
  (* the entry is there now and is served *)
  destruct (Hproc s) as (_ & _ & Hparse).
  pose proof (packet_line_spec.parser_ends_with_flush _ _ Hparse) as Hflush.
  match goal with |- context [pack_cache.exists_ pc ?s3] =>
    assert (fs s3 !! pc_filename pc = Some (File (concat chunks) (clock s))) as Hfile3
      by (simpl; rewrite Hfs2; apply lookup_insert_eq);
    rewrite (pack_cache_spec.exists_long pc s3 _ _ Hfile3)
  end.
  2:{ destruct Hflush as [k ->]. rewrite length_app. simpl. lia. }
  rewrite bool_decide_true by done. simpl.
  match goal with |- context [pack_cache.send_pack env pc ClientWriter ?s3] =>
    destruct (send_pack_spec.send_pack_connected env pc ClientWriter s3
                (concat chunks) (clock s))
      as (s4 & new & -> & Hsent4 & Hcat4 & _ & Hfs4 & _ & Hstatus4 & Hattrs4 & Hsp4 & Hlk4);
    [done|simpl; by rewrite Hgone2|done|done|]
  end.
  destruct (clean_run cache_cleaner s4)
    as (b & s5 & -> & Hfs5 & Hsent5 & Hctx5 & Hattrs5 & Hsp5 & Hlk5).
  simpl in *.
  rewrite !spawns_app in Hsp2, Hsp4. rewrite !locks_taken_app in Hlocks2, Hlk4.
  simpl in Hsp2, Hsp4, Hlocks2, Hlk4. rewrite !app_nil_r in Hsp2, Hsp4, Hlocks2, Hlk4.
  eexists _, new. split; [reflexivity|]. simpl. split_and!.
  - by rewrite Hsent5, Hsent4, Hsent2.
  - done.
  - eexists. rewrite Hfs5, Hfs4. apply lookup_insert_eq.
  - by rewrite Hctx5, Hstatus4, Hhit2.
  - by rewrite Hattrs5, Hattrs4, Hph2.
  - rewrite spawns_app, Hsp5, Hsp4, Hsp2.
    repeat (rewrite ?spawns_app; simpl; rewrite ?app_nil_r). done.
  - rewrite locks_taken_app, Hlk5, Hlk4, Hlocks2.
    repeat (rewrite ?locks_taken_app; simpl; rewrite ?app_nil_r). done.
Qed.

(** [_upload_pack] with a pack cache, when the process fails. *)
Lemma upload_pack_fails_run self parsed_input s rc pc chunks e err t :
  rcache (attrs s) = Some rc →
  others env (fs s) !! rc_directory rc = Some (Dir t) →
  pcache (attrs s) = Some pc →
  (∀ t, meanwhile env self (fs s) !! pc_filename pc ≠ Some (Dir t)) →
  (∀ s0, let run := upload_pack_proc env (rc_directory rc) (protocol_version self)
                      (input parsed_input) s0 in
         p_returncode run ≠ 0 ∧ p_stdin_error run = None ∧ p_stderr run = err ∧
         packet_line.PacketLineChunkParser (p_stdout run) = (chunks, Some e)) →
  utf8_valid err = true →
  is_Exception e = true →
  client_gone s = false →
  ∃ s',
    _upload_pack env self parsed_input s = (Ok tt, s') ∧
    fs s' = delete (pc_filename pc) (meanwhile env self (fs s)) ∧
    sent s' = sent s ++ [concat chunks; packet_line.to_packet (B "ERR " ++ err)] ∧
    client_gone s' = false ∧
    attrs s' = set_hit false (attrs s) ∧
    ctx s' !! "upload_pack_status" = Some (VStr (B "error")) ∧
    spawns (trace s')
    = spawns (trace s) ++ [[B "git-upload-pack"; B "--stateless-rpc"; rc_directory rc]] ∧
    locks_taken (trace s') = locks_taken (trace s).
Proof.
  intros Hrc Hdir Hpc Hnd Hproc Hutf He Hgone.
  destruct (upload_pack_wraps self parsed_input s rc t Hrc Hdir)
    as (s1 & Hfs1 & Hsent1 & Hgone1 & Hattrs1 & Hclock1 & Hctx1 & Hsp1 & Hlk1 & Hwrap).
  destruct (Hproc s1) as (Hcode & Hstdin & Herr & Hout).
  destruct (handler_spec.do_upload_pack_fails env self parsed_input s1 rc pc chunks e)
    as (s2 & Hrun & Hfs & Hsent & Hgone2 & Hattrs & Hctx & Hsp & Hlocks);
    try done; try congruence; [by left|].
  destruct (Hwrap _ _ Hrun)
    as (s' & Hrun' & Hfs' & Hsent' & Hgone' & Hattrs' & Hctx' & Hsp' & Hlk').
  exists s'. split_and!; try done; try congruence.
  by rewrite Hctx'.
Qed.

(** [_execute] on an up-to-date mirror, when [git-upload-pack] fails. *)
Lemma execute_fails self parsed_input s stdout chunks e err pc t tg :
  let git_dir := util.os_path_join (WORKDIR env) (B "git") in
  let directory := util.os_path_join git_dir (path self) in
  pcache (attrs s) = Some pc →
  fs s !! git_dir = Some (Dir tg) →
  fs s !! directory = Some (Dir t) →
  (∀ t, fs s !! pc_filename pc ≠ Some (Dir t)) →
  (∀ m, others env m = m) →
  (∀ s0, cat_file_proc env directory (wants parsed_input) s0 = Communicated (Ok stdout)) →
  contains (B "missing") stdout = false →
  (∀ s0, let run := upload_pack_proc env directory (protocol_version self)
                      (input parsed_input) s0 in
         p_returncode run ≠ 0 ∧ p_stdin_error run = None ∧ p_stderr run = err ∧
         packet_line.PacketLineChunkParser (p_stdout run) = (chunks, Some e)) →
  utf8_valid err = true →
  is_Exception e = true →
  client_gone s = false →
  ∃ s',
    _execute env self parsed_input s = (Ok tt, s') ∧
    fs s' = delete (pc_filename pc) (fs s) ∧
    sent s' = sent s ++ [concat chunks; packet_line.to_packet (B "ERR " ++ err)] ∧
    hit (attrs s') = false ∧ pcache_hit (attrs s') = pcache_hit (attrs s) ∧
    ctx s' !! "upload_pack_status" = Some (VStr (B "error")) ∧
    spawns (trace s')
    = spawns (trace s) ++
      [[B "git"; B "cat-file"; B "--batch-check"; B "--no-buffer"];
       [B "git-upload-pack"; B "--stateless-rpc"; directory]] ∧
    locks_taken (trace s') = locks_taken (trace s).
Proof.
  intros git_dir directory Hpc Hgit Hdir Hnd Hquiet Hcat Hmissing Hproc Hutf He Hgone.
  unfold _execute, repo_cache.RepoCache_init, util.get_subdir.
  msimpl. fold git_dir. rewrite Hgit. msimpl. fold directory.
  set (rc := mkRepoCache directory (auth self) (directory ++ B ".lock")
               (generate_url env (upstream self) (path self) (auth self)) (path self)).
  match goal with |- context [_ensure_input_wants_in_rcache env self _ ?s1] =>
    destruct (handler_spec.ensure_wants_present_run env self rc (wants parsed_input)
                stdout s1 t)
      as (s2 & -> & Hattrs2 & Hfs2 & Hlocks2 & Hsp2 & Hsent2 & Hgone2 & Hctx2 & Hclock2);
      try done
  end.
  simpl in *. rewrite Hquiet in Hfs2.
  destruct (upload_pack_fails_run self parsed_input s2 rc pc chunks e err t)
    as (s3 & -> & Hfs3 & Hsent3 & Hgone3 & Hattrs3 & Hctx3 & Hsp3 & Hlocks3); try done.
  - by rewrite Hattrs2.
  - by rewrite Hquiet, Hfs2.
  - by rewrite Hattrs2.
  - intros t0. by rewrite meanwhile_quiet, Hfs2.
  - by rewrite Hgone2.
  - exists s3. split_and!.
    + done.
    + by rewrite Hfs3, meanwhile_quiet, Hfs2.
    + by rewrite Hsent3, Hsent2.
    + by rewrite Hattrs3.
    + by rewrite Hattrs3, Hattrs2.
    + done.
    + rewrite Hsp3, Hsp2, <-app_assoc. done.
    + by rewrite Hlocks3, Hlocks2.
Qed.

#[local] Arguments fail_unless_error_recorded : simpl never.

(** X27.  A cache miss where [git-upload-pack] fails, with or without a
    semaphore: the shard directory is there and the entry is not, no
    other worker touches the files, the mirror holds every want, the
    process exits with a status other than 0 after it took its input,
    its output does not parse up to a flush, its stderr is UTF-8 and the
    client is connected.  Then [_run_with_cache] returns without
    raising; the client has received the frames printed before the
    failure and then one [ERR] packet that carries the stderr of the
    process; no cache entry is left, the status "error" is recorded and
    [pcache_hit] is as it was. *)
Theorem upload_pack_failure_on_cached_path self parsed_input s stdout chunks e err
    t tg td :
  let git_dir := util.os_path_join (WORKDIR env) (B "git") in
  let directory := util.os_path_join git_dir (path self) in
  let dirname := util.os_path_join (WORKDIR env)
                   (util.os_path_join (B "pack_cache") (take 2 (hash parsed_input))) in
  let filename := util.os_path_join dirname (hash parsed_input) in
  fs s !! dirname = Some (Dir td) →
  fs s !! filename = None →
  fs s !! git_dir = Some (Dir tg) →
  fs s !! directory = Some (Dir t) →
  (∀ m, others env m = m) →
  (∀ s0, cat_file_proc env directory (wants parsed_input) s0 = Communicated (Ok stdout)) →
  contains (B "missing") stdout = false →
  (∀ s0, let run := upload_pack_proc env directory (protocol_version self)
                      (input parsed_input) s0 in
         p_returncode run ≠ 0 ∧ p_stdin_error run = None ∧ p_stderr run = err ∧
         packet_line.PacketLineChunkParser (p_stdout run) = (chunks, Some e)) →
  utf8_valid err = true →
  is_Exception e = true →
  client_gone s = false →
  ∃ s',
    _run_with_cache env cache_cleaner self parsed_input s = (Ok tt, s') ∧
    sent s' = sent s ++ [concat chunks; packet_line.to_packet (B "ERR " ++ err)] ∧
    fs s' !! filename = None ∧
    ctx s' !! "upload_pack_status" = Some (VStr (B "error")) ∧
    pcache_hit (attrs s') = pcache_hit (attrs s) ∧
    spawns (trace s')
    = spawns (trace s) ++
      [[B "git"; B "cat-file"; B "--batch-check"; B "--no-buffer"];
       [B "git-upload-pack"; B "--stateless-rpc"; directory]].
Proof.
  intros git_dir directory dirname filename Hshard Hfile Hgit Hdir Hquiet Hcat
    Hmissing Hproc Hutf He Hgone.
  set (pc := mkPackCache (hash parsed_input) dirname filename).
  assert (pack_cache.PackCache_init env (hash parsed_input) s
          = (Ok pc, set_attrs (set_hit true) s)) as Hinit.
  { unfold pack_cache.PackCache_init, util.get_subdir. msimpl. fold dirname.
    by rewrite Hshard. }
  assert (∀ s0, set_fs (others env) s0 = s0) as Hquiet'.
  { intros []. unfold set_fs. simpl. by rewrite Hquiet. }
  unfold _run_with_cache, serve_if_cached, fill_under_write_lock, serve_after_fill.
  msimpl. rewrite Hinit. msimpl. rewrite ?Hquiet'.
  match goal with |- context [pack_cache.exists_ pc ?s1] =>
    rewrite (pack_cache_spec.exists_absent pc s1) by done
  end.
  msimpl. rewrite ?Hquiet'.
  match goal with |- context [pack_cache.exists_ pc ?s1] =>
    rewrite (pack_cache_spec.exists_absent pc s1) by done
  end.
  msimpl.
  match goal with |- context [_execute env self parsed_input ?s1] =>
    destruct (execute_fails self parsed_input s1 stdout chunks e err pc t tg)
      as (s2 & -> & Hfs2 & Hsent2 & Hhit2 & Hph2 & Hctx2 & Hsp2 & Hlocks2);
      try done
  end.
  { intros t0. simpl. by rewrite Hfile. }
  simpl in *. rewrite ?Hquiet'.
  (* no entry has been left, and the error has been recorded *)
  match goal with |- context [pack_cache.exists_ pc ?s3] =>
    rewrite (pack_cache_spec.exists_absent pc s3)
      by (simpl; rewrite Hfs2; apply lookup_delete_eq)
  end.
  msimpl.
  match goal with |- context [fail_unless_error_recorded ?s4] =>
    destruct (upload_pack_spec.fail_unless_error_recorded_run s4)
      as (r & -> & _ & Hok & _);
    assert (r = Ok tt) as -> by (apply Hok; simpl; exact Hctx2)
  end.
  eexists. split; [reflexivity|]. simpl. split_and!; try done.
  - rewrite Hfs2. apply lookup_delete_eq.
  - rewrite !spawns_app. simpl. rewrite !app_nil_r, Hsp2.
    repeat (rewrite ?spawns_app; simpl; rewrite ?app_nil_r). done.
Qed.

(** C3.  When the entry is gone again by the time it is to be served
    and no status has been recorded, the lookup
    [get_contextvars()["upload_pack_status"]] raises [KeyError], where
    the claim and the comment of the code have [RuntimeError]: other
    workers remove the entry whenever this one waits and leave every
    other path alone, [git-upload-pack] succeeds and the entry is
    written under the exclusive lock, and under the shared lock taken
    after that it is not there. *)
Theorem run_with_cache_raises_KeyError self parsed_input s stdout chunks t tg td :
  let git_dir := util.os_path_join (WORKDIR env) (B "git") in
  let directory := util.os_path_join git_dir (path self) in
  let dirname := util.os_path_join (WORKDIR env)
                   (util.os_path_join (B "pack_cache") (take 2 (hash parsed_input))) in
  let filename := util.os_path_join dirname (hash parsed_input) in
  fs s !! dirname = Some (Dir td) →
  fs s !! filename = None →
  fs s !! git_dir = Some (Dir tg) →
  fs s !! directory = Some (Dir t) →
  (∀ m, others env m !! filename = None) →
  (∀ m p, p ≠ filename → others env m !! p = m !! p) →
  (∀ s0, cat_file_proc env directory (wants parsed_input) s0 = Communicated (Ok stdout)) →
  contains (B "missing") stdout = false →
  (∀ s0, let run := upload_pack_proc env directory (protocol_version self)
                      (input parsed_input) s0 in
         p_returncode run = 0 ∧ p_stdin_error run = None ∧
         packet_line.PacketLineChunkParser (p_stdout run) = (chunks, None)) →
  ctx s !! "upload_pack_status" = None →
  ∃ s',
    _run_with_cache env cache_cleaner self parsed_input s
    = (Raise (KeyError "upload_pack_status"), s') ∧
    sent s' = sent s ∧
    fs s' !! filename = None ∧
    ctx s' !! "upload_pack_status" = None ∧
    spawns (trace s')
    = spawns (trace s) ++
      [[B "git"; B "cat-file"; B "--batch-check"; B "--no-buffer"];
       [B "git-upload-pack"; B "--stateless-rpc"; directory]] ∧
    locks_taken (trace s') = locks_taken (trace s) ++ [filename].
Proof.
  intros git_dir directory dirname filename Hshard Hfile Hgit Hdir Hdel Hkeep Hcat
    Hmissing Hproc Hstatus.
  set (pc := mkPackCache (hash parsed_input) dirname filename).
  assert (pack_cache.PackCache_init env (hash parsed_input) s
          = (Ok pc, set_attrs (set_hit true) s)) as Hinit.
  { unfold pack_cache.PackCache_init, util.get_subdir. msimpl. fold dirname.
    by rewrite Hshard. }
  assert (git_dir ≠ filename) as Hne1 by congruence.
  assert (directory ≠ filename) as Hne2 by congruence.
  unfold _run_with_cache, serve_if_cached, fill_under_write_lock, serve_after_fill.
  msimpl. rewrite Hinit. msimpl.
  (* the probe under the shared lock misses *)
  match goal with |- context [pack_cache.exists_ pc ?s1] =>
    rewrite (pack_cache_spec.exists_absent pc s1) by (simpl; apply Hdel)
  end.
  msimpl.
  (* so does the one under the exclusive lock, and [_execute] fills the entry *)
  match goal with |- context [pack_cache.exists_ pc ?s1] =>
    rewrite (pack_cache_spec.exists_absent pc s1) by (simpl; apply Hdel)
  end.
  msimpl.
  match goal with |- context [_execute env self parsed_input ?s1] =>
    destruct (execute_fills self parsed_input s1 stdout chunks pc t tg)
      as (s2 & -> & Hfs2 & Hsent2 & Hgone2 & Hhit2 & Hph2 & Hctx2 & Hsp2 & Hlocks2);
      try done
  end.
  { simpl. by rewrite !Hkeep. }
  { simpl. by rewrite !Hkeep. }
  { intros m. by apply Hkeep. }
  { intros t0. simpl. unfold meanwhile. destruct (sema self); by rewrite Hdel. }
  simpl in *.
  (* another worker removes it before the shared lock is held again *)
  match goal with |- context [pack_cache.exists_ pc ?s3] =>
    rewrite (pack_cache_spec.exists_absent pc s3) by (simpl; apply Hdel)
  end.
  msimpl.
  match goal with |- context [fail_unless_error_recorded ?s4] =>
    destruct (upload_pack_spec.fail_unless_error_recorded_run s4)
      as (r & -> & _ & _ & Hkey);
    assert (r = Raise (KeyError "upload_pack_status")) as ->
      by (apply Hkey; simpl; by rewrite Hctx2)
  end.
  rewrite !spawns_app in Hsp2. rewrite !locks_taken_app in Hlocks2.
  simpl in Hsp2, Hlocks2. rewrite !app_nil_r in Hsp2, Hlocks2.
  eexists. split; [reflexivity|]. simpl. split_and!; try done.
  - by rewrite Hctx2.
  - repeat (rewrite ?spawns_app; simpl; rewrite ?app_nil_r).
    by rewrite Hsp2, app_nil_r.
  - repeat (rewrite ?locks_taken_app; simpl; rewrite ?app_nil_r). by rewrite Hlocks2.
Qed.

End request.
End request_spec.

(** ** The auth cache *)

Module auth_cache_spec.
Import auth_cache observe.

Section auth.
Variable md5_hexdigest : bytes → bytes.

#[local] Arguments util.os_path_join : simpl never.
#[local] Arguments cache_file : simpl never.




(** X22.  [auth_ok] returns true exactly when [cache_ttl] is
    positive, the header is present and not empty, and the entry of
    header and path is there with an mtime at most [cache_ttl] seconds
    old; in particular never with the default [AUTH_CACHE_TTL] of 0. *)
Theorem auth_ok_true_iff self h path s :
  (auth_ok md5_hexdigest self h path s).1 = Ok true ↔
  0 < cache_ttl self ∧
  ∃ a n, h = Some a ∧ a ≠ [] ∧
         fs s !! cache_file md5_hexdigest self a path = Some n ∧
         clock s - node_mtime n ≤ cache_ttl self * 1000.
Proof.
  unfold auth_ok. case_bool_decide as Httl.
  { split; [done|]. intros [? _]. lia. }
  destruct h as [[|c a]|].
  - split; [done|]. by intros (_ & a & n & [= <-] & ? & _).
  - set (f := cache_file md5_hexdigest self (c :: a) path).
    unfold os_path_getmtime, os_unlink. msimpl.
    destruct (fs s !! f) as [n|] eqn:Hn.
    + msimpl. case_bool_decide as Hexp.
      * msimpl. rewrite Hn. split.
        -- by destruct n.
        -- intros (_ & a' & n' & [= <-] & _ & Hn' & Hle).
           fold f in Hn'. rewrite Hn in Hn'. simplify_eq. lia.
      * msimpl. split; [|done]. intros _. split; [lia|].
        exists (c :: a), n. split_and!; try done. lia.
    + simpl. split; [done|].
      intros (_ & a' & n' & [= <-] & _ & Hn' & _). fold f in Hn'. congruence.
  - split; [done|]. by intros (_ & a & n & ? & _).
Qed.


End auth.
End auth_cache_spec.

(** ** Choosing the metrics format *)

Module metrics_spec.
Import metrics.

Lemma split_nonempty sep s : split sep s ≠ [].
Proof.
  destruct s as [|c s]; simpl; [done|].
  case_bool_decide; [done|]. by destruct (split sep s).
Qed.

Lemma split_app sep a b :
  split sep (a ++ sep :: b) = split sep a ++ split sep b.
Proof.
  induction a as [|c a IH]; simpl.
  - by rewrite bool_decide_true.
  - case_bool_decide; [by rewrite IH|].
    rewrite IH. pose proof (split_nonempty sep a).
    by destruct (split sep a).
Qed.

Lemma split_without sep p : sep ∉ p → split sep p = [p].
Proof.
  induction p as [|c p IH]; intros Hp; [done|]. simpl.
  apply not_elem_of_cons in Hp as [Hc Hp].
  rewrite bool_decide_false by done. by rewrite IH.
Qed.

Lemma hd_split_app sep p y :
  sep ∉ p → hd [] (split sep (p ++ y)) = p ++ hd [] (split sep y).
Proof.
  induction p as [|c p IH]; intros Hp; [done|]. simpl.
  apply not_elem_of_cons in Hp as [Hc Hp].
  rewrite bool_decide_false by done.
  specialize (IH Hp). pose proof (split_nonempty sep (p ++ y)).
  destruct (split sep (p ++ y)); [done|]. simpl in *. by rewrite IH.
Qed.

Lemma hd_split_prefix sep s : hd [] (split sep s) `prefix_of` s.
Proof.
  induction s as [|c s IH]; simpl; [done|].
  case_bool_decide; [apply prefix_nil|].
  pose proof (split_nonempty sep s).
  destruct (split sep s); [done|]. simpl in *. by apply prefix_cons.
Qed.

Lemma split_elem_infix sep s item :
  item ∈ split sep s → ∃ u v, s = u ++ item ++ v.
Proof.
  revert item. induction s as [|c s IH]; intros item; simpl.
  - intros ->%list_elem_of_singleton. by exists [], [].
  - case_bool_decide as Hc.
    + intros [->|Hin]%elem_of_cons.
      * by exists [], (c :: s).
      * destruct (IH item Hin) as (u & v & ->). by exists (c :: u), v.
    + pose proof (split_nonempty sep s).
      destruct (split sep s) as [|piece pieces] eqn:Hs; [done|].
      intros [->|Hin]%elem_of_cons.
      * destruct (IH piece) as (u & v & ->); [by left|].
        pose proof (hd_split_prefix sep (u ++ piece ++ v)) as Hpre.
        rewrite Hs in Hpre. simpl in Hpre. destruct Hpre as [k Hk].
        exists [], k. simpl. by rewrite Hk.
      * destruct (IH item) as (u & v & ->); [by right|]. by exists (c :: u), v.
Qed.

Lemma lstrip_suffix x : lstrip x `suffix_of` x.
Proof.
  induction x as [|c x IH]; simpl; [done|].
  destruct (isspace c); [by apply suffix_cons_r|done].
Qed.

Lemma lstrip_spaces ws x : Forall (λ c, isspace c = true) ws → lstrip (ws ++ x) = lstrip x.
Proof. induction 1 as [|c ws Hc _ IH]; simpl; [done|]. by rewrite Hc. Qed.

Lemma strip_infix x : ∃ u v, x = u ++ strip x ++ v.
Proof.
  unfold strip.
  destruct (lstrip_suffix x) as [u Hu].
  destruct (lstrip_suffix (reverse (lstrip x))) as [w Hw].
  exists u, (reverse w).
  rewrite <-reverse_app, <-Hw, reverse_involutive. done.
Qed.

Lemma lstrip_word ws w c :
  Forall (λ c, isspace c = true) ws → head w = Some c → isspace c = false →
  lstrip (ws ++ w) = w.
Proof.
  intros Hws Hw Hc. rewrite lstrip_spaces by done.
  destruct w as [|c' w]; [done|]. simpl in *. simplify_eq. by rewrite Hc.
Qed.

(** [strip] takes the spaces off both ends of a word that starts and
    ends with something else. *)
Lemma strip_padded ws1 ws2 w c d :
  Forall (λ c, isspace c = true) ws1 → Forall (λ c, isspace c = true) ws2 →
  head w = Some c → last w = Some d →
  isspace c = false → isspace d = false →
  strip (ws1 ++ w ++ ws2) = w.
Proof.
  intros H1 H2 Hhead Hlast Hc Hd. unfold strip.
  rewrite (lstrip_word ws1 (w ++ ws2) c); [|done| |done].
  2:{ destruct w; [done|]. done. }
  rewrite reverse_app.
  rewrite (lstrip_word (reverse ws2) (reverse w) d); [|by apply Forall_reverse| |done].
  - apply reverse_involutive.
  - by rewrite head_reverse.
Qed.

Lemma choose_loop_app l1 l2 :
  choose_loop (l1 ++ l2) = openmetrics_latest ↔
  choose_loop l1 = openmetrics_latest ∨ choose_loop l2 = openmetrics_latest.
Proof.
  induction l1 as [|x l1 IH]; simpl.
  - split; [by right|]. by intros [?|?].
  - case_bool_decide; [|done]. split; [by left|done].
Qed.

Lemma choose_loop_found items :
  choose_loop items = openmetrics_latest →
  ∃ item, item ∈ items ∧
          strip (hd [] (split semicolon item)) = text "application/openmetrics-text".
Proof.
  induction items as [|x items IH]; simpl; [done|].
  case_bool_decide as Hx.
  - intros _. exists x. split; [by left|done].
  - intros (item & Hin & Hitem)%IH. exists item. split; [by right|done].
Qed.

Lemma choose_generator_some h :
  choose_generator (Some h) = choose_loop (split comma h).
Proof. reflexivity. Qed.

(** X24.  [choose_generator] looks at the items between commas one by
    one: a header [a,b] selects the OpenMetrics format exactly when [a]
    does or [b] does. *)
Theorem choose_generator_comma a b :
  choose_generator (Some (a ++ comma :: b)) = openmetrics_latest ↔
  choose_generator (Some a) = openmetrics_latest ∨
  choose_generator (Some b) = openmetrics_latest.
Proof.
  rewrite !choose_generator_some, split_app. apply choose_loop_app.
Qed.

(** X25.  Whatever follows the media type is ignored: a header that
    starts with [application/openmetrics-text], with white space around
    it or not, followed by nothing, by a comma or by a semicolon and
    anything at all (a [q=0] included), selects the OpenMetrics
    format. *)
Theorem choose_generator_ignores_parameters ws1 ws2 rest :
  Forall (λ c, isspace c = true) ws1 →
  Forall (λ c, isspace c = true) ws2 →
  (∀ c, head rest = Some c → c = semicolon ∨ c = comma) →
  choose_generator
    (Some (ws1 ++ text "application/openmetrics-text" ++ ws2 ++ rest))
  = openmetrics_latest.
Proof.
  intros H1 H2 Hrest. rewrite choose_generator_some.
  set (target := text "application/openmetrics-text").
  set (p := ws1 ++ target ++ ws2).
  assert (∀ sep, isspace sep = false → sep ∉ target → sep ∉ p) as Hp.
  { intros sep Hsep Htarget. unfold p. rewrite !not_elem_of_app. split_and!; [|done|].
    - intros Hin. rewrite Forall_forall in H1. by rewrite (H1 _ Hin) in Hsep.
    - intros Hin. rewrite Forall_forall in H2. by rewrite (H2 _ Hin) in Hsep. }
  assert (comma ∉ p) as Hcomma by (apply Hp; [done|]; by apply (bool_decide_unpack _)).
  assert (semicolon ∉ p) as Hsemi by (apply Hp; [done|]; by apply (bool_decide_unpack _)).
  assert (strip p = target) as Hstrip.
  { unfold p. by apply (strip_padded ws1 ws2 target 0x61%N 0x74%N). }
  assert (∀ h, hd [] (split comma h) = p ∨
               (∃ x, hd [] (split comma h) = p ++ semicolon :: x) →
               choose_loop (split comma h) = openmetrics_latest) as Hfirst.
  { intros h Hh. pose proof (split_nonempty comma h).
    destruct (split comma h) as [|i items]; [done|]. simpl in *.
    rewrite bool_decide_true; [done|].
    destruct Hh as [->|[x ->]].
    - by rewrite split_without.
    - rewrite hd_split_app by done. simpl. rewrite ?bool_decide_true by done.
      simpl. by rewrite app_nil_r. }
  replace (ws1 ++ target ++ ws2 ++ rest) with (p ++ rest)
    by (unfold p; by rewrite <-!app_assoc).
  apply Hfirst.
  destruct rest as [|c rest].
  - left. rewrite app_nil_r. by rewrite split_without.
  - destruct (Hrest c eq_refl) as [-> | ->].
    + right. exists (hd [] (split comma rest)).
      rewrite (hd_split_app comma p) by done. simpl.
      rewrite ?bool_decide_false by done.
      pose proof (split_nonempty comma rest). by destruct (split comma rest).
    + left. rewrite split_app, split_without by done. done.
Qed.

(** X26.  [choose_generator] selects the OpenMetrics format only when
    a header is present and [application/openmetrics-text] occurs in it;
    with no header it is the old format. *)
Theorem choose_generator_needs_the_type accept_header :
  choose_generator accept_header = openmetrics_latest →
  ∃ h u v, accept_header = Some h ∧
           h = u ++ text "application/openmetrics-text" ++ v.
Proof.
  destruct accept_header as [h|]; [|done].
  rewrite choose_generator_some.
  intros (item & Hin & Hitem)%choose_loop_found.
  destruct (split_elem_infix comma h item Hin) as (u & v & ->).
  destruct (hd_split_prefix semicolon item) as [k Hk].
  destruct (strip_infix (hd [] (split semicolon item))) as (u' & v' & Hs).
  rewrite Hitem in Hs.
  exists (u ++ item ++ v), (u ++ u'), (v' ++ k ++ v). split; [done|].
  rewrite Hk at 1. rewrite Hs at 1. by rewrite <-!app_assoc.
Qed.

End metrics_spec.

(** ** The theorems at work in the small world *)

Module scenario_spec.
Import observe.

Lemma all_commands_succeed args s :
  returns example.mirror (git scenario.up args s) ∧
  g_returncode (git scenario.up args s) = 0.
Proof. split; [split_and!; vm_compute; reflexivity|reflexivity]. Qed.

Lemma upstream_down args s :
  returns example.mirror (git example.env args s) ∧
  g_returncode (git example.env args s) ≠ 0.
Proof.
  split; [split_and!; vm_compute; reflexivity|].
  vm_compute. intros H. discriminate H.
Qed.

Lemma send_pack_streams_whole_file_witness :
  ∃ s' new,
    pack_cache.send_pack example.env example.cache ClientWriter scenario.with_entry
    = (Ok tt, s') ∧
    concat new = scenario.pack ∧ sent s' = new.
Proof.
  destruct (send_pack_spec.send_pack_streams_whole_file example.env example.cache
              ClientWriter scenario.with_entry scenario.pack 0)
    as (s' & new & Hrun & Hsent & Hcat & _).
  - vm_compute. reflexivity.
  - reflexivity.
  - vm_compute. intros H. discriminate H.
  - vm_compute. intros H. discriminate H.
  - exists s', new. split; [exact Hrun|]. split; [exact Hcat|exact Hsent].
Defined.

Lemma send_pack_refuses_chunk_size_witness :
  ∃ s',
    pack_cache.send_pack (example.with_chunk_size (-2) example.env) example.cache
      ClientWriter scenario.with_entry = (Raise ValueError, s') ∧
    sent s' = [] ∧
    ctx s' !! "complete_send_pack" = Some (VBool false).
Proof.
  destruct (send_pack_spec.send_pack_refuses_chunk_size
              (example.with_chunk_size (-2) example.env) example.cache
              ClientWriter scenario.with_entry scenario.pack 0)
    as (s' & Hrun & Hsent & _ & Hcomplete).
  - vm_compute. reflexivity.
  - reflexivity.
  - exists s'. split; [exact Hrun|]. split; [exact Hsent|exact Hcomplete].
Defined.

Lemma send_pack_connection_reset_witness :
  ∃ s',
    pack_cache.send_pack example.env example.cache ClientWriter scenario.hung_up
    = (Ok tt, s') ∧
    sent s' = [] ∧
    ctx s' !! "complete_send_pack" = Some (VBool true).
Proof.
  destruct (send_pack_spec.send_pack_connection_reset example.env example.cache
              ClientWriter scenario.hung_up scenario.pack 0)
    as (s' & Hrun & Hsent & _ & Hcomplete).
  - vm_compute. reflexivity.
  - reflexivity.
  - vm_compute. intros H. discriminate H.
  - exists s'. split; [exact Hrun|]. split; [exact Hsent|exact Hcomplete].
Defined.


Lemma exists_iff_ends_with_flush_witness :
  ∃ b s',
    pack_cache.exists_ example.cache scenario.with_entry = (Ok b, s') ∧
    fs s' = fs scenario.with_entry.
Proof.
  destruct (exists_spec.exists_iff_ends_with_flush example.cache scenario.with_entry)
    as (b & s' & Hrun & Hfs & _).
  - intros t. vm_compute. intros H. discriminate H.
  - intros content t H. vm_compute in H. injection H as <- _. right. simpl. lia.
  - exists b, s'. split; [exact Hrun|exact Hfs].
Defined.

Lemma fetch_stops_at_first_success_witness :
  ∃ s',
    repo_cache.fetch scenario.up example.mirror example.with_mirror = (Ok tt, s') ∧
    sleeps (trace s') = [].
Proof.
  destruct (repo_cache_up_spec.fetch_stops_at_first_success scenario.up example.mirror
              example.with_mirror 500 [1000; 2000; 4000; 8000]) as [Hthere _].
  - vm_compute. reflexivity.
  - apply all_commands_succeed.
  - reflexivity.
  - destruct (Hthere (Dir 0)) as (s' & Hrun & _ & Hsl & _).
    + vm_compute. reflexivity.
    + exists s'. split; [exact Hrun|exact Hsl].
Defined.

Lemma clone_succeeds_with_one_command_witness :
  ∃ s',
    repo_cache.clone scenario.up example.mirror scenario.bare = (Ok tt, s') ∧
    sleeps (trace s') = [].
Proof.
  destruct (repo_cache_up_spec.clone_succeeds_with_one_command scenario.up example.mirror
              scenario.bare) as (s' & Hrun & Hsl & _).
  - apply all_commands_succeed.
  - vm_compute. intros H. discriminate H.
  - exists s'. split; [exact Hrun|exact Hsl].
Defined.

Lemma unusable_bundle_is_removed_witness :
  ∃ s' err,
    repo_cache.clone example.env example.mirror scenario.with_bundle
    = (Raise (HTTPInternalServerError err), s') ∧
    fs s' !! B "/w/bundles/p_clone.bundle" = None.
Proof.
  destruct (repo_cache_up_spec.unusable_bundle_is_removed example.env example.mirror
              scenario.with_bundle (B "bundle") 0)
    as (s' & err & new & Hrun & Hgone & _).
  - apply upstream_down.
  - intros args s. apply lookup_insert_ne. vm_compute. intros H. discriminate H.
  - reflexivity.
  - vm_compute. intros H. discriminate H.
  - vm_compute. intros H. discriminate H.
  - vm_compute. reflexivity.
  - exists s', err. split; [exact Hrun|exact Hgone].
Defined.

Lemma update_populates_missing_mirror_witness :
  ∃ s' n,
    repo_cache.update scenario.up example.mirror scenario.bare = (Ok tt, s') ∧
    fs s' !! rc_directory example.mirror = Some n ∧ node_mtime n = clock s'.
Proof.
  destruct (repo_cache_up_spec.update_populates_missing_mirror scenario.up example.mirror
              scenario.bare) as (s' & n & Hrun & _ & _ & _ & Hn & Hm).
  - apply all_commands_succeed.
  - intros s0. exists (Dir 0). apply lookup_insert_eq.
  - vm_compute. intros H. discriminate H.
  - vm_compute. reflexivity.
  - vm_compute. reflexivity.
  - exists s', n. split; [exact Hrun|]. split; [exact Hn|exact Hm].
Defined.

Lemma flush_to_writer_sends_everything_witness :
  ∃ new,
    upload_pack._flush_to_writer example.env example.handler (B "abc") example.with_mirror
    = (Ok tt, set_sent (λ l, l ++ new) example.with_mirror) ∧
    concat new = B "abc".
Proof.
  destruct (handler_spec.flush_to_writer_sends_everything example.env example.handler
              (B "abc") example.with_mirror) as (new & Hrun & Hcat & _).
  - reflexivity.
  - vm_compute. intros H. discriminate H.
  - exists new. split; [exact Hrun|exact Hcat].
Defined.

Lemma flush_to_writer_sends_nothing_witness :
  upload_pack._flush_to_writer example.env example.handler (B "abc") scenario.hung_up
  = (Raise ConnectionResetError, scenario.hung_up).
Proof.
  apply (handler_spec.flush_to_writer_sends_nothing example.env example.handler (B "abc")
           scenario.hung_up).
  - vm_compute. intros H. discriminate H.
  - vm_compute. intros H. discriminate H.
  - reflexivity.
Defined.

Lemma upload_pack_streams_stdout_witness :
  ∃ s' new,
    upload_pack._do_upload_pack scenario.up example.handler example.request
      example.serving = (Ok tt, s') ∧
    sent s' = new ∧ concat new = scenario.pack.
Proof.
  destruct (handler_spec.upload_pack_streams_stdout scenario.up example.handler
              example.request example.serving example.mirror)
    as (s' & new & Hrun & Hsent & Hcat & _).
  - reflexivity.
  - reflexivity.
  - reflexivity.
  - left. reflexivity.
  - reflexivity.
  - vm_compute. intros H. discriminate H.
  - exists s', new. split; [exact Hrun|]. split; [exact Hsent|exact Hcat].
Defined.

Lemma upload_pack_without_mirror_witness :
  ∃ s',
    upload_pack._upload_pack example.env example.handler example.request
      scenario.serving_bare = (Ok tt, s') ∧
    spawns (trace s') = [] ∧ sent s' = [].
Proof.
  destruct (handler_spec.upload_pack_without_mirror example.env example.handler
              example.request scenario.serving_bare example.mirror)
    as (s' & Hrun & Hsp & Hsent & _).
  - reflexivity.
  - vm_compute. reflexivity.
  - exists s'. split; [exact Hrun|]. split; [exact Hsp|exact Hsent].
Defined.

Lemma wants_in_mirror_need_no_update_witness :
  ∃ s',
    upload_pack._ensure_input_wants_in_rcache example.env example.handler [B "0123"]
      example.serving = (Ok tt, s') ∧
    rcache_hit (attrs s') = true ∧
    locks_taken (trace s') = [].
Proof.
  destruct (handler_spec.wants_in_mirror_need_no_update example.env example.handler
              example.mirror [B "0123"] (B "0123 commit 210") example.serving 0)
    as [Hpresent _].
  - reflexivity.
  - vm_compute. reflexivity.
  - intros s0. reflexivity.
  - destruct Hpresent as (s' & Hrun & Hhit & _ & Hlocks & _).
    + vm_compute. reflexivity.
    + exists s'. split; [exact Hrun|]. split; [exact Hhit|exact Hlocks].
Defined.

Lemma handler_check_agrees_with_repo_cache_witness :
  (upload_pack._ensure_input_wants_in_rcache example.env example.handler [B "0123"]
     example.serving).1
  = (repo_cache.ensure_input_wants example.env example.mirror [B "0123"]
       example.serving).1.
Proof.
  destruct (handler_spec.handler_check_agrees_with_repo_cache example.env example.handler
              example.mirror [B "0123"] example.serving) as [Hsame _].
  - reflexivity.
  - exact Hsame.
Defined.

Lemma cache_hit_starts_no_process_witness :
  ∃ s' new,
    upload_pack._run_with_cache example.env example.cleaner example.handler
      example.request scenario.with_entry = (Ok tt, s') ∧
    concat new = scenario.pack ∧ sent s' = new ∧ spawns (trace s') = [].
Proof.
  destruct (request_spec.cache_hit_starts_no_process example.env example.cleaner
              example.handler example.request scenario.with_entry scenario.pack 0 0)
    as (s' & new & Hrun & Hsent & Hcat & Hsp & _).
  - vm_compute. reflexivity.
  - vm_compute. reflexivity.
  - intros m. reflexivity.
  - exists (B "0008abcd"). reflexivity.
  - reflexivity.
  - vm_compute. intros H. discriminate H.
  - vm_compute. intros H. discriminate H.
  - exists s', new. split; [exact Hrun|]. split; [exact Hcat|]. split; [exact Hsent|exact Hsp].
Defined.

Lemma uncached_request_streams_upload_pack_witness :
  ∃ s' new,
    upload_pack.run scenario.up example.cleaner example.throttled scenario.uncacheable
      scenario.ready = (Ok tt, s') ∧
    concat new = scenario.pack ∧ sent s' = new ∧ locks_taken (trace s') = [].
Proof.
  destruct (request_spec.uncached_request_streams_upload_pack scenario.up example.cleaner
              example.throttled scenario.uncacheable scenario.ready
              (B "0123 commit 210") scenario.pack 0 0)
    as (s' & new & Hrun & Hsent & Hcat & Hlocks & _).
  - reflexivity.
  - vm_compute. intros H. discriminate H.
  - reflexivity.
  - reflexivity.
  - vm_compute. reflexivity.
  - vm_compute. reflexivity.
  - intros m. reflexivity.
  - intros s0. reflexivity.
  - vm_compute. reflexivity.
  - intros s0. split; [reflexivity|]. split; reflexivity.
  - reflexivity.
  - vm_compute. intros H. discriminate H.
  - exists s', new. split; [exact Hrun|]. split; [exact Hcat|].
    split; [exact Hsent|exact Hlocks].
Defined.

Lemma cache_miss_fills_and_serves_witness :
  ∃ s' new,
    upload_pack._run_with_cache scenario.up example.cleaner example.throttled
      example.request scenario.ready = (Ok tt, s') ∧
    concat new = scenario.pack ∧ sent s' = new ∧
    ctx s' !! "upload_pack_status" = Some (VStr (B "miss")).
Proof.
  destruct (request_spec.cache_miss_fills_and_serves scenario.up example.cleaner
              example.throttled example.request scenario.ready
              (B "0123 commit 210") [B "0008abcd"; B "0000"] 0 0 0)
    as (s' & new & Hrun & Hsent & Hcat & _ & Hstatus & _).
  - vm_compute. reflexivity.
  - vm_compute. reflexivity.
  - vm_compute. reflexivity.
  - vm_compute. reflexivity.
  - intros m. reflexivity.
  - intros s0. reflexivity.
  - vm_compute. reflexivity.
  - intros s0. split; [reflexivity|]. split; [reflexivity|]. vm_compute. reflexivity.
  - reflexivity.
  - vm_compute. intros H. discriminate H.
  - vm_compute. intros H. discriminate H.
  - exists s', new. split; [exact Hrun|]. split; [exact Hcat|].
    split; [exact Hsent|exact Hstatus].
Defined.



Lemma choose_generator_ignores_parameters_witness :
  metrics.choose_generator
    (Some (metrics.text " application/openmetrics-text;q=0"))
  = metrics.openmetrics_latest.
Proof.
  apply (metrics_spec.choose_generator_ignores_parameters
           (metrics.text " ") [] (metrics.text ";q=0")).
  - repeat constructor.
  - constructor.
  - intros c H. injection H as <-. left. reflexivity.
Defined.

Lemma choose_generator_needs_the_type_witness :
  ∃ h u v,
    Some (metrics.text "text/plain, application/openmetrics-text") = Some h ∧
    h = u ++ metrics.text "application/openmetrics-text" ++ v.
Proof.
  apply (metrics_spec.choose_generator_needs_the_type
           (Some (metrics.text "text/plain, application/openmetrics-text"))).
  vm_compute. reflexivity.
Defined.

Lemma upload_pack_failure_on_cached_path_witness :
  ∃ s',
    upload_pack._run_with_cache example.env example.cleaner example.handler
      example.request scenario.ready = (Ok tt, s') ∧
    sent s'
    = [[]; packet_line.to_packet (B "ERR fatal: git upload-pack: not our ref 0123")] ∧
    fs s' !! B "/w/pack_cache/ab/ab12" = None.
Proof.
  destruct (request_spec.upload_pack_failure_on_cached_path example.env example.cleaner
              example.handler example.request scenario.ready
              (B "0123 commit 210") [] PacketLineError
              (B "fatal: git upload-pack: not our ref 0123") 0 0 0)
    as (s' & Hrun & Hsent & Hfile & _).
  - vm_compute. reflexivity.
  - vm_compute. reflexivity.
  - vm_compute. reflexivity.
  - vm_compute. reflexivity.
  - intros m. reflexivity.
  - intros s0. reflexivity.
  - vm_compute. reflexivity.
  - intros s0. split; [vm_compute; intros H; discriminate H|].
    split; [reflexivity|]. split; [reflexivity|]. vm_compute. reflexivity.
  - vm_compute. reflexivity.
  - reflexivity.
  - reflexivity.
  - exists s'. split; [exact Hrun|]. split; [exact Hsent|exact Hfile].
Defined.

Lemma run_with_cache_raises_KeyError_witness :
  ∃ s',
    upload_pack._run_with_cache
      (example.with_others (delete (B "/w/pack_cache/ab/ab12")) scenario.up)
      example.cleaner example.throttled example.request scenario.ready
    = (Raise (KeyError "upload_pack_status"), s') ∧
    sent s' = [] ∧
    ctx s' !! "upload_pack_status" = None.
Proof.
  destruct (request_spec.run_with_cache_raises_KeyError
              (example.with_others (delete (B "/w/pack_cache/ab/ab12")) scenario.up)
              example.cleaner example.throttled example.request scenario.ready
              (B "0123 commit 210") [B "0008abcd"; B "0000"] 0 0 0)
    as (s' & Hrun & Hsent & _ & Hstatus & _).
  - vm_compute. reflexivity.
  - vm_compute. reflexivity.
  - vm_compute. reflexivity.
  - vm_compute. reflexivity.
  - intros m. apply (lookup_delete_eq m).
  - intros m p Hp. apply (lookup_delete_ne m). intros H. apply Hp. symmetry. exact H.
  - intros s0. reflexivity.
  - vm_compute. reflexivity.
  - intros s0. split; [reflexivity|]. split; [reflexivity|]. vm_compute. reflexivity.
  - reflexivity.
  - exists s'. split; [exact Hrun|]. split; [exact Hsent|exact Hstatus].
Defined.

End scenario_spec.
